(** * py/private/py_venv/link.py: stub colocation and the venv link step

    A shallow embedding of [link.py].  Path strings are Python [str]
    values restricted to ASCII text; the functions of [posixpath] the
    script calls ([join], [normpath], [abspath], [relpath], [dirname])
    are transcribed from the CPython sources.  The file system is a tree
    of directories, regular files and symbolic links on which the system
    calls used by the script ([stat], [lstat], [scandir], [symlink],
    [unlink], [readlink]) are interpreted, with Linux path resolution.

    A character of a string is a code point below 256.  [open] decodes
    the text of a file with the encoding of the locale; here it is the
    ASCII codec, the one of the C locale: a file that holds a byte
    outside ASCII cannot be decoded, and reading it raises
    [UnicodeDecodeError].  A file of ASCII bytes reads the same under
    the other encodings in use (UTF-8, Latin-1), and what is stated of
    the text of a file is stated of such files. *)

From Stdlib Require Import String Ascii List Bool Arith Lia.
Import ListNotations.

Local Open Scope string_scope.
Local Open Scope list_scope.

Notation "s +++ t" := (String.append s t) (at level 60, right associativity).

(* ================================================================== *)
(** ** Python string operations *)

Module Str.

Definition sep : ascii := "/"%char.

Definition is_sep (c : ascii) : bool := Ascii.eqb c sep.

(** [s.split("/")] *)
Fixpoint split (s : string) : list string :=
  match s with
  | EmptyString => [EmptyString]
  | String c s' =>
      if is_sep c then EmptyString :: split s'
      else match split s' with
           | h :: t => String c h :: t
           | [] => [String c EmptyString]
           end
  end.

(** ["/".join(l)] *)
Fixpoint sep_join (l : list string) : string :=
  match l with
  | [] => EmptyString
  | [x] => x
  | x :: rest => x +++ String sep (sep_join rest)
  end.

(** [s.startswith(p)] *)
Definition startswith (s p : string) : bool := String.prefix p s.

(** [s.endswith(p)] *)
Definition endswith (s p : string) : bool :=
  Nat.leb (String.length p) (String.length s) &&
  String.eqb (substring (String.length s - String.length p) (String.length p) s) p.

(** [s[:-1]] *)
Definition drop_last (s : string) : string :=
  substring 0 (String.length s - 1) s.

(** [str.isspace] on one character: the white space of ASCII, and the
    characters U+0085 and U+00A0. *)
Definition is_space (c : ascii) : bool :=
  let n := nat_of_ascii c in
  (Nat.leb 9 n && Nat.leb n 13) || (Nat.leb 28 n && Nat.leb n 32)
  || Nat.eqb n 133 || Nat.eqb n 160.

(** [s.lstrip()] *)
Fixpoint lstrip (s : string) : string :=
  match s with
  | EmptyString => EmptyString
  | String c s' => if is_space c then lstrip s' else s
  end.

(** [s.rstrip()] *)
Fixpoint rstrip (s : string) : string :=
  match s with
  | EmptyString => EmptyString
  | String c s' =>
      match rstrip s' with
      | EmptyString => if is_space c then EmptyString else String c EmptyString
      | r => String c r
      end
  end.

(** [s.strip()] *)
Definition strip (s : string) : string := rstrip (lstrip s).

(** [s.rstrip("/")] *)
Fixpoint rstrip_sep (s : string) : string :=
  match s with
  | EmptyString => EmptyString
  | String c s' =>
      match rstrip_sep s' with
      | EmptyString => if is_sep c then EmptyString else String c EmptyString
      | r => String c r
      end
  end.

(** [s == "/" * len(s)] *)
Fixpoint all_sep (s : string) : bool :=
  match s with
  | EmptyString => true
  | String c s' => is_sep c && all_sep s'
  end.

Definition is_empty (s : string) : bool :=
  match s with EmptyString => true | _ => false end.

(** ["/" in s] *)
Fixpoint has_sep (s : string) : bool :=
  match s with
  | EmptyString => false
  | String c s' => is_sep c || has_sep s'
  end.

(** The lines a text-mode file object yields, without their terminators
    (universal newlines: a line ends at LF, CR or CR LF); the terminators
    are white space that the caller strips. *)
Fixpoint lines_from (cur : string -> string) (s : string) : list string :=
  match s with
  | EmptyString =>
      match cur EmptyString with EmptyString => [] | l => [l] end
  | String c s' =>
      if Ascii.eqb c "010"%char then cur EmptyString :: lines_from (fun x => x) s'
      else if Ascii.eqb c "013"%char then
        match s' with
        | String c' s'' =>
            if Ascii.eqb c' "010"%char
            then cur EmptyString :: lines_from (fun x => x) s''
            else cur EmptyString :: lines_from (fun x => x) s'
        | EmptyString => [cur EmptyString]
        end
      else lines_from (fun x => cur (String c x)) s'
  end.

Definition lines (s : string) : list string := lines_from (fun x => x) s.

(** The bytes of a file that the ASCII codec decodes. *)
Fixpoint is_ascii (s : string) : bool :=
  match s with
  | EmptyString => true
  | String c s' => Nat.ltb (nat_of_ascii c) 128 && is_ascii s'
  end.

End Str.

(* ================================================================== *)
(** ** posixpath *)

Module PosixPath.

Import Str.

Definition curdir : string := ".".
Definition pardir : string := "..".

Definition isabs (s : string) : bool := startswith s "/".

(** [os.path.join(a, b)] *)
Definition join (a b : string) : string :=
  if startswith b "/" then b
  else if is_empty a || endswith a "/" then a +++ b
  else a +++ "/" +++ b.

(** [os.path.join(a, *p)] *)
Definition join_all (a : string) (p : list string) : string :=
  fold_left join p a.

Definition initial_slashes (path : string) : nat :=
  if startswith path "/" then
    if startswith path "//" && negb (startswith path "///") then 2 else 1
  else 0.

Definition is_nil {A} (l : list A) : bool :=
  match l with [] => true | _ => false end.

(** The loop of [normpath] over the components, [new_comps] being the
    list it appends to and pops from. *)
Fixpoint norm_loop (initial : nat) (comps new_comps : list string) : list string :=
  match comps with
  | [] => new_comps
  | comp :: rest =>
      if String.eqb comp "" || String.eqb comp "." then
        norm_loop initial rest new_comps
      else if negb (String.eqb comp "..")
              || (Nat.eqb initial 0 && is_nil new_comps)
              || (negb (is_nil new_comps) && String.eqb (last new_comps "") "..")
      then norm_loop initial rest (new_comps ++ [comp])
      else if negb (is_nil new_comps)
      then norm_loop initial rest (removelast new_comps)
      else norm_loop initial rest new_comps
  end.

Fixpoint slashes (n : nat) : string :=
  match n with 0 => "" | S n' => String sep (slashes n') end.

(** [os.path.normpath(path)] *)
Definition normpath (path : string) : string :=
  if is_empty path then curdir
  else
    let initial := initial_slashes path in
    let comps := norm_loop initial (split path) [] in
    let path' := slashes initial +++ sep_join comps in
    if is_empty path' then curdir else path'.

(** [p.rfind("/") + 1] *)
Fixpoint rfind_sep_succ (p : string) : nat :=
  match p with
  | EmptyString => 0
  | String c p' =>
      match rfind_sep_succ p' with
      | 0 => if is_sep c then 1 else 0
      | S i => S (S i)
      end
  end.

(** [os.path.dirname(p)] *)
Definition dirname (p : string) : string :=
  let i := rfind_sep_succ p in
  let head := substring 0 i p in
  if negb (is_empty head) && negb (all_sep head) then rstrip_sep head else head.

(** [os.path.basename(p)] *)
Definition basename (p : string) : string :=
  let i := rfind_sep_succ p in
  substring i (String.length p - i) p.

(** [os.getcwd()] for a working directory given by its component names. *)
Definition getcwd (cwd : list string) : string := String sep (sep_join cwd).

(** [os.path.abspath(path)] *)
Definition abspath (cwd : list string) (path : string) : string :=
  normpath (if isabs path then path else join (getcwd cwd) path).

(** [len(commonprefix([l1, l2]))] on two lists of components. *)
Fixpoint common_prefix_len (l1 l2 : list string) : nat :=
  match l1, l2 with
  | x :: l1', y :: l2' => if String.eqb x y then S (common_prefix_len l1' l2') else 0
  | _, _ => 0
  end.

(** [[x for x in abspath(p).split(sep) if x]] *)
Definition abs_parts (cwd : list string) (p : string) : list string :=
  filter (fun x => negb (is_empty x)) (split (abspath cwd p)).

(** A component of a path: not empty and without a separator. *)
Definition is_comp (c : string) : bool := negb (is_empty c) && negb (has_sep c).

(** A name: a component other than [.] and [..]. *)
Definition is_name (c : string) : bool :=
  is_comp c && negb (String.eqb c ".") && negb (String.eqb c "..").

(** The components [abspath] normalizes. *)
Definition abs_comps (cwd : list string) (p : string) : list string :=
  if isabs p then split p else split (getcwd cwd) ++ split p.

(** [os.path.relpath(path, start)] for a [path] that is not empty. *)
Definition relpath_body (cwd : list string) (path start : string) : string :=
  let start_list := abs_parts cwd start in
  let path_list := abs_parts cwd path in
  let i := common_prefix_len start_list path_list in
  let rel_list := repeat pardir (List.length start_list - i) ++ skipn i path_list in
  match rel_list with
  | [] => curdir
  | x :: rest => join_all x rest
  end.

(** [os.path.relpath(path, start)]; [None] is the [ValueError] raised
    for an empty [path]. *)
Definition relpath (cwd : list string) (path start : string) : option string :=
  if is_empty path then None else Some (relpath_body cwd path start).

End PosixPath.

(* ================================================================== *)
(** ** The file system *)

Module FS.

Import Str PosixPath.

Inductive errno : Type := ENOENT | ENOTDIR | ELOOP | EEXIST | EISDIR.

Inductive result (A : Type) : Type :=
| Ok (a : A)
| Err (e : errno).
Arguments Ok {A} a.
Arguments Err {A} e.

(** A directory lists its entries in the order [scandir] enumerates
    them; entry names are path components (non-empty, without a
    separator, neither [.] nor [..]). *)
#[warnings="-register-all"]
Inductive node : Type :=
| File (content : string)
| Symlink (target : string)
| Dir (entries : list (string * node)).

(** What [lstat] tells about an entry. *)
Inductive kind : Type :=
| KFile (content : string)
| KSymlink (target : string)
| KDir.

Definition kind_of (n : node) : kind :=
  match n with
  | File c => KFile c
  | Symlink t => KSymlink t
  | Dir _ => KDir
  end.

(** A physical location: the names from the root directory down. *)
Definition loc : Type := list string.

(** The process's view: the tree under [/] and the working directory. *)
Record world : Type := World { root : node; cwd : loc }.

Fixpoint find_entry (name : string) (es : list (string * node)) : option node :=
  match es with
  | [] => None
  | (n, x) :: es' => if String.eqb n name then Some x else find_entry name es'
  end.

Fixpoint lookup (t : node) (p : loc) : option node :=
  match p with
  | [] => Some t
  | c :: p' =>
      match t with
      | Dir es =>
          match find_entry c es with
          | Some m => lookup m p'
          | None => None
          end
      | _ => None
      end
  end.

Definition kind_at (t : node) (p : loc) : option kind :=
  option_map kind_of (lookup t p).

(** Linux follows at most 40 symbolic links in one path resolution. *)
Definition MAXSYMLINKS : nat := 40.

(** Path resolution from the directory [cur] along [comps], following
    every symbolic link met; [used] counts the links followed so far.
    The outer argument bounds the nesting of links inside link targets,
    which never exceeds the number of links followed. *)
Fixpoint walk_from (depth : nat) (t : node) :
    loc -> list string -> nat -> result (loc * nat) :=
  fix go (cur : loc) (comps : list string) (used : nat) {struct comps} :=
    match comps with
    | [] => Ok (cur, used)
    | c :: rest =>
        match kind_at t cur with
        | Some KDir =>
            if String.eqb c "" || String.eqb c "." then go cur rest used
            else if String.eqb c ".." then go (removelast cur) rest used
            else
              match kind_at t (cur ++ [c]) with
              | None => Err ENOENT
              | Some (KSymlink target) =>
                  match depth with
                  | 0 => Err ELOOP
                  | S d =>
                      if Nat.leb MAXSYMLINKS used then Err ELOOP
                      else if is_empty target then Err ENOENT
                      else
                        match walk_from d t (if isabs target then [] else cur)
                                        (split target) (S used) with
                        | Ok (p, used') => go p rest used'
                        | Err e => Err e
                        end
                  end
              | Some _ => go (cur ++ [c]) rest used
              end
        | Some _ => Err ENOTDIR
        | None => Err ENOENT
        end
    end.

Definition start_dir (w : world) (path : string) : loc :=
  if isabs path then [] else cwd w.

(** The location a path resolves to, all links followed ([stat]). *)
Definition resolve (w : world) (path : string) : result loc :=
  if is_empty path then Err ENOENT
  else
    match walk_from MAXSYMLINKS (root w) (start_dir w path) (split path) 0 with
    | Ok (p, _) => Ok p
    | Err e => Err e
    end.

Definition proper_name (name : string) : bool :=
  negb (String.eqb name "" || String.eqb name "." || String.eqb name "..").

(** The location a path names without following a link in its last
    component ([lstat], [symlink], [unlink], [readlink]): the parent
    directory is resolved and the last name is looked up in it. *)
Definition locate (w : world) (path : string) : result loc :=
  if is_empty path then Err ENOENT
  else
    let comps := split path in
    let name := last comps "" in
    if proper_name name then
      match walk_from MAXSYMLINKS (root w) (start_dir w path) (removelast comps) 0 with
      | Ok (parent, _) =>
          match kind_at (root w) parent with
          | Some KDir => Ok (parent ++ [name])
          | Some _ => Err ENOTDIR
          | None => Err ENOENT
          end
      | Err e => Err e
      end
    else resolve w path.

Definition stat (w : world) (path : string) : result kind :=
  match resolve w path with
  | Ok p => match kind_at (root w) p with Some k => Ok k | None => Err ENOENT end
  | Err e => Err e
  end.

Definition lstat (w : world) (path : string) : result kind :=
  match locate w path with
  | Ok p => match kind_at (root w) p with Some k => Ok k | None => Err ENOENT end
  | Err e => Err e
  end.

(** [os.path.isfile], [isdir], [exists], [lexists], [islink]: an
    [OSError] of the underlying call means [False]. *)
Definition isfile (w : world) (path : string) : bool :=
  match stat w path with Ok (KFile _) => true | _ => false end.

Definition isdir (w : world) (path : string) : bool :=
  match stat w path with Ok KDir => true | _ => false end.

Definition exists_ (w : world) (path : string) : bool :=
  match stat w path with Ok _ => true | Err _ => false end.

Definition lexists (w : world) (path : string) : bool :=
  match lstat w path with Ok _ => true | Err _ => false end.

Definition islink (w : world) (path : string) : bool :=
  match lstat w path with Ok (KSymlink _) => true | _ => false end.

(** Applies [f] to the first entry called [name]. *)
Fixpoint map_entry (name : string) (f : node -> node)
    (es : list (string * node)) : list (string * node) :=
  match es with
  | [] => []
  | (n, x) :: es' =>
      if String.eqb n name then (n, f x) :: es' else (n, x) :: map_entry name f es'
  end.

(** The tree with a new last entry at location [p]. *)
Fixpoint insert_at (t : node) (p : loc) (new : node) {struct p} : node :=
  match p with
  | [] => t
  | [name] =>
      match t with
      | Dir es => Dir (es ++ [(name, new)])
      | _ => t
      end
  | c :: p' =>
      match t with
      | Dir es => Dir (map_entry c (fun m => insert_at m p' new) es)
      | _ => t
      end
  end.

Definition remove_entry (name : string) (es : list (string * node)) :
    list (string * node) :=
  filter (fun e => negb (String.eqb (fst e) name)) es.

(** The tree without the entry at location [p]. *)
Fixpoint remove_at (t : node) (p : loc) {struct p} : node :=
  match p with
  | [] => t
  | [name] =>
      match t with
      | Dir es => Dir (remove_entry name es)
      | _ => t
      end
  | c :: p' =>
      match t with
      | Dir es => Dir (map_entry c (fun m => remove_at m p') es)
      | _ => t
      end
  end.

Definition with_root (w : world) (t : node) : world := World t (cwd w).

(** [symlink(2)]: the new tree, or the error. *)
Definition sys_symlink (w : world) (target linkpath : string) : result world :=
  if is_empty target then Err ENOENT
  else
    match locate w linkpath with
    | Err e => Err e
    | Ok p =>
        match kind_at (root w) p with
        | Some _ => Err EEXIST
        | None => Ok (with_root w (insert_at (root w) p (Symlink target)))
        end
    end.

(** [unlink(2)] *)
Definition sys_unlink (w : world) (path : string) : result world :=
  match locate w path with
  | Err e => Err e
  | Ok p =>
      match kind_at (root w) p with
      | None => Err ENOENT
      | Some KDir => Err EISDIR
      | Some _ => Ok (with_root w (remove_at (root w) p))
      end
  end.

(** [readlink(2)]; [EEXIST] never occurs, a non-link gives [EINVAL],
    which no caller here can reach. *)
Definition sys_readlink (w : world) (path : string) : option string :=
  match lstat w path with
  | Ok (KSymlink t) => Some t
  | _ => None
  end.

(** [DirEntry.is_dir()] of the entry [name], [child] under the
    directory path [top]: links are followed. *)
Definition entry_is_dir (w : world) (top : string) (name : string) (child : node) : bool :=
  match child with
  | Dir _ => true
  | File _ => false
  | Symlink _ => isdir w (join top name)
  end.

(** The entries of the directory a path resolves to ([os.scandir]). *)
Definition scandir (w : world) (path : string) : result (list (string * node)) :=
  match resolve w path with
  | Err e => Err e
  | Ok p =>
      match lookup (root w) p with
      | Some (Dir es) => Ok es
      | Some _ => Err ENOTDIR
      | None => Err ENOENT
      end
  end.

(** [os.walk(top)] below a directory node: the triples
    [(dirpath, dirnames, filenames)], top down; directories that are
    symbolic links are listed but not entered.  The path
    [join(top, name)] of an entry that is a directory and not a link
    resolves to that entry, so the walk goes down the tree itself. *)
Fixpoint walk_node (w : world) (top : string) (n : node) :
    list (string * list string * list string) :=
  match n with
  | Dir es =>
      let dirs := map fst (filter (fun e => entry_is_dir w top (fst e) (snd e)) es) in
      let nondirs := map fst (filter (fun e => negb (entry_is_dir w top (fst e) (snd e))) es) in
      (top, dirs, nondirs)
        :: flat_map (fun e => match snd e with
                              | Dir _ => walk_node w (join top (fst e)) (snd e)
                              | _ => []
                              end) es
  | _ => []
  end.

(** [os.walk(top)]: an error of [scandir] on [top] ends the walk
    silently. *)
Definition os_walk (w : world) (top : string) :
    list (string * list string * list string) :=
  match resolve w top with
  | Ok p =>
      match lookup (root w) p with
      | Some n => walk_node w top n
      | None => []
      end
  | Err _ => []
  end.

(** [t'] has every entry of [t], unchanged: what creating entries at
    free locations does to a tree. *)
Definition extends (t t' : node) : Prop :=
  forall p k, kind_at t p = Some k -> kind_at t' p = Some k.

Definition grows (w w' : world) : Prop :=
  cwd w' = cwd w /\ extends (root w) (root w').

(** Every entry of the tree is called by a name, as in a file system:
    a non-empty string without separator other than [.] and [..]. *)
Fixpoint valid_names (t : node) : bool :=
  match t with
  | Dir es => forallb (fun e => is_name (fst e) && valid_names (snd e)) es
  | _ => true
  end.

(** The tree with the content of every regular file emptied. *)
Fixpoint erase (t : node) : node :=
  match t with
  | File _ => File ""
  | Symlink target => Symlink target
  | Dir es => Dir (map (fun e => (fst e, erase (snd e))) es)
  end.

Definition erase_kind (k : kind) : kind :=
  match k with
  | KFile _ => KFile ""
  | k => k
  end.

(** Two views of file systems that differ in file contents at most. *)
Definition same_shape (w w' : world) : Prop :=
  erase (root w) = erase (root w') /\ cwd w = cwd w'.

(** The entries of [w'] that [w] does not have are symbolic links. *)
Definition adds_links (w w' : world) : Prop :=
  forall p, kind_at (root w) p = None ->
    kind_at (root w') p = None \/ exists t, kind_at (root w') p = Some (KSymlink t).

(** A directory path that no symbolic link takes elsewhere: it
    resolves to a directory at the location its normalized absolute
    form spells. *)
Definition plain_dir (w : world) (path : string) : Prop :=
  resolve w path = Ok (abs_parts (cwd w) path) /\
  kind_at (root w) (abs_parts (cwd w) path) = Some KDir.

(** A path resolved without following a symbolic link, to the location
    its normalized absolute form spells. *)
Definition direct (w : world) (path : string) : Prop :=
  walk_from MAXSYMLINKS (root w) (start_dir w path) (split path) 0
  = Ok (abs_parts (cwd w) path, 0).

(** A path that names the entry at the location its normalized absolute
    form spells. *)
Definition plain_entry (w : world) (path : string) : Prop :=
  locate w path = Ok (abs_parts (cwd w) path).

End FS.

(* ================================================================== *)
(** ** link.py *)

Module Link.

Import Str PosixPath FS.

(** The exceptions the script can meet: an [OSError] with its [errno]
    (among them [FileNotFoundError] for [ENOENT], [FileExistsError] for
    [EEXIST], [IsADirectoryError] for [EISDIR]) and [ValueError]. *)
Inductive exn : Type :=
| OSError (e : errno)
| ValueError.

(** A pure computation that may raise. *)
Inductive comp (A : Type) : Type :=
| Val (a : A)
| Exc (x : exn).
Arguments Val {A} a.
Arguments Exc {A} x.

Definition bind {A B} (c : comp A) (k : A -> comp B) : comp B :=
  match c with
  | Val a => k a
  | Exc x => Exc x
  end.

Notation "x <- c ;; k" := (bind c (fun x => k))
  (at level 61, c at next level, right associativity).

(** The run of a statement: it returns, or an exception leaves it; the
    file system reached is kept in both cases. *)
Inductive outcome : Type :=
| Returned (w : world)
| Raised (x : exn) (w : world).

Definition state_of (o : outcome) : world :=
  match o with
  | Returned w => w
  | Raised _ w => w
  end.

(** Sequencing of statements: an exception skips what follows. *)
Definition and_then (o : outcome) (k : world -> outcome) : outcome :=
  match o with
  | Returned w => k w
  | Raised x w => Raised x w
  end.

(** [os.symlink(target, linkpath)] *)
Definition os_symlink (w : world) (target linkpath : string) : outcome :=
  match sys_symlink w target linkpath with
  | Ok w' => Returned w'
  | Err e => Raised (OSError e) w
  end.

(** [dict] with string keys and values, in insertion order. *)
Definition dict : Type := list (string * string).

Fixpoint dict_get (d : dict) (k : string) : option string :=
  match d with
  | [] => None
  | (k', v) :: d' => if String.eqb k' k then Some v else dict_get d' k
  end.

(** [d.setdefault(k, v)] *)
Definition setdefault (d : dict) (k v : string) : dict :=
  match dict_get d k with
  | Some _ => d
  | None => d ++ [(k, v)]
  end.

(** *** Lines 25-27: [glob.glob(join(home, "lib", "python*", "site-packages"))] *)

(** [glob.has_magic(s)]: one of the characters [*], [?] and [[], which
    [glob] reads as wildcards, is in [s]. *)
Fixpoint has_magic (s : string) : bool :=
  match s with
  | EmptyString => false
  | String c s' =>
      Ascii.eqb c "*" || Ascii.eqb c "?" || Ascii.eqb c "[" || has_magic s'
  end.

(** The matches of the pattern, for a [virtualenv_home] without
    wildcard ([has_magic] is false of it): the directories of
    [home/lib] whose name matches [python*], in enumeration order, that
    have an entry [site-packages].  What [glob] gives for a home with a
    wildcard is not modelled: the statements on which directories match
    carry the hypothesis, or are about the list [glob] returned. *)
Definition glob_site_dirs (w : world) (virtualenv_home : string) : list string :=
  let libdir := join virtualenv_home "lib" in
  match scandir w libdir with
  | Err _ => []
  | Ok es =>
      let names :=
        map fst (filter (fun e => entry_is_dir w libdir (fst e) (snd e)
                                  && startswith (fst e) "python") es) in
      flat_map (fun name =>
                  let d := join libdir name in
                  if lexists w (join d "site-packages")
                  then [join d "site-packages"] else []) names
  end.

(** *** Lines 39-47: the [.pth] roots *)

Fixpoint pth_roots_loop (w : world) (site_dir : string) (lines : list string)
    (pth_roots : list string) : list string :=
  match lines with
  | [] => pth_roots
  | line :: rest =>
      let line := strip line in
      if is_empty line || startswith line "#" then
        pth_roots_loop w site_dir rest pth_roots
      else
        let resolved := normpath (join site_dir line) in
        if isdir w resolved
        then pth_roots_loop w site_dir rest (pth_roots ++ [resolved])
        else pth_roots_loop w site_dir rest pth_roots
  end.

(** [open(pth_file)] and the iteration over its lines; a file that
    cannot be decoded raises [UnicodeDecodeError], a [ValueError]. *)
Definition read_lines (w : world) (path : string) : comp (list string) :=
  match stat w path with
  | Ok (KFile content) =>
      if is_ascii content then Val (lines content) else Exc ValueError
  | Ok _ => Exc (OSError EISDIR)
  | Err e => Exc (OSError e)
  end.

(** *** Lines 55-62: the index of stubs *)

Definition index_file (w : world) (root dirpath : string)
    (pyi_sources : dict) (fname : string) : comp dict :=
  if endswith fname ".pyi" then
    let abs_path := join dirpath fname in
    rel_path <- match relpath (cwd w) abs_path root with
                | Some r => Val r
                | None => Exc ValueError
                end ;;
    Val (setdefault pyi_sources rel_path abs_path)
  else Val pyi_sources.

(** A [for] loop whose body may raise. *)
Fixpoint for_each {A S} (body : S -> A -> comp S) (l : list A) (s : S) : comp S :=
  match l with
  | [] => Val s
  | a :: rest => s' <- body s a ;; for_each body rest s'
  end.

Definition index_root (w : world) (pyi_sources : dict) (root : string) : comp dict :=
  for_each (fun d (triple : string * list string * list string) =>
              let '(dirpath, _, filenames) := triple in
              for_each (index_file w root dirpath) filenames d)
           (os_walk w root) pyi_sources.

Definition build_index (w : world) (pth_roots : list string) : comp dict :=
  for_each (index_root w) pth_roots [].

(** *** Lines 65-72: the synthesis of the missing stubs *)

(** The body of the inner loop for one root. *)
Definition place (rel_pyi pyi_abs : string) (w : world) (root : string) : outcome :=
  let rel_py := drop_last rel_pyi in
  let py_in_root := join root rel_py in
  let pyi_in_root := join root rel_pyi in
  if isfile w py_in_root && negb (exists_ w pyi_in_root) then
    match relpath (cwd w) pyi_abs (dirname pyi_in_root) with
    | None => Raised ValueError w
    | Some rel_link => os_symlink w rel_link pyi_in_root
    end
  else Returned w.

(** A [for] loop of statements on the file system. *)
Fixpoint for_stmt {A} (body : world -> A -> outcome) (l : list A) (w : world) : outcome :=
  match l with
  | [] => Returned w
  | a :: rest => and_then (body w a) (for_stmt body rest)
  end.

Definition synthesize (pyi_sources : dict) (pth_roots : list string) (w : world) : outcome :=
  for_stmt (fun w (item : string * string) =>
              let '(rel_pyi, pyi_abs) := item in
              for_stmt (place rel_pyi pyi_abs) pth_roots w)
           pyi_sources w.

(** *** Lines 16-72: [colocate_pyi_stubs] *)

(** The function from line 32 on, [site_dir] being [site_dirs[0]]. *)
Definition colocate_in (w : world) (site_dir : string) : outcome :=
  let pth_file := join site_dir "_aspect.pth" in
  if negb (isfile w pth_file) then Returned w
  else
    match read_lines w pth_file with
    | Exc x => Raised x w
    | Val ls =>
        let pth_roots := pth_roots_loop w site_dir ls [] in
        if is_nil pth_roots then Returned w
        else
          match build_index w pth_roots with
          | Exc x => Raised x w
          | Val pyi_sources => synthesize pyi_sources pth_roots w
          end
    end.

Definition colocate_pyi_stubs (w : world) (virtualenv_home : string) : outcome :=
  let site_dirs := glob_site_dirs w virtualenv_home in
  match site_dirs with
  | [] => Returned w
  | site_dir :: _ => colocate_in w site_dir
  end.

(** The function from line 28 on, [site_dirs] being the list that
    [glob.glob] returned. *)
Definition colocate_from (w : world) (site_dirs : list string) : outcome :=
  match site_dirs with
  | [] => Returned w
  | site_dir :: _ => colocate_in w site_dir
  end.

(** *** Lines 111-132: the link of the virtualenv *)

(** [str(pathlib.Path(s))]: empty and [.] components are dropped, the
    root is [/], or [//] for exactly two leading separators. *)
Definition Path_str (s : string) : string :=
  let k := initial_slashes s in
  let parsed := filter (fun x => negb (String.eqb x "" || String.eqb x ".")) (split s) in
  let r := slashes k +++ sep_join parsed in
  if is_empty r then "." else r.

(** [Path(a) == Path(b)] *)
Definition Path_eqb (a b : string) : bool := String.eqb (Path_str a) (Path_str b).

(** [dest.unlink()] *)
Definition os_unlink (w : world) (path : string) : outcome :=
  match sys_unlink w path with
  | Ok w' => Returned w'
  | Err e => Raised (OSError e) w
  end.

(** Line 120: [dest.exists() and dest.is_symlink() and
    dest.readlink() == Path(virtualenv_home)]. *)
Definition up_to_date (w : world) (dest virtualenv_home : string) : bool :=
  exists_ w dest && islink w dest &&
  match sys_readlink w dest with
  | Some t => Path_eqb t virtualenv_home
  | None => false
  end.

(** Lines 120-132, [dest] being [str(dest)]. *)
Definition link_step (w : world) (dest virtualenv_home : string) : outcome :=
  if up_to_date w dest virtualenv_home
  then Returned w
  else
    let after_try :=
      match lstat w dest with
      | Err ENOENT => Returned w
      | Err e => Raised (OSError e) w
      | Ok _ =>
          match os_unlink w dest with
          | Raised (OSError ENOENT) w' => Returned w'
          | o => o
          end
      end in
    and_then after_try (fun w' => os_symlink w' virtualenv_home dest).

(** Line 111: [dest = Path(os.path.join(opts.dest, opts.name))]. *)
Definition dest_path (opts_dest opts_name : string) : string :=
  Path_str (join opts_dest opts_name).

(** *** Notions the statements below use *)

(** The two loops of the synthesis as one sequence of placements
    [(rel_pyi, pyi_abs, root)], in the order the loops visit them. *)
Definition placements (pyi_sources : dict) (pth_roots : list string) :
    list (string * string * string) :=
  flat_map (fun item => map (fun root => (fst item, snd item, root)) pth_roots)
           pyi_sources.

Definition place_task (w : world) (t : string * string * string) : outcome :=
  place (fst (fst t)) (snd (fst t)) w (snd t).

(** The stub path and the sibling source path of a placement. *)
Definition stub_path (root rel_pyi : string) : string := join root rel_pyi.
Definition source_path (root rel_pyi : string) : string := join root (drop_last rel_pyi).

(** [root] holds a stub at the relative path [rel], [abs] being its
    absolute path: the walk of [root] lists a file name ending in
    [.pyi] for which lines 60-61 compute [abs] and [rel]. *)
Definition stub_under (w : world) (root rel abs : string) : Prop :=
  exists dirpath dirnames filenames fname,
    In (dirpath, dirnames, filenames) (os_walk w root) /\
    In fname filenames /\
    endswith fname ".pyi" = true /\
    abs = join dirpath fname /\
    relpath (cwd w) abs root = Some rel.

(** The pairs [(rel_path, abs_path)] that lines 57-62 pass to
    [setdefault] for one root, in the order of the walk. *)
Definition stub_entries (w : world) (root : string) : list (string * string) :=
  flat_map (fun triple : string * list string * list string =>
              flat_map (fun fname =>
                          if endswith fname ".pyi"
                          then [(relpath_body (cwd w) (join (fst (fst triple)) fname) root,
                                 join (fst (fst triple)) fname)]
                          else [])
                       (snd triple))
           (os_walk w root).

(** [setdefault] on a pair. *)
Definition setdefault_pair (d : dict) (e : string * string) : dict :=
  setdefault d (fst e) (snd e).

(** The root a line of the [.pth] file contributes, if any (the body of
    the loop of lines 41-47). *)
Definition root_of_line (w : world) (site_dir line : string) : option string :=
  let line := strip line in
  if is_empty line || startswith line "#" then None
  else
    let resolved := normpath (join site_dir line) in
    if isdir w resolved then Some resolved else None.

Definition option_list {A} (o : option A) : list A :=
  match o with Some a => [a] | None => [] end.

End Link.

(* ================================================================== *)
(** ** link.py: the link name and the script *)

Module Script.

Import Str PosixPath FS Link.

(** [c in s] for a character [c]. *)
Fixpoint has_char (c : ascii) (s : string) : bool :=
  match s with
  | EmptyString => false
  | String a s' => Ascii.eqb a c || has_char c s'
  end.

(** [s.count(c)] for a character [c]. *)
Fixpoint count_char (c : ascii) (s : string) : nat :=
  match s with
  | EmptyString => 0
  | String a s' => (if Ascii.eqb a c then 1 else 0) + count_char c s'
  end.

(** Every character of [s] is [c]. *)
Fixpoint all_char (c : ascii) (s : string) : bool :=
  match s with
  | EmptyString => true
  | String a s' => Ascii.eqb a c && all_char c s'
  end.

(** [s.replace(old, new)] for one-character strings [old] and [new]. *)
Fixpoint replace_char (old new : ascii) (s : string) : string :=
  match s with
  | EmptyString => EmptyString
  | String a s' =>
      String (if Ascii.eqb a old then new else a) (replace_char old new s')
  end.

(** [s.lstrip(chars)] *)
Fixpoint lstrip_chars (chars s : string) : string :=
  match s with
  | EmptyString => EmptyString
  | String a s' => if has_char a chars then lstrip_chars chars s' else s
  end.

(** [x or ""] for [x] a string or [None]. *)
Definition or_empty (x : option string) : string :=
  match x with
  | Some s => s
  | None => EmptyString
  end.

(** *** Lines 75-80: [munge_venv_name] *)

Definition munge_venv_name (target_package : option string)
    (virtualenv_name : string) : string :=
  let acc := replace_char "/"%char "+"%char (or_empty target_package) in
  let acc := if is_empty acc then acc else acc +++ "+" in
  let acc := acc +++ lstrip_chars "." virtualenv_name in
  "." +++ acc.

(** *** Lines 84-88: the environment *)

(** [s[n:]] *)
Fixpoint skip (n : nat) (s : string) : string :=
  match n, s with
  | 0, _ => s
  | S n', String _ s' => skip n' s'
  | S _, EmptyString => EmptyString
  end.

(** The leftmost occurrence of [sp], not empty, in [s]: the text before
    it and the text after it. *)
Fixpoint find_first (sp s : string) : option (string * string) :=
  if String.prefix sp s then Some (EmptyString, skip (String.length sp) s)
  else
    match s with
    | EmptyString => None
    | String a s' =>
        match find_first sp s' with
        | Some (before, after) => Some (String a before, after)
        | None => None
        end
    end.

(** [s.split(sp, 1)] for [sp] not empty. *)
Definition split_once (sp s : string) : list string :=
  match find_first sp s with
  | Some (before, after) => [before; after]
  | None => [s]
  end.

(** [s.split(c)] for a one-character string [c]. *)
Fixpoint split_on (c : ascii) (s : string) : list string :=
  match s with
  | EmptyString => [EmptyString]
  | String a s' =>
      if Ascii.eqb a c then EmptyString :: split_on c s'
      else match split_on c s' with
           | h :: t => String a h :: t
           | [] => [String a EmptyString]
           end
  end.

(** The exceptions of the script: the [KeyError] of [os.environ], the
    [IndexError] of a list index, and those of [Link.exn] (the
    [ValueError] of an unpacking among them). *)
Inductive exc : Type :=
| KeyError (key : string)
| IndexError
| Other (x : exn).

Inductive pure (A : Type) : Type :=
| Value (a : A)
| Throw (e : exc).
Arguments Value {A} a.
Arguments Throw {A} e.

Definition pure_bind {A B} (c : pure A) (k : A -> pure B) : pure B :=
  match c with
  | Value a => k a
  | Throw e => Throw e
  end.

Notation "x <-- c ;; k" := (pure_bind c (fun x => k))
  (at level 61, c at next level, right associativity).

(** [os.environ[key]], the environment being a mapping from names to
    values. *)
Definition environ_get (environ : dict) (key : string) : pure string :=
  match dict_get environ key with
  | Some v => Value v
  | None => Throw (KeyError key)
  end.

(** Line 88: [label.split("//", 1)[1].split(":")], unpacked into
    [target_package, target_name]. *)
Definition parse_target (label : string) : pure (string * string) :=
  match nth_error (split_once "//" label) 1 with
  | None => Throw IndexError
  | Some rest =>
      match split_on ":"%char rest with
      | [target_package; target_name] => Value (target_package, target_name)
      | _ => Throw (Other ValueError)
      end
  end.

(** The module-level names of lines 84-88. *)
Record settings : Type := Settings {
  virtualenv_home : string;
  virtualenv_name : string;
  runfiles_dir : string;
  builddir : string;
  target_package : string;
  target_name : string
}.

Definition read_environ (environ : dict) : pure settings :=
  home <-- environ_get environ "VIRTUAL_ENV" ;;
  runfiles <-- environ_get environ "RUNFILES_DIR" ;;
  build <-- environ_get environ "BUILD_WORKING_DIRECTORY" ;;
  label <-- environ_get environ "BAZEL_TARGET" ;;
  target <-- parse_target label ;;
  Value (Settings (normpath home) (basename (normpath home))
                  (normpath runfiles) (normpath build)
                  (fst target) (snd target)).

(** *** Lines 90-111: the options *)

(** The values given on the command line for [--dest] and [--name], if
    any, on a command line that [argparse] accepts. *)
Record options : Type := Options {
  given_dest : option string;
  given_name : option string
}.

(** [opts.dest] and [opts.name] after [parse_args()]: the value given,
    or the default of lines 99 and 106. *)
Definition opts_dest (s : settings) (given : options) : string :=
  match given_dest given with
  | Some d => d
  | None => builddir s
  end.

Definition opts_name (s : settings) (given : options) : string :=
  match given_name given with
  | Some n => n
  | None => munge_venv_name (Some (target_package s)) (virtualenv_name s)
  end.

(** *** Lines 120-136: the link step, then the colocation *)

Definition link_and_colocate (w : world) (dest virtualenv_home : string) : outcome :=
  and_then (link_step w dest virtualenv_home)
           (fun w' => colocate_pyi_stubs w' virtualenv_home).

(** *** Lines 83-136: the script; what it prints is left out *)

Inductive ending : Type :=
| Exit (w : world)
| Die (e : exc) (w : world).

Definition final (r : ending) : world :=
  match r with
  | Exit w => w
  | Die _ w => w
  end.

Definition main (environ : dict) (given : options) (w : world) : ending :=
  match read_environ environ with
  | Throw e => Die e w
  | Value s =>
      let dest := dest_path (opts_dest s given) (opts_name s given) in
      match link_and_colocate w dest (virtualenv_home s) with
      | Returned w' => Exit w'
      | Raised x w' => Die (Other x) w'
      end
  end.

(** *** Notions the statements below use *)

(** Two runs that end the same way, in file systems that differ in file
    contents at most. *)
Definition same_outcome (o o' : outcome) : Prop :=
  match o, o' with
  | Returned a, Returned b => same_shape a b
  | Raised x a, Raised y b => x = y /\ same_shape a b
  | _, _ => False
  end.

End Script.

(* ================================================================== *)
(** ** Concrete file systems *)

Module Worlds.

Import Str PosixPath FS Link.

Definition nl : string := String "010"%char "".

(** A virtualenv [/venv] whose [_aspect.pth] has the given text. *)
Definition venv (pth : string) : string * node :=
  ("venv", Dir [("lib", Dir [("python3", Dir [("site-packages",
     Dir [("_aspect.pth", File pth)])])])]).

Definition site_packages : string := "/venv/lib/python3/site-packages".

Definition up4 : string := "../../../../".

(** Roots [A = {pkg/x.py, pkg/x.pyi}] and [B = {pkg/x.py}]. *)
Definition two_roots : world :=
  World (Dir [venv ("# roots" +++ nl +++ up4 +++ "A" +++ nl +++ up4 +++ "B" +++ nl);
              ("A", Dir [("pkg", Dir [("x.py", File "a"); ("x.pyi", File "stub")])]);
              ("B", Dir [("pkg", Dir [("x.py", File "b")])])])
        [].

(** [two_roots] after the colocation. *)
Definition two_roots_done : world :=
  World (Dir [venv ("# roots" +++ nl +++ up4 +++ "A" +++ nl +++ up4 +++ "B" +++ nl);
              ("A", Dir [("pkg", Dir [("x.py", File "a"); ("x.pyi", File "stub")])]);
              ("B", Dir [("pkg", Dir [("x.py", File "b");
                                      ("x.pyi", Symlink "../../A/pkg/x.pyi")])])])
        [].

(** The source [R/x.py] is a dangling link to the place where the stub
    of [S] will be put. *)
Definition dangling_source : world :=
  World (Dir [venv (up4 +++ "R" +++ nl +++ up4 +++ "S" +++ nl +++ up4 +++ "T" +++ nl);
              ("R", Dir [("x.py", Symlink "../S/x.pyi")]);
              ("S", Dir [("x.py", File "")]);
              ("T", Dir [("x.pyi", File "")])])
        [].

(** [dangling_source] after one run of the colocation, and after two. *)
Definition dangling_source_once : world :=
  World (Dir [venv (up4 +++ "R" +++ nl +++ up4 +++ "S" +++ nl +++ up4 +++ "T" +++ nl);
              ("R", Dir [("x.py", Symlink "../S/x.pyi")]);
              ("S", Dir [("x.py", File ""); ("x.pyi", Symlink "../T/x.pyi")]);
              ("T", Dir [("x.pyi", File "")])])
        [].

Definition dangling_source_twice : world :=
  World (Dir [venv (up4 +++ "R" +++ nl +++ up4 +++ "S" +++ nl +++ up4 +++ "T" +++ nl);
              ("R", Dir [("x.py", Symlink "../S/x.pyi");
                         ("x.pyi", Symlink "../T/x.pyi")]);
              ("S", Dir [("x.py", File ""); ("x.pyi", Symlink "../T/x.pyi")]);
              ("T", Dir [("x.pyi", File "")])])
        [].

(** The root [A/sub] lies inside the root [A]. *)
Definition nested_roots : world :=
  World (Dir [venv (up4 +++ "A" +++ nl +++ up4 +++ "A/sub" +++ nl
                    +++ up4 +++ "C" +++ nl +++ up4 +++ "D" +++ nl);
              ("A", Dir [("sub", Dir [("x.py", File "")])]);
              ("C", Dir [("sub", Dir [("x.pyi", File "c")])]);
              ("D", Dir [("x.pyi", File "d")])])
        [].

(** [nested_roots] after the colocation. *)
Definition nested_roots_done : world :=
  World (Dir [venv (up4 +++ "A" +++ nl +++ up4 +++ "A/sub" +++ nl
                    +++ up4 +++ "C" +++ nl +++ up4 +++ "D" +++ nl);
              ("A", Dir [("sub", Dir [("x.py", File "");
                                      ("x.pyi", Symlink "../../C/sub/x.pyi")])]);
              ("C", Dir [("sub", Dir [("x.pyi", File "c")])]);
              ("D", Dir [("x.pyi", File "d")])])
        [].

(** Both [A] and [B] hold the stub [pkg/x.pyi]; [C] holds none. *)
Definition shared_stub : world :=
  World (Dir [venv (up4 +++ "C" +++ nl +++ up4 +++ "A" +++ nl +++ up4 +++ "B" +++ nl);
              ("A", Dir [("pkg", Dir [("x.pyi", File "stub of A")])]);
              ("B", Dir [("pkg", Dir [("x.pyi", File "stub of B")])]);
              ("C", Dir [("pkg", Dir [("x.py", File "c")])])])
        [].

(** The same root is named by two lines. *)
Definition repeated_line : world :=
  World (Dir [venv (up4 +++ "A" +++ nl +++ up4 +++ "A" +++ nl);
              ("A", Dir [("x.py", File "a")])])
        [].

(** [site-packages] is a link to a directory elsewhere: the line
    [../r] names [/venv/lib/python3/r], not [/real/deep/r]. *)
Definition linked_site : world :=
  World (Dir [("venv", Dir [("lib", Dir [("python3",
                 Dir [("site-packages", Symlink "/real/deep/sp");
                      ("r", Dir [])])])]);
              ("real", Dir [("deep", Dir [("sp", Dir [("_aspect.pth", File "../r")])])])])
        [].

(** Two directories match [python*]; the first has an empty
    [_aspect.pth], the second names the roots [A] and [B]. *)
Definition two_pythons : world :=
  World (Dir [("venv", Dir [("lib", Dir
                 [("python3.11", Dir [("site-packages", Dir [("_aspect.pth", File "")])]);
                  ("python3.12", Dir [("site-packages", Dir [("_aspect.pth",
                      File (up4 +++ "A" +++ nl +++ up4 +++ "B" +++ nl))])])])]);
              ("A", Dir [("x.py", File "a"); ("x.pyi", File "stub")]);
              ("B", Dir [("x.py", File "b")])])
        [].

(** A project directory [/src] that holds a stale link [.venv], a
    regular file [notes] and a directory [build]. *)
Definition project : world :=
  World (Dir [venv "";
              ("old", Dir []);
              ("src", Dir [(".venv", Symlink "/old");
                           ("notes", File "n");
                           ("build", Dir [("out", File "o")])])])
        ["src"].

(** The root [/B] is a link to a directory elsewhere. *)
Definition linked_root : world :=
  World (Dir [venv (up4 +++ "A" +++ nl +++ up4 +++ "B" +++ nl);
              ("A", Dir [("x.pyi", File "stub")]);
              ("B", Symlink "/deep/er/B");
              ("deep", Dir [("er", Dir [("B", Dir [("x.py", File "b")])])])])
        [].

(** [linked_root] after the colocation. *)
Definition linked_root_done : world :=
  World (Dir [venv (up4 +++ "A" +++ nl +++ up4 +++ "B" +++ nl);
              ("A", Dir [("x.pyi", File "stub")]);
              ("B", Symlink "/deep/er/B");
              ("deep", Dir [("er", Dir [("B", Dir [("x.py", File "b");
                                                   ("x.pyi", Symlink "../A/x.pyi")])])])])
        [].

(** The stub path of [B] holds a link to nowhere. *)
Definition broken_stub : world :=
  World (Dir [venv (up4 +++ "A" +++ nl +++ up4 +++ "B" +++ nl +++ up4 +++ "C" +++ nl);
              ("A", Dir [("x.py", File "a"); ("x.pyi", File "stub")]);
              ("B", Dir [("x.py", File "b"); ("x.pyi", Symlink "nowhere")]);
              ("C", Dir [("x.py", File "c")])])
        [].

End Worlds.

(* ================================================================== *)
(** ** Concrete runs of the script *)

Module Runs.

Import Str PosixPath FS Link Script Worlds.

(** The environment of a run for the target [//app/svc:venv]. *)
Definition environ_svc : dict :=
  [("VIRTUAL_ENV", "/venv/"); ("RUNFILES_DIR", "/r");
   ("BUILD_WORKING_DIRECTORY", "/src"); ("BAZEL_TARGET", "@@//app/svc:venv")].

Definition settings_svc : settings :=
  Settings "/venv" "venv" "/r" "/src" "app/svc" "venv".

(** No [BUILD_WORKING_DIRECTORY] and no [RUNFILES_DIR]. *)
Definition environ_short : dict :=
  [("VIRTUAL_ENV", "/venv"); ("BAZEL_TARGET", "//app:venv")].

(** [two_roots] with other file contents, the [.pth] file apart. *)
Definition two_roots_edited : world :=
  World (Dir [venv ("# roots" +++ nl +++ up4 +++ "A" +++ nl +++ up4 +++ "B" +++ nl);
              ("A", Dir [("pkg", Dir [("x.py", File "a, edited");
                                      ("x.pyi", File "another stub")])]);
              ("B", Dir [("pkg", Dir [("x.py", File "")])])])
        [].

(** A destination that is reached through the link it names. *)
Definition through_itself : string := "/src/.venv/../src/.venv".

(** A virtualenv whose [site-packages] has no [_aspect.pth]. *)
Definition bare_venv : world :=
  World (Dir [("venv", Dir [("lib", Dir [("python3", Dir [("site-packages",
                 Dir [("other.pth", File "../../../../A")])])])]);
              ("A", Dir [("x.py", File "a"); ("x.pyi", File "stub")])])
        [].

(** An [_aspect.pth] that names no directory: a comment, a blank line
    and a path that does not exist. *)
Definition dead_lines : world :=
  World (Dir [venv ("# nothing" +++ nl +++ "   " +++ nl +++ up4 +++ "missing" +++ nl);
              ("A", Dir [("x.py", File "a"); ("x.pyi", File "stub")])])
        [].

(** Lines with white space around the path, and a blank line. *)
Definition spaced_line : world :=
  World (Dir [venv (" " +++ up4 +++ "A" +++ nl +++ "   " +++ nl);
              ("A", Dir [("x.py", File "a")])])
        [].

(** An [_aspect.pth] that holds a byte outside ASCII. *)
Definition undecodable : world :=
  World (Dir [venv (up4 +++ "A" +++ nl +++ String "255"%char nl);
              ("A", Dir [("x.py", File "a"); ("x.pyi", File "stub")]);
              ("src", Dir [])])
        [].

(** Two directories match [python*]; the first names the roots [A] and
    [B], the second the roots [C] and [A]. *)
Definition first_of_two : world :=
  World (Dir [("venv", Dir [("lib", Dir
                 [("python3.11", Dir [("site-packages", Dir [("_aspect.pth",
                      File (up4 +++ "A" +++ nl +++ up4 +++ "B" +++ nl))])]);
                  ("python3.12", Dir [("site-packages", Dir [("_aspect.pth",
                      File (up4 +++ "C" +++ nl +++ up4 +++ "A" +++ nl))])])])]);
              ("A", Dir [("x.py", File "a"); ("x.pyi", File "stub")]);
              ("B", Dir [("x.py", File "b")]);
              ("C", Dir [("x.py", File "c")])])
        [].

(** [first_of_two] with another [_aspect.pth] in the second match and
    other file contents. *)
Definition first_of_two_edited : world :=
  World (Dir [("venv", Dir [("lib", Dir
                 [("python3.11", Dir [("site-packages", Dir [("_aspect.pth",
                      File (up4 +++ "A" +++ nl +++ up4 +++ "B" +++ nl))])]);
                  ("python3.12", Dir [("site-packages", Dir [("_aspect.pth",
                      File ("# nothing here" +++ nl))])])])]);
              ("A", Dir [("x.py", File "a"); ("x.pyi", File "stub, edited")]);
              ("B", Dir [("x.py", File "")]);
              ("C", Dir [("x.py", File "c")])])
        [].

(** Two directories match [python*]; the first has no [_aspect.pth],
    the second names the roots [A] and [B]. *)
Definition first_bare : world :=
  World (Dir [("venv", Dir [("lib", Dir
                 [("python3.11", Dir [("site-packages", Dir [])]);
                  ("python3.12", Dir [("site-packages", Dir [("_aspect.pth",
                      File (up4 +++ "A" +++ nl +++ up4 +++ "B" +++ nl))])])])]);
              ("A", Dir [("x.py", File "a"); ("x.pyi", File "stub")]);
              ("B", Dir [("x.py", File "b")])])
        [].

(** [two_roots] with lines that end in CR LF, and other file
    contents. *)
Definition two_roots_crlf : world :=
  World (Dir [venv ("# roots" +++ String "013"%char nl +++ up4 +++ "A"
                    +++ String "013"%char nl +++ up4 +++ "B" +++ String "013"%char nl);
              ("A", Dir [("pkg", Dir [("x.py", File "a, edited");
                                      ("x.pyi", File "another stub")])]);
              ("B", Dir [("pkg", Dir [("x.py", File "")])])])
        [].

(** An [_aspect.pth] with white space around a path, a blank line, a
    comment that is indented, a path that does not exist and a path
    with [.] and [..] in it. *)
Definition mixed_text : string :=
  " " +++ up4 +++ "A  " +++ nl +++ "   " +++ nl +++ "  # " +++ up4 +++ "C" +++ nl
  +++ up4 +++ "missing" +++ nl +++ up4 +++ "./B/../B/" +++ nl.

Definition mixed_lines : world :=
  World (Dir [venv mixed_text;
              ("A", Dir [("x.py", File "a"); ("x.pyi", File "stub")]);
              ("B", Dir [("x.py", File "b")]);
              ("C", Dir [("x.py", File "c")])])
        [].

End Runs.

(* ================================================================== *)
(** ** The resolution of the lines in the words of the specification *)

Module AsSpecified.

Import Str PosixPath FS Link.

(** The components of a path read from left to right: the empty ones
    and [.] are dropped, and [..] cancels the component kept last; where
    nothing is kept, [..] is dropped under the root and kept in a
    relative path, as it is after another [..].  [kept] holds the
    components kept so far, the last one first. *)
Fixpoint collapse (absolute : bool) (kept comps : list string) : list string :=
  match comps with
  | [] => rev kept
  | c :: rest =>
      if String.eqb c "" || String.eqb c "." then collapse absolute kept rest
      else if String.eqb c ".." then
        match kept with
        | [] => collapse absolute (if absolute then [] else [".."]) rest
        | k :: kept' =>
            if String.eqb k ".." then collapse absolute (".." :: kept) rest
            else collapse absolute kept' rest
        end
      else collapse absolute (c :: kept) rest
  end.

(** [s] is white space throughout. *)
Fixpoint all_space (s : string) : bool :=
  match s with
  | EmptyString => true
  | String c s' => is_space c && all_space s'
  end.

(** [t] is [line] without the white space at its two ends. *)
Definition trimmed (line t : string) : Prop :=
  (exists a b, line = a +++ t +++ b /\ all_space a = true /\ all_space b = true) /\
  (forall c r, t = String c r -> is_space c = false) /\
  (forall r c, t = r +++ String c "" -> is_space c = false).

(** A path normalized lexically: its leading slashes, then the
    collapsed components; [.] where nothing is left. *)
Definition normalized_lexically (path : string) : string :=
  let path' := slashes (initial_slashes path)
               +++ sep_join (collapse (isabs path) [] (split path)) in
  if is_empty path' then "." else path'.

(** The roots where the lines are taken as the file has them: a line
    that is not empty and does not begin with [#] is joined to the
    directory and normalized, and kept when it is a directory. *)
Definition roots_as_claimed (w : world) (site_dir : string) (ls : list string) :
    list string :=
  filter (isdir w)
    (map (fun l => normalized_lexically (join site_dir l))
       (filter (fun l => negb (is_empty l || startswith l "#")) ls)).

End AsSpecified.

(* ================================================================== *)
(** ** Checks of the path functions on concrete paths *)

Module PathExamples.

Import Str PosixPath.

Example normpath_dots : normpath "/a/b/../c/./d//" = "/a/c/d".
Proof. reflexivity. Qed.

Example normpath_relative_up : normpath "a/../../b" = "../b".
Proof. reflexivity. Qed.

Example normpath_two_slashes : normpath "//a/.." = "//".
Proof. reflexivity. Qed.

Example dirname_nested : dirname "/r/pkg/x.pyi" = "/r/pkg".
Proof. reflexivity. Qed.

Example dirname_root : dirname "/x.pyi" = "/".
Proof. reflexivity. Qed.

Example relpath_sibling_root :
  relpath ["w"] "/t/A/pkg/x.pyi" "/t/B/pkg" = Some "../../A/pkg/x.pyi".
Proof. reflexivity. Qed.

Example relpath_same : relpath ["w"] "/t/A" "/t/A" = Some ".".
Proof. reflexivity. Qed.

Example relpath_from_cwd : relpath ["w"; "v"] "a/x.pyi" "b" = Some "../a/x.pyi".
Proof. reflexivity. Qed.

End PathExamples.

(* ================================================================== *)
(** ** Facts about strings *)

Module StrFacts.

Import Str.

Lemma append_nil_r s : s +++ "" = s.
Proof. induction s as [|c s IH]; simpl; [reflexivity | rewrite IH; reflexivity]. Qed.

Lemma append_assoc s t u : (s +++ t) +++ u = s +++ (t +++ u).
Proof. induction s as [|c s IH]; simpl; [reflexivity | rewrite IH; reflexivity]. Qed.

Lemma length_append s t : String.length (s +++ t) = String.length s + String.length t.
Proof. induction s as [|c s IH]; simpl; [reflexivity | rewrite IH; reflexivity]. Qed.

Lemma is_empty_true s : is_empty s = true -> s = "".
Proof. destruct s; [reflexivity | discriminate]. Qed.

Lemma is_empty_append s t : is_empty (s +++ t) = is_empty s && is_empty t.
Proof. destruct s; reflexivity. Qed.

(** Every non-empty string ends with a character. *)
Lemma snoc_cases s : s = "" \/ exists s' c, s = s' +++ String c "".
Proof.
  induction s as [|a s IH]; [left; reflexivity | right].
  destruct IH as [-> | [s' [c ->]]].
  - exists "", a. reflexivity.
  - exists (String a s'), c. reflexivity.
Qed.

Lemma substring_all s : substring 0 (String.length s) s = s.
Proof. induction s as [|c s IH]; simpl; [reflexivity | rewrite IH; reflexivity]. Qed.

Lemma substring_prefix s t : substring 0 (String.length s) (s +++ t) = s.
Proof.
  induction s as [|c s IH]; simpl; [destruct t; reflexivity | rewrite IH; reflexivity].
Qed.

Lemma substring_suffix s t :
  substring (String.length s) (String.length t) (s +++ t) = t.
Proof. induction s as [|c s IH]; simpl; [apply substring_all | exact IH]. Qed.

Lemma drop_last_snoc s c : drop_last (s +++ String c "") = s.
Proof.
  unfold drop_last. rewrite length_append. simpl.
  replace (String.length s + 1 - 1) with (String.length s) by lia.
  apply substring_prefix.
Qed.

Lemma drop_last_empty : drop_last "" = "".
Proof. reflexivity. Qed.

Lemma startswith_sep_cons c s : startswith (String c s) "/" = is_sep c.
Proof.
  unfold startswith, is_sep, sep. cbn [prefix].
  destruct (ascii_dec "/" c) as [E|N].
  - rewrite <- E, Ascii.eqb_refl. destruct s; reflexivity.
  - symmetry. apply Ascii.eqb_neq. congruence.
Qed.

Lemma startswith_sep_append s t :
  s <> "" -> startswith (s +++ t) "/" = startswith s "/".
Proof.
  destruct s as [|c s]; [congruence|]. intros _. cbn [append].
  rewrite !startswith_sep_cons. reflexivity.
Qed.

Lemma endswith_snoc s c t :
  endswith (s +++ String c "") (String t "") = Ascii.eqb c t.
Proof.
  unfold endswith. rewrite length_append. simpl String.length.
  replace (String.length s + 1 - 1) with (String.length s) by lia.
  replace (substring (String.length s) 1 (s +++ String c "")) with (String c "")
    by (symmetry; apply (substring_suffix s (String c ""))).
  replace (Nat.leb 1 (String.length s + 1)) with true
    by (symmetry; apply Nat.leb_le; lia).
  simpl. destruct (Ascii.eqb c t); reflexivity.
Qed.

Lemma endswith_sep a :
  endswith a "/" = true -> exists a', a = a' +++ "/".
Proof.
  destruct (snoc_cases a) as [-> | [a' [c ->]]]; [discriminate|].
  rewrite endswith_snoc. intros E. apply Ascii.eqb_eq in E. subst c. eauto.
Qed.

Lemma split_not_nil s : split s <> [].
Proof.
  destruct s as [|c s]; simpl; [discriminate|].
  destruct (is_sep c); [discriminate|]. destruct (split s); discriminate.
Qed.

(** Splitting at an explicit separator. *)
Lemma split_app_sep a b : split (a +++ String sep b) = split a ++ split b.
Proof.
  induction a as [|c a IH]; simpl; [reflexivity|].
  rewrite IH. destruct (is_sep c); [reflexivity|].
  destruct (split a) eqn:E; [destruct (split_not_nil _ E) | reflexivity].
Qed.

(** A character other than the separator extends the last component. *)
Lemma split_snoc s c :
  is_sep c = false ->
  split (s +++ String c "") = removelast (split s) ++ [last (split s) "" +++ String c ""].
Proof.
  intros N. induction s as [|a s IH]; simpl.
  - rewrite N. reflexivity.
  - rewrite IH. destruct (is_sep a).
    + destruct (split s) eqn:E; [destruct (split_not_nil _ E) | reflexivity].
    + destruct (split s) as [|h [|h' t]] eqn:E; [destruct (split_not_nil _ E) | |];
        reflexivity.
Qed.

Lemma split_snoc_sep s : split (s +++ "/") = split s ++ [""].
Proof. apply (split_app_sep s ""). Qed.

Lemma split_no_sep s : has_sep s = false -> split s = [s].
Proof.
  induction s as [|c s IH]; simpl; [reflexivity|].
  destruct (is_sep c); [discriminate|]. simpl. intros H. rewrite (IH H). reflexivity.
Qed.

Lemma split_components s : Forall (fun c => has_sep c = false) (split s).
Proof.
  induction s as [|c s IH]; simpl; [repeat constructor|].
  destruct (is_sep c) eqn:E; [constructor; [reflexivity | exact IH]|].
  destruct (split s) as [|h t]; [repeat constructor; simpl; rewrite E; reflexivity|].
  inversion IH; subst. constructor; [simpl; rewrite E; assumption | assumption].
Qed.

Lemma split_sep_join l :
  l <> [] -> Forall (fun c => has_sep c = false) l -> split (sep_join l) = l.
Proof.
  induction l as [|x l IH]; intros N F; [congruence|].
  inversion F; subst. destruct l as [|y l].
  - simpl. apply split_no_sep. assumption.
  - change (sep_join (x :: y :: l)) with (x +++ String sep (sep_join (y :: l))).
    rewrite split_app_sep, IH by (congruence || assumption).
    rewrite split_no_sep by assumption. reflexivity.
Qed.

Lemma snoc_inj s : forall t c d,
  s +++ String c "" = t +++ String d "" -> s = t /\ c = d.
Proof.
  induction s as [|a s IH]; intros [|b t] c d H; simpl in H.
  - injection H as ->. auto.
  - injection H as -> H. destruct t; discriminate H.
  - injection H as -> H. destruct s; discriminate H.
  - injection H as -> H. destruct (IH _ _ _ H) as [-> ->]. auto.
Qed.

Lemma snoc_not_empty s c : s +++ String c "" <> "".
Proof. destruct s; discriminate. Qed.

Lemma last_split_snoc s c :
  is_sep c = false ->
  last (split (s +++ String c "")) "" = last (split s) "" +++ String c "" /\
  removelast (split (s +++ String c "")) = removelast (split s).
Proof.
  intros N. rewrite (split_snoc _ _ N).
  rewrite last_last, removelast_last. auto.
Qed.

(** A string has no separator, or a last one. *)
Lemma last_sep_cases p :
  has_sep p = false \/
  exists a n, p = a +++ String sep n /\ has_sep n = false.
Proof.
  induction p as [|c p IH]; [left; reflexivity|].
  destruct IH as [N | [a [n [-> N]]]].
  - simpl. destruct (is_sep c) eqn:E.
    + right. exists "", p. apply Ascii.eqb_eq in E. subst c. auto.
    + left. exact N.
  - right. exists (String c a), n. auto.
Qed.

Lemma snoc_ind (P : string -> Prop) :
  P "" -> (forall s c, P s -> P (s +++ String c "")) -> forall s, P s.
Proof.
  intros H0 Hs s. remember (String.length s) as n eqn:E. revert s E.
  induction n as [|n IH]; intros s E.
  - destruct s; [exact H0 | discriminate E].
  - destruct (snoc_cases s) as [-> | [s' [c ->]]]; [exact H0|].
    apply Hs, IH. rewrite length_append in E. simpl in E. lia.
Qed.

Lemma rstrip_sep_snoc_sep s : rstrip_sep (s +++ "/") = rstrip_sep s.
Proof.
  induction s as [|c s IH]; [reflexivity|].
  simpl. rewrite IH. reflexivity.
Qed.

Lemma rstrip_sep_snoc_other s c :
  is_sep c = false -> rstrip_sep (s +++ String c "") = s +++ String c "".
Proof.
  intros N. induction s as [|a s IH]; simpl; [rewrite N; reflexivity|].
  rewrite IH. destruct (s +++ String c "") eqn:E; [|reflexivity].
  destruct (snoc_not_empty _ _ E).
Qed.

Lemma rstrip_sep_empty s : rstrip_sep s = "" -> all_sep s = true.
Proof.
  induction s as [|c s IH]; [reflexivity|]. simpl.
  destruct (rstrip_sep s); [|discriminate].
  destruct (is_sep c); [intros _; apply IH; reflexivity | discriminate].
Qed.

Lemma rstrip_sep_first s :
  all_sep s = false -> startswith (rstrip_sep s) "/" = startswith s "/".
Proof.
  destruct s as [|c s]; [discriminate|]. intros A. cbn [rstrip_sep].
  destruct (rstrip_sep s) eqn:R.
  - destruct (is_sep c) eqn:E.
    + cbn [all_sep] in A. rewrite E, (rstrip_sep_empty _ R) in A. discriminate.
    + rewrite !startswith_sep_cons. reflexivity.
  - rewrite !startswith_sep_cons. reflexivity.
Qed.

End StrFacts.

(* ================================================================== *)
(** ** Facts about posixpath *)

Module PathFacts.

Import Str PosixPath StrFacts.

Lemma is_name_inv c :
  is_name c = true ->
  has_sep c = false /\ String.eqb c "" = false /\
  String.eqb c "." = false /\ String.eqb c ".." = false.
Proof.
  unfold is_name, is_comp. intros H.
  apply andb_prop in H. destruct H as [H H3].
  apply andb_prop in H. destruct H as [H H2].
  apply andb_prop in H. destruct H as [H0 H1].
  apply negb_true_iff in H0, H1, H2, H3.
  repeat split; trivial. destruct c; [discriminate | reflexivity].
Qed.

Lemma Forall_removelast {A} (P : A -> Prop) l :
  Forall P l -> Forall P (removelast l).
Proof.
  induction 1 as [|x l Hx Hl IH]; simpl; [constructor|].
  destruct l; [constructor|]. constructor; assumption.
Qed.

Lemma norm_loop_app k xs : forall ys acc,
  norm_loop k (xs ++ ys) acc = norm_loop k ys (norm_loop k xs acc).
Proof.
  induction xs as [|c xs IH]; intros ys acc; simpl; [reflexivity|].
  repeat match goal with |- context [if ?b then _ else _] => destruct b end;
    apply IH.
Qed.

(** Names are appended. *)
Lemma norm_loop_names k comps : forall acc,
  Forall (fun c => is_name c = true) comps ->
  norm_loop k comps acc = acc ++ comps.
Proof.
  induction comps as [|c comps IH]; intros acc F; simpl;
    [symmetry; apply app_nil_r|].
  inversion F as [|? ? Hc F']; subst.
  destruct (is_name_inv _ Hc) as [_ [E0 [E1 E2]]].
  rewrite E0, E1, E2. simpl.
  rewrite IH by assumption. rewrite <- app_assoc. reflexivity.
Qed.

Lemma last_name acc :
  Forall (fun c => is_name c = true) acc -> acc <> [] ->
  String.eqb (last acc "") ".." = false.
Proof.
  intros F N. destruct (@exists_last _ acc N) as [l [a ->]].
  rewrite last_last. apply Forall_app in F. destruct F as [_ F].
  inversion F; subst. apply is_name_inv. assumption.
Qed.

Lemma norm_loop_cons_pardir k rest acc :
  norm_loop (S k) (pardir :: rest) acc =
  if is_nil acc then norm_loop (S k) rest acc
  else if String.eqb (last acc "") ".." then norm_loop (S k) rest (acc ++ [pardir])
       else norm_loop (S k) rest (removelast acc).
Proof. destruct acc; reflexivity. Qed.

(** In an absolute path each [..] removes the name before it, if any. *)
Lemma norm_loop_pardirs k n : forall acc,
  Forall (fun c => is_name c = true) acc ->
  norm_loop (S k) (repeat pardir n) acc = firstn (List.length acc - n) acc.
Proof.
  induction n as [|n IH]; intros acc F.
  - simpl. rewrite Nat.sub_0_r. symmetry. apply firstn_all.
  - cbn [repeat]. rewrite norm_loop_cons_pardir.
    destruct acc as [|a acc0];
      [simpl; rewrite IH by exact F; rewrite !firstn_nil; reflexivity|].
    assert (N : a :: acc0 <> []) by discriminate.
    change (is_nil (a :: acc0)) with false. cbn iota.
    rewrite (last_name _ F N).
    destruct (exists_last N) as [l [b E]]. rewrite E in *. rewrite removelast_last.
    rewrite IH by (apply Forall_app in F; tauto).
    rewrite length_app. simpl List.length.
    replace (List.length l + 1 - S n) with (List.length l - n) by lia.
    rewrite firstn_app.
    replace (List.length l - n - List.length l) with 0 by lia.
    simpl. rewrite app_nil_r. reflexivity.
Qed.

(** Normalizing an absolute path leaves names only. *)
Lemma norm_loop_abs_names k comps : forall acc,
  Forall (fun c => has_sep c = false) comps ->
  Forall (fun c => is_name c = true) acc ->
  Forall (fun c => is_name c = true) (norm_loop (S k) comps acc).
Proof.
  induction comps as [|c comps IH]; intros acc F A; simpl; [exact A|].
  inversion F as [|? ? Hc F']; subst.
  destruct (String.eqb c "" || String.eqb c ".") eqn:E0; [apply IH; assumption|].
  apply orb_false_iff in E0. destruct E0 as [E0 E1].
  destruct (String.eqb c "..") eqn:E2; simpl.
  - destruct acc as [|a acc]; [apply IH; assumption|].
    change (is_nil (a :: acc)) with false. cbn [negb andb].
    rewrite (last_name (a :: acc) A) by discriminate.
    apply IH; [assumption | apply Forall_removelast; exact A].
  - apply IH; [assumption|]. apply Forall_app. split; [exact A|].
    constructor; [|constructor].
    unfold is_name, is_comp. rewrite Hc, E1, E2.
    destruct c; [discriminate E0 | reflexivity].
Qed.

Lemma norm_loop_S k comps : forall acc,
  norm_loop (S k) comps acc = norm_loop 1 comps acc.
Proof.
  induction comps as [|c comps IH]; intros acc; simpl; [reflexivity|].
  repeat match goal with |- context [if ?b then _ else _] => destruct b end;
    apply IH.
Qed.

Lemma norm_loop_skip k acc : norm_loop k [""] acc = acc.
Proof. reflexivity. Qed.

(** Normalization does not see whether components came from one string
    or were joined. *)
Lemma norm_join k a b acc :
  isabs b = false ->
  norm_loop k (split (join a b)) acc = norm_loop k (split a ++ split b) acc.
Proof.
  unfold join, isabs. intros ->.
  destruct (is_empty a) eqn:Ea.
  - apply is_empty_true in Ea. subst a. reflexivity.
  - simpl. destruct (endswith a "/") eqn:Es.
    + destruct (endswith_sep _ Es) as [a' ->].
      rewrite append_assoc. change ("/" +++ b) with (String sep b).
      rewrite split_app_sep, split_snoc_sep.
      rewrite !norm_loop_app. reflexivity.
    + change ("/" +++ b) with (String sep b). rewrite split_app_sep. reflexivity.
Qed.

Lemma isabs_cons c s : isabs (String c s) = is_sep c.
Proof. apply startswith_sep_cons. Qed.

Lemma is_sep_true c : is_sep c = true -> c = sep.
Proof. apply Ascii.eqb_eq. Qed.

Lemma join_relative a b :
  isabs b = false -> exists m, join a b = a +++ m +++ b.
Proof.
  unfold join, isabs. intros ->.
  destruct (is_empty a || endswith a "/"); [exists "" | exists "/"]; reflexivity.
Qed.

Lemma split_slashes n s : split (slashes n +++ s) = repeat "" n ++ split s.
Proof.
  induction n as [|n IH]; simpl; [reflexivity|].
  rewrite IH. reflexivity.
Qed.

Lemma filter_nonempty_repeat n l :
  filter (fun x => negb (is_empty x)) (repeat "" n ++ l)
  = filter (fun x => negb (is_empty x)) l.
Proof. induction n as [|n IH]; simpl; [reflexivity | exact IH]. Qed.

Lemma filter_nonempty_names l :
  Forall (fun c => is_name c = true) l ->
  filter (fun x => negb (is_empty x)) l = l.
Proof.
  induction 1 as [|x l Hx Hl IH]; simpl; [reflexivity|].
  rewrite IH. destruct x; [discriminate Hx | reflexivity].
Qed.

Lemma names_no_sep l :
  Forall (fun c => is_name c = true) l -> Forall (fun c => has_sep c = false) l.
Proof.
  apply Forall_impl. intros c H. apply is_name_inv in H. tauto.
Qed.

(** The components of [abspath(p)] are the normalized components of
    [p], after those of the working directory when [p] is relative. *)
Lemma abs_parts_eq cwd p : abs_parts cwd p = norm_loop 1 (abs_comps cwd p) [].
Proof.
  unfold abs_parts, abspath, abs_comps.
  set (X := if isabs p then p else join (getcwd cwd) p).
  assert (HX : exists X', X = String sep X').
  { unfold X. destruct (isabs p) eqn:A.
    - destruct p as [|c p']; [discriminate|]. rewrite isabs_cons in A.
      apply is_sep_true in A. subst c. eauto.
    - destruct (join_relative (getcwd cwd) p A) as [m ->]. unfold getcwd. simpl. eauto. }
  assert (HN : norm_loop 1 (split X) []
               = norm_loop 1 (if isabs p then split p
                              else split (getcwd cwd) ++ split p) []).
  { unfold X. destruct (isabs p) eqn:A; [reflexivity | apply norm_join; exact A]. }
  rewrite <- HN. clearbody X. destruct HX as [X' ->].
  unfold normpath. cbn [is_empty].
  assert (HI : exists k, initial_slashes (String sep X') = S k).
  { unfold initial_slashes. rewrite startswith_sep_cons. unfold is_sep.
    rewrite Ascii.eqb_refl.
    destruct (startswith _ "//" && negb (startswith _ "///")); eauto. }
  destruct HI as [k ->].
  set (comps := norm_loop (S k) (split (String sep X')) []).
  assert (HC : Forall (fun c => is_name c = true) comps).
  { apply norm_loop_abs_names; [apply split_components | constructor]. }
  cbn [slashes append is_empty].
  change (String sep (slashes k +++ sep_join comps))
    with (slashes (S k) +++ sep_join comps).
  rewrite split_slashes, filter_nonempty_repeat.
  rewrite <- (norm_loop_S k). fold comps.
  destruct comps as [|c comps'] eqn:E; [reflexivity|].
  rewrite split_sep_join by (discriminate || apply names_no_sep; exact HC).
  apply filter_nonempty_names. exact HC.
Qed.

Lemma abs_parts_names cwd p : Forall (fun c => is_name c = true) (abs_parts cwd p).
Proof.
  rewrite abs_parts_eq. apply norm_loop_abs_names; [|constructor].
  unfold abs_comps. destruct (isabs p); [apply split_components|].
  apply Forall_app. split; apply split_components.
Qed.

Lemma common_prefix_firstn l1 : forall l2,
  firstn (common_prefix_len l1 l2) l1 = firstn (common_prefix_len l1 l2) l2 /\
  common_prefix_len l1 l2 <= List.length l1.
Proof.
  induction l1 as [|x l1 IH]; intros [|y l2]; simpl; try (split; [reflexivity | lia]).
  destruct (String.eqb x y) eqn:E; simpl; [|split; [reflexivity | lia]].
  apply String.eqb_eq in E. subst y. destruct (IH l2) as [H1 H2].
  rewrite H1. split; [reflexivity | lia].
Qed.

Lemma has_sep_append s t : has_sep (s +++ t) = has_sep s || has_sep t.
Proof.
  induction s as [|c s IH]; simpl; [reflexivity|].
  rewrite IH. apply orb_assoc.
Qed.

Lemma is_comp_inv z : is_comp z = true -> is_empty z = false /\ has_sep z = false.
Proof.
  unfold is_comp. intros H. apply andb_prop in H. destruct H as [H1 H2].
  apply negb_true_iff in H1, H2. auto.
Qed.

Lemma is_name_comp z : is_name z = true -> is_comp z = true.
Proof.
  unfold is_name. intros H. apply andb_prop in H. destruct H as [H _].
  apply andb_prop in H. tauto.
Qed.

Lemma comp_relative z : is_comp z = true -> isabs z = false.
Proof.
  intros H. apply is_comp_inv in H. destruct H as [H1 H2].
  destruct z as [|c z]; [discriminate|]. rewrite isabs_cons.
  simpl in H2. apply orb_false_iff in H2. tauto.
Qed.

Lemma endswith_append_comp s z : is_comp z = true -> endswith (s +++ z) "/" = false.
Proof.
  intros H. apply is_comp_inv in H. destruct H as [H1 H2].
  destruct (snoc_cases z) as [-> | [z' [c ->]]]; [discriminate|].
  rewrite has_sep_append in H2. apply orb_false_iff in H2. destruct H2 as [_ H2].
  simpl in H2. rewrite orb_false_r in H2.
  rewrite <- append_assoc, endswith_snoc. exact H2.
Qed.

Lemma sep_join_snoc l y :
  l <> [] -> sep_join (l ++ [y]) = sep_join l +++ String sep y.
Proof.
  induction l as [|x l IH]; intros N; [congruence|].
  destruct l as [|x' l]; [reflexivity|].
  change (sep_join ((x :: x' :: l) ++ [y]))
    with (x +++ String sep (sep_join ((x' :: l) ++ [y]))).
  rewrite IH by discriminate.
  change (sep_join (x :: x' :: l)) with (x +++ String sep (sep_join (x' :: l))).
  rewrite append_assoc. reflexivity.
Qed.

Lemma sep_join_ends l :
  l <> [] -> Forall (fun c => is_comp c = true) l ->
  exists pre z, sep_join l = pre +++ z /\ is_comp z = true.
Proof.
  intros N F. destruct (exists_last N) as [l' [z ->]].
  apply Forall_app in F. destruct F as [_ F]. inversion F; subst.
  destruct l' as [|x l'].
  - exists "", z. auto.
  - rewrite sep_join_snoc by discriminate.
    exists (sep_join (x :: l') +++ "/"), z. rewrite append_assoc. auto.
Qed.

Lemma sep_join_first x rest :
  is_comp x = true ->
  is_empty (sep_join (x :: rest)) = false /\ isabs (sep_join (x :: rest)) = false.
Proof.
  intros H. pose proof (comp_relative _ H) as R.
  apply is_comp_inv in H. destruct H as [H _].
  destruct x as [|c x]; [discriminate|].
  rewrite isabs_cons in R.
  destruct rest; simpl; rewrite ?isabs_cons; auto.
Qed.

(** Joining components one by one puts a separator between them. *)
Lemma join_all_sep_join rest : forall l,
  l <> [] ->
  Forall (fun c => is_comp c = true) l ->
  Forall (fun c => is_comp c = true) rest ->
  fold_left join rest (sep_join l) = sep_join (l ++ rest).
Proof.
  induction rest as [|y rest IH]; intros l N F G; simpl.
  - rewrite app_nil_r. reflexivity.
  - inversion G as [|? ? Hy G']; subst.
    assert (J : join (sep_join l) y = sep_join (l ++ [y])).
    { rewrite sep_join_snoc by exact N. unfold join.
      fold (isabs y). rewrite (comp_relative _ Hy).
      destruct l as [|x l]; [congruence|]. inversion F; subst.
      destruct (sep_join_first x l) as [E _]; [assumption|]. rewrite E.
      destruct (sep_join_ends (x :: l) N F) as [pre [z [-> Z]]].
      rewrite (endswith_append_comp _ _ Z). reflexivity. }
    rewrite J, IH.
    + rewrite <- app_assoc. reflexivity.
    + destruct l; discriminate.
    + apply Forall_app. split; [exact F | repeat constructor; exact Hy].
    + exact G'.
Qed.

Lemma isabs_join_relative a b :
  isabs b = false -> isabs (join a b) = isabs a || false.
Proof.
  intros B. destruct (join_relative a b B) as [m E].
  destruct a as [|c a].
  - unfold join in *. fold (isabs b). rewrite B. simpl. exact B.
  - rewrite E. simpl. rewrite !isabs_cons. rewrite orb_false_r. reflexivity.
Qed.

Lemma repeat_nil {A} (x : A) n : repeat x n = [] -> n = 0.
Proof. destruct n; [reflexivity | discriminate]. Qed.

(** Normalizing [start] joined with a relative path continues the
    normalization of [start]. *)
Lemma abs_parts_join cwd start tgt :
  isabs tgt = false ->
  abs_parts cwd (join start tgt) = norm_loop 1 (split tgt) (abs_parts cwd start).
Proof.
  intros T. rewrite !abs_parts_eq. unfold abs_comps.
  rewrite (isabs_join_relative _ _ T), orb_false_r.
  destruct (isabs start).
  - rewrite norm_join by exact T. apply norm_loop_app.
  - rewrite !norm_loop_app. rewrite norm_join by exact T. apply norm_loop_app.
Qed.

(** The components of the path [relpath] returns. *)
Lemma relpath_comps cwd path start tgt :
  relpath cwd path start = Some tgt ->
  isabs tgt = false /\ is_empty tgt = false /\
  (split tgt = [curdir] /\ abs_parts cwd start = abs_parts cwd path \/
   split tgt = repeat pardir (List.length (abs_parts cwd start)
                              - common_prefix_len (abs_parts cwd start) (abs_parts cwd path))
               ++ skipn (common_prefix_len (abs_parts cwd start) (abs_parts cwd path))
                        (abs_parts cwd path) /\
   split tgt <> []).
Proof.
  unfold relpath. destruct (is_empty path); [discriminate|]. intros [= <-].
  unfold relpath_body.
  set (S := abs_parts cwd start). set (P := abs_parts cwd path).
  pose proof (abs_parts_names cwd path) as HP. fold P in HP.
  destruct (common_prefix_firstn S P) as [Hi Hle].
  set (i := common_prefix_len S P) in *.
  assert (HSk : Forall (fun c => is_name c = true) (skipn i P)).
  { rewrite <- (firstn_skipn i P) in HP. apply Forall_app in HP. tauto. }
  assert (HR : Forall (fun c => is_comp c = true)
                 (repeat pardir (List.length S - i) ++ skipn i P)).
  { apply Forall_app. split.
    - apply Forall_forall. intros x Hx. apply repeat_spec in Hx. subst x. reflexivity.
    - revert HSk. apply Forall_impl. exact is_name_comp. }
  destruct (repeat pardir (List.length S - i) ++ skipn i P) as [|x rest] eqn:E.
  - repeat split. left. split; [reflexivity|].
    apply app_eq_nil in E. destruct E as [E1 E2].
    apply repeat_nil in E1.
    rewrite <- (firstn_skipn i P), E2, app_nil_r, <- Hi.
    symmetry. apply firstn_all2. lia.
  - inversion HR as [|? ? Hx Hrest]; subst.
    change (join_all x rest) with (fold_left join rest (sep_join [x])).
    rewrite join_all_sep_join; [|discriminate|repeat constructor; exact Hx|exact Hrest].
    simpl app. destruct (sep_join_first x rest Hx) as [E1 E2].
    repeat split; trivial. right.
    rewrite split_sep_join; [split; [reflexivity | discriminate] | discriminate |].
    revert HR. apply Forall_impl. intros c Hc. apply is_comp_inv in Hc. tauto.
Qed.

(** The path [relpath] returns is relative, and joined to [start] it
    has the components of [path]. *)
Lemma relpath_roundtrip cwd path start tgt :
  relpath cwd path start = Some tgt ->
  isabs tgt = false /\ abs_parts cwd (join start tgt) = abs_parts cwd path.
Proof.
  unfold relpath. destruct (is_empty path); [discriminate|]. intros [= <-].
  unfold relpath_body.
  set (S := abs_parts cwd start). set (P := abs_parts cwd path).
  pose proof (abs_parts_names cwd start) as HS. fold S in HS.
  pose proof (abs_parts_names cwd path) as HP. fold P in HP.
  destruct (common_prefix_firstn S P) as [Hi Hle].
  set (i := common_prefix_len S P) in *.
  assert (HSk : Forall (fun c => is_name c = true) (skipn i P)).
  { rewrite <- (firstn_skipn i P) in HP. apply Forall_app in HP. tauto. }
  assert (HR : Forall (fun c => is_comp c = true)
                 (repeat pardir (List.length S - i) ++ skipn i P)).
  { apply Forall_app. split.
    - apply Forall_forall. intros x Hx. apply repeat_spec in Hx. subst x. reflexivity.
    - revert HSk. apply Forall_impl. exact is_name_comp. }
  assert (HT : norm_loop 1 (repeat pardir (List.length S - i) ++ skipn i P) S = P).
  { rewrite norm_loop_app, norm_loop_pardirs by exact HS.
    rewrite norm_loop_names by exact HSk.
    replace (List.length S - (List.length S - i)) with i by lia.
    rewrite Hi. apply firstn_skipn. }
  destruct (repeat pardir (List.length S - i) ++ skipn i P) as [|x rest] eqn:E.
  - split; [reflexivity|]. rewrite abs_parts_join by reflexivity.
    fold S. exact HT.
  - inversion HR as [|? ? Hx Hrest]; subst.
    change (join_all x rest) with (fold_left join rest (sep_join [x])).
    rewrite join_all_sep_join; [|discriminate|repeat constructor; exact Hx|exact Hrest].
    simpl app. split; [apply sep_join_first; exact Hx|].
    rewrite abs_parts_join by (apply sep_join_first; exact Hx).
    rewrite split_sep_join; [exact HT | discriminate |].
    revert HR. apply Forall_impl. intros c Hc. apply is_comp_inv in Hc. tauto.
Qed.

(** Names joined to a path are appended to its components. *)
Lemma abs_parts_join_names cwd names : forall top,
  Forall (fun c => is_name c = true) names ->
  abs_parts cwd (fold_left join names top) = abs_parts cwd top ++ names.
Proof.
  induction names as [|n names IH]; intros top F; simpl;
    [symmetry; apply app_nil_r|].
  inversion F as [|? ? Hn F']; subst.
  rewrite IH by assumption.
  rewrite abs_parts_join by (apply comp_relative, is_name_comp, Hn).
  rewrite split_no_sep by (apply is_name_inv in Hn; tauto).
  rewrite norm_loop_names by (repeat constructor; exact Hn).
  rewrite <- app_assoc. reflexivity.
Qed.

Lemma rfind_no_sep n : has_sep n = false -> rfind_sep_succ n = 0.
Proof.
  induction n as [|c n IH]; [reflexivity|]. simpl.
  destruct (is_sep c); [discriminate|]. simpl. intros H. rewrite (IH H). reflexivity.
Qed.

Lemma rfind_app a n :
  has_sep n = false -> rfind_sep_succ (a +++ String sep n) = S (String.length a).
Proof.
  intros N. induction a as [|c a IH]; simpl.
  - rewrite (rfind_no_sep _ N). reflexivity.
  - rewrite IH. reflexivity.
Qed.

Lemma dirname_no_sep n : has_sep n = false -> dirname n = "".
Proof.
  intros N. unfold dirname. rewrite (rfind_no_sep _ N).
  destruct n; reflexivity.
Qed.

(** [dirname] of a path with a last separator. *)
Lemma dirname_app a n :
  has_sep n = false ->
  dirname (a +++ String sep n)
  = if all_sep (a +++ "/") then a +++ "/" else rstrip_sep (a +++ "/").
Proof.
  intros N. unfold dirname. rewrite (rfind_app _ _ N).
  assert (E : substring 0 (S (String.length a)) (a +++ String sep n) = a +++ "/").
  { change (String sep n) with ("/" +++ n). rewrite <- append_assoc.
    replace (S (String.length a)) with (String.length (a +++ "/"))
      by (rewrite length_append; simpl; lia).
    apply substring_prefix. }
  rewrite E. rewrite is_empty_append. cbn [is_empty andb negb].
  rewrite andb_false_r. cbn [negb andb].
  destruct (all_sep (a +++ "/")); reflexivity.
Qed.

(** Trailing separators do not count in the normalization. *)
Lemma norm_loop_rstrip_sep k s : forall acc,
  norm_loop k (split (rstrip_sep s)) acc = norm_loop k (split s) acc.
Proof.
  induction s as [|s c IH] using snoc_ind; intros acc; [reflexivity|].
  destruct (is_sep c) eqn:E.
  - apply is_sep_true in E. subst c. change (String sep "") with "/".
    rewrite rstrip_sep_snoc_sep, split_snoc_sep, norm_loop_app, IH. reflexivity.
  - rewrite rstrip_sep_snoc_other by exact E. reflexivity.
Qed.

(** The components of the directory of a path that ends with a name
    are those of the path without the name. *)
Lemma abs_parts_dirname cwd p :
  is_name (last (split p) "") = true ->
  abs_parts cwd (dirname p) = removelast (abs_parts cwd p) /\
  abs_parts cwd p = removelast (abs_parts cwd p) ++ [last (split p) ""].
Proof.
  intros N. rewrite !abs_parts_eq. unfold abs_comps.
  destruct (last_sep_cases p) as [Hp | [a [n [-> Hn]]]].
  - rewrite (split_no_sep _ Hp) in *. simpl in N.
    rewrite (dirname_no_sep _ Hp).
    rewrite (comp_relative _ (is_name_comp _ N)).
    change (isabs "") with false. cbn iota.
    rewrite !norm_loop_app. change (split "") with [""]. rewrite norm_loop_skip.
    rewrite (norm_loop_names 1 [p]) by (repeat constructor; exact N).
    rewrite removelast_last. auto.
  - rewrite split_app_sep in *. rewrite (split_no_sep _ Hn) in *.
    rewrite last_last in N. rewrite last_last.
    rewrite (dirname_app _ _ Hn).
    set (h := a +++ "/").
    assert (Ih : isabs (a +++ String sep n) = isabs h).
    { unfold isabs, h. change (String sep n) with ("/" +++ n).
      rewrite <- append_assoc. apply startswith_sep_append.
      destruct a; discriminate. }
    assert (Sh : forall acc, norm_loop 1 (split h) acc = norm_loop 1 (split a) acc).
    { intros acc. unfold h. rewrite split_snoc_sep, norm_loop_app. reflexivity. }
    set (D := if all_sep h then h else rstrip_sep h).
    assert (Id : isabs D = isabs h).
    { unfold D. destruct (all_sep h) eqn:A; [reflexivity|].
      apply rstrip_sep_first. exact A. }
    assert (Sd : forall acc, norm_loop 1 (split D) acc = norm_loop 1 (split a) acc).
    { intros acc. unfold D. destruct (all_sep h); [apply Sh|].
      rewrite norm_loop_rstrip_sep. apply Sh. }
    rewrite Id, Ih.
    destruct (isabs h).
    + rewrite Sd, norm_loop_app.
      rewrite (norm_loop_names 1 [n]) by (repeat constructor; exact N).
      rewrite removelast_last. auto.
    + rewrite !norm_loop_app, Sd.
      rewrite (norm_loop_names 1 [n]) by (repeat constructor; exact N).
      rewrite removelast_last. auto.
Qed.

(** The components of a path that ends with a name, by those before
    the name. *)
Lemma abs_parts_init cwd p xs n :
  split p = xs ++ [n] -> is_name n = true ->
  abs_parts cwd p
  = norm_loop 1 (if isabs p then xs else split (getcwd cwd) ++ xs) [] ++ [n].
Proof.
  intros E N. rewrite abs_parts_eq. unfold abs_comps. rewrite E.
  destruct (isabs p); rewrite ?app_assoc, norm_loop_app;
    apply norm_loop_names; repeat constructor; exact N.
Qed.

Lemma is_name_snoc n c :
  is_name n = true -> is_sep c = false -> is_name (n +++ String c "") = true.
Proof.
  intros N C. destruct (is_name_inv _ N) as [H [E0 [E1 E2]]].
  assert (X : String.eqb (n +++ String c "") "." = false).
  { apply String.eqb_neq. intros E.
    change "." with ("" +++ String "."%char "") in E.
    apply snoc_inj in E. destruct E as [-> _]. discriminate E0. }
  assert (Y : String.eqb (n +++ String c "") ".." = false).
  { apply String.eqb_neq. intros E.
    change ".." with ("." +++ String "."%char "") in E.
    apply snoc_inj in E. destruct E as [-> _]. discriminate E1. }
  unfold is_name, is_comp. rewrite X, Y, has_sep_append, H, is_empty_append.
  cbn [has_sep]. rewrite C. destruct n; [discriminate E0 | reflexivity].
Qed.

End PathFacts.

(* ================================================================== *)
(** ** Facts about the file-system tree *)

Module FSFacts.

Import Str PosixPath FS StrFacts PathFacts.

Lemma lookup_app t p q :
  lookup t (p ++ q) = match lookup t p with
                      | Some m => lookup m q
                      | None => None
                      end.
Proof.
  revert t. induction p as [|c p IH]; intros t; simpl; [reflexivity|].
  destruct t; try reflexivity.
  destruct (find_entry c entries); [apply IH | reflexivity].
Qed.

Lemma kind_at_parent t p c k :
  kind_at t (p ++ [c]) = Some k -> kind_at t p = Some KDir.
Proof.
  unfold kind_at. rewrite lookup_app.
  destruct (lookup t p) as [m|]; [|discriminate].
  destruct m; simpl; try discriminate. reflexivity.
Qed.

Lemma kind_at_removelast t cur :
  kind_at t cur = Some KDir -> kind_at t (removelast cur) = Some KDir.
Proof.
  intros H. destruct cur as [|c0 cur]; [exact H|].
  destruct (@exists_last _ (c0 :: cur)) as [p [c E]]; [discriminate|].
  rewrite E in *. rewrite removelast_last. eauto using kind_at_parent.
Qed.

Lemma find_entry_app c es es' :
  find_entry c (es ++ es') = match find_entry c es with
                             | Some m => Some m
                             | None => find_entry c es'
                             end.
Proof.
  induction es as [|[n x] es IH]; simpl; [reflexivity|].
  destruct (String.eqb n c); [reflexivity | exact IH].
Qed.

Lemma find_entry_map_entry_same c f es :
  find_entry c (map_entry c f es) = option_map f (find_entry c es).
Proof.
  induction es as [|[n x] es IH]; simpl; [reflexivity|].
  destruct (String.eqb n c) eqn:E; simpl; rewrite E; [reflexivity | exact IH].
Qed.

Lemma find_entry_map_entry_other c c' f es :
  c' <> c -> find_entry c' (map_entry c f es) = find_entry c' es.
Proof.
  intros N. induction es as [|[n x] es IH]; simpl; [reflexivity|].
  destruct (String.eqb n c) eqn:E; simpl.
  - apply String.eqb_eq in E. subst n.
    destruct (String.eqb c c') eqn:E'; [|reflexivity].
    apply String.eqb_eq in E'. congruence.
  - destruct (String.eqb n c'); [reflexivity | exact IH].
Qed.

Lemma find_entry_remove_same c es : find_entry c (remove_entry c es) = None.
Proof.
  induction es as [|[n x] es IH]; simpl; [reflexivity|].
  destruct (String.eqb n c) eqn:E; simpl; [exact IH|].
  rewrite E. exact IH.
Qed.

Lemma find_entry_remove_other c c' es :
  c' <> c -> find_entry c' (remove_entry c es) = find_entry c' es.
Proof.
  intros N. induction es as [|[n x] es IH]; simpl; [reflexivity|].
  destruct (String.eqb n c) eqn:E; simpl.
  - apply String.eqb_eq in E. subst n.
    destruct (String.eqb c c') eqn:E'; [|exact IH].
    apply String.eqb_eq in E'. congruence.
  - destruct (String.eqb n c'); [reflexivity | exact IH].
Qed.

(** Creating a link at a free location changes no other location. *)
Lemma kind_at_insert_other p : forall t q g,
  q <> p -> kind_at t p = None ->
  kind_at (insert_at t p (Symlink g)) q = kind_at t q.
Proof.
  induction p as [|c p IH]; intros t q g N F.
  - discriminate F.
  - destruct t as [| |es]; try (destruct p; reflexivity).
    destruct p as [|c1 p1].
    + simpl. destruct q as [|c' q']; [reflexivity|].
      unfold kind_at in *. simpl in *. rewrite find_entry_app.
      destruct (find_entry c' es) as [m|] eqn:E'; [reflexivity|].
      simpl. destruct (String.eqb c c') eqn:Ec; [|reflexivity].
      apply String.eqb_eq in Ec. subst c'.
      destruct q'; [congruence | reflexivity].
    + change (insert_at (Dir es) (c :: c1 :: p1) (Symlink g))
        with (Dir (map_entry c (fun m => insert_at m (c1 :: p1) (Symlink g)) es)).
      destruct q as [|c' q']; [reflexivity|].
      unfold kind_at in *. simpl lookup at 1 2.
      destruct (string_dec c' c) as [->|Nc].
      * rewrite find_entry_map_entry_same.
        simpl in F. destruct (find_entry c es) as [m|] eqn:E; [|reflexivity].
        simpl. apply (IH m q' g); [congruence | exact F].
      * rewrite find_entry_map_entry_other by exact Nc. reflexivity.
Qed.

(** The link is at the location it was created at. *)
Lemma kind_at_insert_same parent : forall t name new,
  kind_at t parent = Some KDir ->
  kind_at t (parent ++ [name]) = None ->
  kind_at (insert_at t (parent ++ [name]) new) (parent ++ [name]) = Some (kind_of new).
Proof.
  induction parent as [|c p IH]; intros t name new D F.
  - destruct t as [| |es]; try discriminate D.
    unfold kind_at in *. simpl in *. rewrite find_entry_app.
    destruct (find_entry name es); [discriminate F|].
    simpl. rewrite String.eqb_refl. reflexivity.
  - destruct t as [| |es]; try discriminate D.
    assert (E : insert_at (Dir es) ((c :: p) ++ [name]) new
                = Dir (map_entry c (fun m => insert_at m (p ++ [name]) new) es)).
    { simpl. destruct (p ++ [name]) eqn:Ep; [|reflexivity].
      destruct p; discriminate Ep. }
    rewrite E. unfold kind_at in *. simpl in *.
    rewrite find_entry_map_entry_same.
    destruct (find_entry c es) as [m|]; [|discriminate D].
    simpl. apply IH; assumption.
Qed.

(** Removing a file or a link changes no other location. *)
Lemma kind_at_remove_other p : forall t q k,
  q <> p -> kind_at t p = Some k -> k <> KDir ->
  kind_at (remove_at t p) q = kind_at t q.
Proof.
  induction p as [|c p IH]; intros t q k N F K.
  - reflexivity.
  - destruct t as [| |es]; try (destruct p; reflexivity).
    destruct p as [|c1 p1].
    + simpl. destruct q as [|c' q']; [reflexivity|].
      unfold kind_at in *. simpl in *.
      destruct (string_dec c' c) as [->|Nc].
      * rewrite find_entry_remove_same.
        destruct (find_entry c es) as [m|]; [|reflexivity].
        destruct q'; [congruence|].
        destruct m; simpl in *; try reflexivity. congruence.
      * rewrite find_entry_remove_other by exact Nc. reflexivity.
    + change (remove_at (Dir es) (c :: c1 :: p1))
        with (Dir (map_entry c (fun m => remove_at m (c1 :: p1)) es)).
      destruct q as [|c' q']; [reflexivity|].
      unfold kind_at in *. simpl lookup at 1 2.
      destruct (string_dec c' c) as [->|Nc].
      * rewrite find_entry_map_entry_same.
        simpl in F. destruct (find_entry c es) as [m|] eqn:E; [|reflexivity].
        simpl. apply (IH m q' k); [congruence | exact F | exact K].
      * rewrite find_entry_map_entry_other by exact Nc. reflexivity.
Qed.

Lemma kind_at_remove_same parent : forall t name,
  kind_at (remove_at t (parent ++ [name])) (parent ++ [name]) = None.
Proof.
  induction parent as [|c p IH]; intros t name.
  - destruct t as [| |es]; try reflexivity.
    unfold kind_at. simpl. rewrite find_entry_remove_same. reflexivity.
  - destruct t as [| |es]; try (simpl; destruct (p ++ [name]); reflexivity).
    assert (E : remove_at (Dir es) ((c :: p) ++ [name])
                = Dir (map_entry c (fun m => remove_at m (p ++ [name])) es)).
    { simpl. destruct (p ++ [name]) eqn:Ep; [|reflexivity].
      destruct p; discriminate Ep. }
    rewrite E. unfold kind_at in *. simpl.
    rewrite find_entry_map_entry_same.
    destruct (find_entry c es) as [m|]; [|reflexivity].
    simpl. apply IH.
Qed.

Lemma walk_from_nil d t cur used : walk_from d t cur [] used = Ok (cur, used).
Proof. destruct d; reflexivity. Qed.

Lemma walk_from_cons d t cur c rest used :
  walk_from d t cur (c :: rest) used =
  match kind_at t cur with
  | Some KDir =>
      if String.eqb c "" || String.eqb c "." then walk_from d t cur rest used
      else if String.eqb c ".." then walk_from d t (removelast cur) rest used
      else
        match kind_at t (cur ++ [c]) with
        | None => Err ENOENT
        | Some (KSymlink target) =>
            match d with
            | 0 => Err ELOOP
            | S d' =>
                if Nat.leb MAXSYMLINKS used then Err ELOOP
                else if is_empty target then Err ENOENT
                else
                  match walk_from d' t (if isabs target then [] else cur)
                                  (split target) (S used) with
                  | Ok (p, used') => walk_from d t p rest used'
                  | Err e => Err e
                  end
            end
        | Some _ => walk_from d t (cur ++ [c]) rest used
        end
  | Some _ => Err ENOTDIR
  | None => Err ENOENT
  end.
Proof. destruct d; reflexivity. Qed.

(** Resolution along a concatenation resolves the first part, then the
    second from where the first arrived. *)
Lemma walk_from_app d t xs : forall cur ys used,
  walk_from d t cur (xs ++ ys) used =
  match walk_from d t cur xs used with
  | Ok (p, u) => walk_from d t p ys u
  | Err e => Err e
  end.
Proof.
  induction xs as [|c xs IH]; intros cur ys used.
  - rewrite walk_from_nil. reflexivity.
  - simpl app. rewrite !walk_from_cons.
    destruct (kind_at t cur) as [[| |]|]; try reflexivity.
    destruct (String.eqb c "" || String.eqb c "."); [apply IH|].
    destruct (String.eqb c ".."); [apply IH|].
    destruct (kind_at t (cur ++ [c])) as [[|target|]|]; try apply IH; try reflexivity.
    destruct d as [|d']; [reflexivity|].
    destruct (Nat.leb MAXSYMLINKS used); [reflexivity|].
    destruct (is_empty target); [reflexivity|].
    destruct (walk_from d' t _ (split target) (S used)) as [[p u]|e]; [apply IH | reflexivity].
Qed.

(** Resolution never forgets a link it followed. *)
Lemma walk_from_used_le t : forall d comps cur used p u,
  walk_from d t cur comps used = Ok (p, u) -> used <= u.
Proof.
  induction d as [|d IHd]; induction comps as [|c rest IHc];
    intros cur used p u H; rewrite ?walk_from_nil, ?walk_from_cons in H.
  1,3: injection H as _ <-; lia.
  all: destruct (kind_at t cur) as [[| |]|]; try discriminate H.
  all: destruct (String.eqb c "" || String.eqb c "."); [eapply IHc; exact H|].
  all: destruct (String.eqb c ".."); [eapply IHc; exact H|].
  all: destruct (kind_at t (cur ++ [c])) as [[|target|]|]; try discriminate H.
  all: try (eapply IHc; exact H).
  destruct (Nat.leb MAXSYMLINKS used); [discriminate H|].
  destruct (is_empty target); [discriminate H|].
  destruct (walk_from d t _ (split target) (S used)) as [[q v]|e] eqn:Et; [|discriminate H].
  apply IHd in Et. apply IHc in H. lia.
Qed.

(** The bound on the nesting of links is never what stops a
    resolution: with more nesting allowed the result is the same, the
    count of links followed deciding alone. *)
Lemma walk_from_depth t : forall d comps cur used,
  MAXSYMLINKS <= used + d ->
  walk_from d t cur comps used = walk_from (S d) t cur comps used.
Proof.
  induction d as [|d IHd]; induction comps as [|c rest IHc];
    intros cur used B; rewrite ?walk_from_nil; try reflexivity.
  all: rewrite (walk_from_cons (S _)), (walk_from_cons _ t cur c rest used).
  all: destruct (kind_at t cur) as [[| |]|]; try reflexivity.
  all: destruct (String.eqb c "" || String.eqb c "."); [apply IHc; exact B|].
  all: destruct (String.eqb c ".."); [apply IHc; exact B|].
  all: destruct (kind_at t (cur ++ [c])) as [[|target|]|]; try reflexivity.
  all: try (apply IHc; exact B).
  - replace (Nat.leb MAXSYMLINKS used) with true
      by (symmetry; apply Nat.leb_le; lia).
    reflexivity.
  - destruct (Nat.leb MAXSYMLINKS used); [reflexivity|].
    destruct (is_empty target); [reflexivity|].
    rewrite <- IHd by lia.
    destruct (walk_from d t _ (split target) (S used)) as [[q v]|e] eqn:Et;
      [|reflexivity].
    apply IHc. apply walk_from_used_le in Et. lia.
Qed.

(** A successful resolution arrives at an existing entry. *)
Lemma walk_from_exists t : forall d comps cur used p u,
  walk_from d t cur comps used = Ok (p, u) ->
  comps <> [] \/ kind_at t cur <> None ->
  kind_at t p <> None.
Proof.
  induction d as [|d IHd]; induction comps as [|c rest IHc];
    intros cur used p u H G; rewrite ?walk_from_nil, ?walk_from_cons in H.
  1,3: injection H as <- <-; destruct G as [G|G]; [congruence | exact G].
  all: destruct (kind_at t cur) as [[| |]|] eqn:Ecur; try discriminate H.
  all: destruct (String.eqb c "" || String.eqb c ".");
    [eapply IHc; [exact H | right; congruence]|].
  all: destruct (String.eqb c "..");
    [eapply IHc; [exact H | right; rewrite kind_at_removelast by exact Ecur; discriminate]|].
  all: destruct (kind_at t (cur ++ [c])) as [[|target|]|] eqn:Ec; try discriminate H.
  all: try (eapply IHc; [exact H | right; congruence]).
  destruct (Nat.leb MAXSYMLINKS used); [discriminate H|].
  destruct (is_empty target); [discriminate H|].
  destruct (walk_from d t _ (split target) (S used)) as [[q v]|e] eqn:Et; [|discriminate H].
  eapply IHc; [exact H | right].
  eapply IHd; [exact Et | left; apply split_not_nil].
Qed.

(** Resolution only reads entries: what resolves in a tree resolves
    alike in every tree that extends it. *)
Lemma walk_from_mono t t' :
  extends t t' ->
  forall d comps cur used r,
    walk_from d t cur comps used = Ok r -> walk_from d t' cur comps used = Ok r.
Proof.
  intros E.
  induction d as [|d IHd]; induction comps as [|c rest IHc];
    intros cur used r H; rewrite ?walk_from_nil, ?walk_from_cons in *; try exact H.
  all: destruct (kind_at t cur) as [[| |]|] eqn:Ecur; try discriminate H.
  all: rewrite (E _ _ Ecur).
  all: destruct (String.eqb c "" || String.eqb c "."); [apply IHc; exact H|].
  all: destruct (String.eqb c ".."); [apply IHc; exact H|].
  all: destruct (kind_at t (cur ++ [c])) as [[|target|]|] eqn:Ec; try discriminate H.
  all: rewrite (E _ _ Ec).
  all: try (apply IHc; exact H).
  destruct (Nat.leb MAXSYMLINKS used); [discriminate H|].
  destruct (is_empty target); [discriminate H|].
  destruct (walk_from d t _ (split target) (S used)) as [[q v]|e] eqn:Et; [|discriminate H].
  rewrite (IHd _ _ _ _ Et). apply IHc; exact H.
Qed.

Lemma extends_refl t : extends t t.
Proof. intros p k H. exact H. Qed.

Lemma extends_trans t1 t2 t3 : extends t1 t2 -> extends t2 t3 -> extends t1 t3.
Proof. intros H1 H2 p k H. apply H2, H1, H. Qed.

Lemma extends_insert t p g :
  kind_at t p = None -> extends t (insert_at t p (Symlink g)).
Proof.
  intros F q k H. rewrite kind_at_insert_other; [exact H | | exact F].
  intros ->. congruence.
Qed.

Lemma grows_refl w : grows w w.
Proof. split; [reflexivity | apply extends_refl]. Qed.

Lemma grows_trans w1 w2 w3 : grows w1 w2 -> grows w2 w3 -> grows w1 w3.
Proof.
  intros [C1 E1] [C2 E2]. split; [congruence | eapply extends_trans; eassumption].
Qed.

Lemma start_dir_grows w w' path : grows w w' -> start_dir w' path = start_dir w path.
Proof. intros [C _]. unfold start_dir. rewrite C. reflexivity. Qed.

Lemma resolve_mono w w' path p :
  grows w w' -> resolve w path = Ok p -> resolve w' path = Ok p.
Proof.
  intros G. unfold resolve. rewrite (start_dir_grows _ _ _ G).
  destruct (is_empty path); [discriminate|].
  destruct (walk_from _ (root w) _ _ _) as [[q u]|e] eqn:E; [|discriminate].
  rewrite (walk_from_mono _ _ (proj2 G) _ _ _ _ _ E). trivial.
Qed.

Lemma locate_mono w w' path p :
  grows w w' -> locate w path = Ok p -> locate w' path = Ok p.
Proof.
  intros G. unfold locate.
  destruct (is_empty path); [discriminate|].
  destruct (proper_name _); [|apply resolve_mono; exact G].
  rewrite (start_dir_grows _ _ _ G).
  destruct (walk_from _ (root w) _ _ _) as [[q u]|e] eqn:E; [|discriminate].
  rewrite (walk_from_mono _ _ (proj2 G) _ _ _ _ _ E).
  destruct (kind_at (root w) q) as [[| |]|] eqn:K; try discriminate.
  rewrite (proj2 G _ _ K). trivial.
Qed.

Lemma stat_mono w w' path k :
  grows w w' -> stat w path = Ok k -> stat w' path = Ok k.
Proof.
  intros G. unfold stat.
  destruct (resolve w path) as [p|e] eqn:R; [|discriminate].
  rewrite (resolve_mono _ _ _ _ G R).
  destruct (kind_at (root w) p) as [k'|] eqn:K; [|discriminate].
  rewrite (proj2 G _ _ K). trivial.
Qed.

Lemma lstat_mono w w' path k :
  grows w w' -> lstat w path = Ok k -> lstat w' path = Ok k.
Proof.
  intros G. unfold lstat.
  destruct (locate w path) as [p|e] eqn:R; [|discriminate].
  rewrite (locate_mono _ _ _ _ G R).
  destruct (kind_at (root w) p) as [k'|] eqn:K; [|discriminate].
  rewrite (proj2 G _ _ K). trivial.
Qed.

Lemma isfile_mono w w' path :
  grows w w' -> isfile w path = true -> isfile w' path = true.
Proof.
  intros G. unfold isfile.
  destruct (stat w path) as [[| |]|] eqn:S; try discriminate.
  rewrite (stat_mono _ _ _ _ G S). trivial.
Qed.

Lemma exists_mono w w' path :
  grows w w' -> exists_ w path = true -> exists_ w' path = true.
Proof.
  intros G. unfold exists_.
  destruct (stat w path) as [k|] eqn:S; try discriminate.
  rewrite (stat_mono _ _ _ _ G S). trivial.
Qed.

Lemma resolve_exists w path p :
  resolve w path = Ok p -> kind_at (root w) p <> None.
Proof.
  unfold resolve. destruct (is_empty path); [discriminate|].
  destruct (walk_from _ _ _ _ _) as [[q u]|e] eqn:E; [|discriminate].
  intros [= <-]. eapply walk_from_exists; [exact E | left; apply split_not_nil].
Qed.

(** A path that names a free location names it inside an existing
    directory. *)
Lemma locate_free w path p :
  locate w path = Ok p -> kind_at (root w) p = None ->
  exists parent name, p = parent ++ [name] /\ kind_at (root w) parent = Some KDir.
Proof.
  unfold locate. destruct (is_empty path); [discriminate|].
  destruct (proper_name _).
  - destruct (walk_from _ _ _ _ _) as [[q u]|e]; [|discriminate].
    destruct (kind_at (root w) q) as [[| |]|] eqn:K; try discriminate.
    intros [= <-] _. eauto.
  - intros R F. apply resolve_exists in R. contradiction.
Qed.

(** What [stat] finds, [lstat] finds an entry for. *)
Lemma resolve_locate w path q :
  resolve w path = Ok q ->
  exists p k, locate w path = Ok p /\ kind_at (root w) p = Some k.
Proof.
  intros R. unfold locate.
  pose proof R as R0. unfold resolve in R0.
  destruct (is_empty path); [discriminate|].
  destruct (proper_name (last (split path) "")) eqn:P.
  - destruct (@exists_last _ (split path) (split_not_nil path)) as [xs [name E]].
    rewrite E in *. rewrite last_last in *. rewrite removelast_last.
    rewrite walk_from_app in R0.
    destruct (walk_from _ _ _ xs _) as [[parent u]|e]; [|discriminate].
    rewrite walk_from_cons in R0.
    destruct (kind_at (root w) parent) as [[| |]|]; try discriminate.
    unfold proper_name in P.
    destruct (String.eqb name ""); [discriminate|].
    destruct (String.eqb name "."); [discriminate|].
    destruct (String.eqb name ".."); [discriminate|].
    cbn [orb] in R0.
    destruct (kind_at (root w) (parent ++ [name])) as [k|] eqn:K; [|discriminate].
    eauto.
  - rewrite R. destruct (kind_at (root w) q) as [k|] eqn:K; [eauto|].
    apply resolve_exists in R. contradiction.
Qed.

Lemma exists_lstat w path :
  exists_ w path = true -> exists k, lstat w path = Ok k.
Proof.
  unfold exists_, stat, lstat.
  destruct (resolve w path) as [q|e] eqn:R; [|discriminate].
  destruct (resolve_locate _ _ _ R) as [p [k [L K]]].
  rewrite L, K. eauto.
Qed.

(** A successful [symlink] adds one entry, the link, at the location
    its path names, which was free. *)
Lemma sys_symlink_ok w target linkpath w' :
  sys_symlink w target linkpath = Ok w' ->
  exists p,
    locate w linkpath = Ok p /\
    kind_at (root w) p = None /\
    kind_at (root w') p = Some (KSymlink target) /\
    (forall q, q <> p -> kind_at (root w') q = kind_at (root w) q) /\
    grows w w'.
Proof.
  unfold sys_symlink. destruct (is_empty target); [discriminate|].
  destruct (locate w linkpath) as [p|e] eqn:L; [|discriminate].
  destruct (kind_at (root w) p) eqn:K; [discriminate|].
  intros [= <-]. exists p. simpl.
  destruct (locate_free _ _ _ L K) as [parent [name [-> D]]].
  repeat split; trivial.
  - apply (kind_at_insert_same parent (root w) name (Symlink target)); assumption.
  - intros q N. apply kind_at_insert_other; assumption.
  - apply extends_insert. exact K.
Qed.

Lemma sys_symlink_exists w target linkpath k :
  lstat w linkpath = Ok k -> sys_symlink w target linkpath = Err EEXIST \/
                             sys_symlink w target linkpath = Err ENOENT.
Proof.
  unfold lstat, sys_symlink. destruct (is_empty target); [auto|].
  destruct (locate w linkpath) as [p|e]; [|discriminate].
  destruct (kind_at (root w) p); [auto | discriminate].
Qed.

(** A path that resolves has a parent directory, from which its last
    component leads to the result. *)
Lemma resolve_last w path q :
  resolve w path = Ok q ->
  exists parent u u',
    walk_from MAXSYMLINKS (root w) (start_dir w path) (removelast (split path)) 0
      = Ok (parent, u) /\
    kind_at (root w) parent = Some KDir /\
    walk_from MAXSYMLINKS (root w) parent [last (split path) ""] u = Ok (q, u').
Proof.
  unfold resolve. destruct (is_empty path); [discriminate|].
  destruct (@exists_last _ (split path) (split_not_nil path)) as [xs [n E]].
  rewrite E, last_last, removelast_last, walk_from_app.
  destruct (walk_from _ _ _ xs _) as [[parent u]|e]; [|discriminate].
  destruct (walk_from _ _ parent [n] u) as [[q' u']|e] eqn:W; [|discriminate].
  intros [= <-]. exists parent, u, u'. repeat split; trivial.
  rewrite walk_from_cons in W.
  destruct (kind_at (root w) parent) as [[| |]|]; try discriminate W. reflexivity.
Qed.

Lemma walk_dot d t parent n u q u' :
  n = "" \/ n = "." ->
  walk_from d t parent [n] u = Ok (q, u') -> q = parent.
Proof.
  intros N. rewrite walk_from_cons.
  destruct (kind_at t parent) as [[| |]|]; try discriminate.
  destruct N as [-> | ->]; simpl; rewrite walk_from_nil; congruence.
Qed.

Lemma resolve_file_name w path q c :
  resolve w path = Ok q -> kind_at (root w) q = Some (KFile c) ->
  last (split path) "" <> "" /\ last (split path) "" <> ".".
Proof.
  intros R K. destruct (resolve_last _ _ _ R) as [parent [u [u' [_ [D W]]]]].
  split; intros E; rewrite E in W;
    apply walk_dot in W; auto; subst q; congruence.
Qed.

Lemma start_dir_snoc w path c :
  path <> "" -> start_dir w (path +++ String c "") = start_dir w path.
Proof.
  intros N. unfold start_dir, isabs. rewrite startswith_sep_append by exact N.
  reflexivity.
Qed.

(** Next to a regular file, a path with one more character names an
    entry or a free location of the same directory. *)
Lemma locate_beside_file w path q content c :
  resolve w path = Ok q -> kind_at (root w) q = Some (KFile content) ->
  is_sep c = false ->
  exists p, locate w (path +++ String c "") = Ok p.
Proof.
  intros R K N.
  destruct (resolve_file_name _ _ _ _ R K) as [N0 N1].
  destruct (resolve_last _ _ _ R) as [parent [u [u' [W [D _]]]]].
  assert (P : path <> "") by (intros ->; discriminate R).
  unfold locate. rewrite is_empty_append.
  destruct path as [|a path']; [congruence|]. cbn [is_empty andb].
  destruct (last_split_snoc (String a path') c N) as [-> ->].
  rewrite (start_dir_snoc w (String a path') c P), W, D.
  assert (PN : proper_name (last (split (String a path')) "" +++ String c "") = true).
  { unfold proper_name. apply negb_true_iff.
    apply orb_false_iff. split; [apply orb_false_iff; split|];
      apply String.eqb_neq; intros E.
    - apply (snoc_not_empty _ _ E).
    - change "." with ("" +++ String "."%char "") in E.
      apply snoc_inj in E. tauto.
    - change ".." with ("." +++ String "."%char "") in E.
      apply snoc_inj in E. tauto. }
  rewrite PN. eauto.
Qed.

(** A regular file followed by a separator is not a directory. *)
Lemma resolve_file_slash w path q content :
  resolve w path = Ok q -> kind_at (root w) q = Some (KFile content) ->
  resolve w (path +++ "/") = Err ENOTDIR.
Proof.
  intros R K. assert (P : path <> "") by (intros ->; discriminate R).
  unfold resolve in *. rewrite is_empty_append.
  destruct path as [|a path']; [congruence|]. cbn [is_empty andb] in *.
  rewrite (start_dir_snoc w (String a path') "/" P).
  rewrite split_snoc_sep, walk_from_app.
  destruct (walk_from _ _ _ (split (String a path')) _) as [[q' u]|e]; [|discriminate].
  injection R as ->. rewrite walk_from_cons, K. reflexivity.
Qed.

Lemma locate_root w : locate w "/" <> Err ENOENT.
Proof.
  unfold locate, resolve, start_dir. simpl.
  destruct (kind_of (root w)); discriminate.
Qed.

Lemma kind_at_root_dir t cur :
  kind_at t cur = Some KDir -> kind_at t [] = Some KDir.
Proof.
  induction cur as [|c cur IH] using rev_ind; [trivial|].
  intros H. apply IH. eapply kind_at_parent. exact H.
Qed.

Lemma walk_from_root_dir d t cur c rest used r :
  walk_from d t cur (c :: rest) used = Ok r -> kind_at t [] = Some KDir.
Proof.
  rewrite walk_from_cons.
  destruct (kind_at t cur) as [[| |]|] eqn:K; try discriminate.
  intros _. eapply kind_at_root_dir. exact K.
Qed.

(** A path that names a file or a link names it inside a directory. *)
Lemma locate_leaf w path p k :
  locate w path = Ok p -> kind_at (root w) p = Some k -> k <> KDir ->
  exists parent name, p = parent ++ [name].
Proof.
  intros L K N. destruct p as [|c p] using rev_ind; [|eauto].
  exfalso. unfold locate in L. destruct (is_empty path); [discriminate|].
  destruct (proper_name _).
  - destruct (walk_from _ _ _ _ _) as [[q u]|]; [|discriminate].
    destruct (kind_at (root w) q) as [[| |]|]; try discriminate.
    injection L as L. destruct q; discriminate.
  - unfold resolve in L. destruct (is_empty path); [discriminate|].
    destruct (split path) as [|c rest] eqn:E; [apply (split_not_nil _ E)|].
    destruct (walk_from _ _ _ _ _) as [[q u]|] eqn:W; [|discriminate].
    apply walk_from_root_dir in W. congruence.
Qed.

(** A successful [unlink] removes one entry, a file or a link, at the
    location its path names. *)
Lemma sys_unlink_ok w path w' :
  sys_unlink w path = Ok w' ->
  exists p k,
    locate w path = Ok p /\
    kind_at (root w) p = Some k /\ k <> KDir /\
    kind_at (root w') p = None /\
    (forall q, q <> p -> kind_at (root w') q = kind_at (root w) q) /\
    cwd w' = cwd w.
Proof.
  unfold sys_unlink. destruct (locate w path) as [p|e] eqn:L; [|discriminate].
  destruct (kind_at (root w) p) as [k|] eqn:K; [|discriminate].
  assert (N : k <> KDir -> Ok (with_root w (remove_at (root w) p)) = Ok w' ->
              exists p0 k0, Ok p = Ok p0 /\ kind_at (root w) p0 = Some k0 /\ k0 <> KDir /\
                kind_at (root w') p0 = None /\
                (forall q, q <> p0 -> kind_at (root w') q = kind_at (root w) q) /\
                cwd w' = cwd w).
  { intros N [= <-]. exists p, k. simpl.
    destruct (locate_leaf _ _ _ _ L K N) as [parent [name ->]].
    repeat split; trivial.
    - apply kind_at_remove_same.
    - intros q Q. eapply kind_at_remove_other; eassumption. }
  destruct k; try discriminate; apply N; discriminate.
Qed.

(** Induction on a tree, the entries of a directory included. *)
Lemma node_induction (P : node -> Prop) :
  (forall c, P (File c)) ->
  (forall t, P (Symlink t)) ->
  (forall es, Forall (fun e => P (snd e)) es -> P (Dir es)) ->
  forall n, P n.
Proof.
  intros Hf Hs Hd. fix IH 1. intros [c|t|es]; [apply Hf | apply Hs | apply Hd].
  induction es as [|e es IHes]; constructor; [apply IH | exact IHes].
Qed.

Lemma find_entry_erase c es :
  find_entry c (map (fun e => (fst e, erase (snd e))) es)
  = option_map erase (find_entry c es).
Proof.
  induction es as [|[n x] es IH]; simpl; [reflexivity|].
  destruct (String.eqb n c); [reflexivity | exact IH].
Qed.

Lemma lookup_erase p : forall t,
  lookup (erase t) p = option_map erase (lookup t p).
Proof.
  induction p as [|c p IH]; intros t; [reflexivity|].
  destruct t as [| |es]; try reflexivity.
  simpl. rewrite find_entry_erase.
  destruct (find_entry c es) as [m|]; simpl; [apply IH | reflexivity].
Qed.

Lemma kind_at_erase t p :
  kind_at (erase t) p = option_map erase_kind (kind_at t p).
Proof.
  unfold kind_at. rewrite lookup_erase.
  destruct (lookup t p) as [[| |]|]; reflexivity.
Qed.

(** Resolution does not read file contents. *)
Lemma walk_from_erase t : forall d comps cur used,
  walk_from d (erase t) cur comps used = walk_from d t cur comps used.
Proof.
  induction d as [|d IHd]; induction comps as [|c rest IHc];
    intros cur used; rewrite ?walk_from_nil; try reflexivity.
  all: rewrite (walk_from_cons _ (erase t)), (walk_from_cons _ t).
  all: rewrite !kind_at_erase.
  all: destruct (kind_at t cur) as [[| |]|]; try reflexivity;
    cbn [option_map erase_kind].
  all: destruct (String.eqb c "" || String.eqb c "."); [apply IHc|].
  all: destruct (String.eqb c ".."); [apply IHc|].
  all: destruct (kind_at t (cur ++ [c])) as [[|target|]|];
    cbn [option_map erase_kind]; try reflexivity; try apply IHc.
  destruct (Nat.leb MAXSYMLINKS used); [reflexivity|].
  destruct (is_empty target); [reflexivity|].
  rewrite IHd.
  destruct (walk_from d t _ (split target) (S used)) as [[q v]|e];
    [apply IHc | reflexivity].
Qed.

Lemma resolve_same_shape w w' path :
  same_shape w w' -> resolve w path = resolve w' path.
Proof.
  intros [E C]. unfold resolve, start_dir. rewrite C.
  rewrite <- (walk_from_erase (root w)), <- (walk_from_erase (root w')), E.
  reflexivity.
Qed.

Lemma kind_at_same_shape w w' p :
  same_shape w w' ->
  option_map erase_kind (kind_at (root w) p) = option_map erase_kind (kind_at (root w') p).
Proof. intros [E _]. rewrite <- !kind_at_erase, E. reflexivity. Qed.

Lemma isdir_same_shape w w' path :
  same_shape w w' -> isdir w path = isdir w' path.
Proof.
  intros H. unfold isdir, stat. rewrite (resolve_same_shape _ _ _ H).
  destruct (resolve w' path) as [p|]; [|reflexivity].
  pose proof (kind_at_same_shape _ _ p H) as K.
  destruct (kind_at (root w) p) as [[| |]|], (kind_at (root w') p) as [[| |]|];
    simpl in K; try discriminate K; reflexivity.
Qed.

Lemma entry_is_dir_same_shape w w' top name child :
  same_shape w w' ->
  entry_is_dir w top name child = entry_is_dir w' top name (erase child).
Proof.
  intros H. destruct child; simpl; try reflexivity. apply isdir_same_shape, H.
Qed.

Lemma filter_map_eq {A B} (f : A -> B) (p : A -> bool) (q : B -> bool) l :
  (forall a, q (f a) = p a) -> filter q (map f l) = map f (filter p l).
Proof.
  intros H. induction l as [|a l IH]; simpl; [reflexivity|].
  rewrite H. destruct (p a); simpl; rewrite IH; reflexivity.
Qed.

(** The walk does not read file contents. *)
Lemma walk_node_erase w w' :
  same_shape w w' ->
  forall n top, walk_node w top n = walk_node w' top (erase n).
Proof.
  intros H. induction n as [c|t|es IH] using node_induction; intros top;
    try reflexivity.
  cbn [erase walk_node].
  rewrite (filter_map_eq (fun e => (fst e, erase (snd e)))
             (fun e => entry_is_dir w top (fst e) (snd e))
             (fun e => entry_is_dir w' top (fst e) (snd e)))
    by (intros [n x]; simpl; symmetry; apply entry_is_dir_same_shape, H).
  rewrite (filter_map_eq (fun e => (fst e, erase (snd e)))
             (fun e => negb (entry_is_dir w top (fst e) (snd e)))
             (fun e => negb (entry_is_dir w' top (fst e) (snd e))))
    by (intros [n x]; simpl; f_equal; symmetry; apply entry_is_dir_same_shape, H).
  rewrite !map_map. cbn [fst]. f_equal.
  clear - IH. induction IH as [|[n x] es Hx Hes IHes]; [reflexivity|].
  cbn [map flat_map fst snd]. rewrite IHes. f_equal.
  destruct x; try reflexivity. apply Hx.
Qed.

Lemma os_walk_same_shape w w' top :
  same_shape w w' -> os_walk w top = os_walk w' top.
Proof.
  intros H. unfold os_walk. rewrite (resolve_same_shape _ _ _ H).
  destruct (resolve w' top) as [p|]; [|reflexivity].
  destruct H as [E C].
  assert (L : option_map erase (lookup (root w) p) = option_map erase (lookup (root w') p)).
  { rewrite <- !lookup_erase, E. reflexivity. }
  destruct (lookup (root w) p) as [n|], (lookup (root w') p) as [n'|];
    simpl in L; try discriminate L; [|reflexivity].
  injection L as L.
  rewrite (walk_node_erase w w' (conj E C) n top), L.
  symmetry. apply walk_node_erase. split; reflexivity.
Qed.

Lemma find_entry_valid c es m :
  forallb (fun e => is_name (fst e) && valid_names (snd e)) es = true ->
  find_entry c es = Some m -> valid_names m = true.
Proof.
  induction es as [|[n x] es IH]; simpl; [discriminate|].
  intros V. apply andb_prop in V. destruct V as [V1 V2].
  apply andb_prop in V1. destruct V1 as [_ V1].
  destruct (String.eqb n c); [congruence | apply IH, V2].
Qed.

Lemma lookup_valid p : forall t n,
  valid_names t = true -> lookup t p = Some n -> valid_names n = true.
Proof.
  induction p as [|c p IH]; intros t n V L; simpl in L; [congruence|].
  destruct t as [| |es]; try discriminate L.
  destruct (find_entry c es) as [m|] eqn:E; [|discriminate L].
  apply (IH m n); [|exact L]. apply (find_entry_valid c es m V E).
Qed.

(** In a file system the directory paths of a walk are the top joined
    with names, and the walk lists names. *)
Lemma walk_node_paths w : forall n top dirpath dirnames filenames,
  valid_names n = true ->
  In (dirpath, dirnames, filenames) (walk_node w top n) ->
  exists names,
    Forall (fun c => is_name c = true) names /\
    dirpath = fold_left join names top /\
    Forall (fun c => is_name c = true) filenames.
Proof.
  induction n as [c|t|es IH] using node_induction;
    intros top dirpath dirnames filenames V I; [destruct I | destruct I |].
  cbn [walk_node] in I. cbn [valid_names] in V.
  rewrite forallb_forall in V. destruct I as [I|I].
  - injection I as <- _ <-. exists []. repeat split; [constructor|].
    apply Forall_forall. intros x Hx. apply in_map_iff in Hx.
    destruct Hx as [e [<- He]]. apply filter_In in He. destruct He as [He _].
    apply V in He. apply andb_prop in He. tauto.
  - apply in_flat_map in I. destruct I as [e [He I]].
    rewrite Forall_forall in IH. specialize (IH e He).
    pose proof (V e He) as Ve. apply andb_prop in Ve. destruct Ve as [Ve1 Ve2].
    destruct (snd e) eqn:Es; [destruct I | destruct I |].
    destruct (IH _ _ _ _ Ve2 I) as [names [F [D G]]].
    exists (fst e :: names). repeat split; trivial. constructor; assumption.
Qed.

Lemma kind_at_prefix_dir t p q :
  kind_at t (p ++ q) = Some KDir -> kind_at t p = Some KDir.
Proof.
  induction q as [|c q IH] using rev_ind; [rewrite app_nil_r; trivial|].
  rewrite app_assoc. intros H. apply IH. eapply kind_at_parent. exact H.
Qed.

(** Along directories that are not links, names lead down. *)
Lemma walk_names d t names : forall cur used,
  Forall (fun c => is_name c = true) names ->
  kind_at t (cur ++ names) = Some KDir ->
  walk_from d t cur names used = Ok (cur ++ names, used).
Proof.
  induction names as [|c names IH]; intros cur used F K.
  - rewrite walk_from_nil, app_nil_r. reflexivity.
  - inversion F as [|? ? Hc F']; subst.
    destruct (is_name_inv _ Hc) as [_ [E0 [E1 E2]]].
    rewrite walk_from_cons, (kind_at_prefix_dir _ _ _ K), E0, E1, E2.
    cbn [orb]. cbn iota.
    change (c :: names) with ([c] ++ names) in K. rewrite app_assoc in K.
    rewrite (kind_at_prefix_dir _ _ _ K).
    rewrite IH by assumption. rewrite <- app_assoc. reflexivity.
Qed.

Lemma walk_from_cons_pardir d t cur rest used :
  kind_at t cur = Some KDir ->
  walk_from d t cur (pardir :: rest) used = walk_from d t (removelast cur) rest used.
Proof. intros K. rewrite walk_from_cons, K. reflexivity. Qed.

Lemma walk_from_cons_curdir d t cur rest used :
  kind_at t cur = Some KDir ->
  walk_from d t cur (curdir :: rest) used = walk_from d t cur rest used.
Proof. intros K. rewrite walk_from_cons, K. reflexivity. Qed.

(** From a directory, each [..] leads to the parent. *)
Lemma walk_pardirs d t n : forall cur used,
  kind_at t cur = Some KDir ->
  walk_from d t cur (repeat pardir n) used
  = Ok (firstn (List.length cur - n) cur, used).
Proof.
  induction n as [|n IH]; intros cur used K.
  - simpl. rewrite walk_from_nil, Nat.sub_0_r, firstn_all. reflexivity.
  - cbn [repeat]. rewrite walk_from_cons_pardir by exact K.
    rewrite IH by (apply kind_at_removelast; exact K).
    rewrite removelast_firstn_len, firstn_firstn, length_firstn.
    f_equal. f_equal. f_equal. lia.
Qed.

Lemma last_app_nonempty {A} (l l' : list A) d :
  l' <> [] -> last (l ++ l') d = last l' d.
Proof.
  intros N. destruct (exists_last N) as [l0 [a ->]].
  rewrite app_assoc, !last_last. reflexivity.
Qed.

Lemma is_name_proper c : is_name c = true -> proper_name c = true.
Proof.
  intros H. destruct (is_name_inv _ H) as [_ [E0 [E1 E2]]].
  unfold proper_name. rewrite E0, E1, E2. reflexivity.
Qed.

(** The parent of a located entry is a directory. *)
Lemma locate_parent_dir w path p :
  locate w path = Ok p -> p <> [] -> kind_at (root w) (removelast p) = Some KDir.
Proof.
  intros L N. unfold locate in L. destruct (is_empty path); [discriminate|].
  destruct (proper_name _).
  - destruct (walk_from _ _ _ _ _) as [[q u]|]; [|discriminate].
    destruct (kind_at (root w) q) as [[| |]|] eqn:K; try discriminate.
    injection L as <-. rewrite removelast_last. exact K.
  - apply resolve_exists in L.
    destruct (exists_last N) as [q [c ->]]. rewrite removelast_last.
    destruct (kind_at (root w) (q ++ [c])) as [k|] eqn:K; [|congruence].
    eapply kind_at_parent. exact K.
Qed.

(** The components that lead from the start directory of [a] to the
    directory [a] resolves to, before those of a relative path joined
    to [a]. *)
Lemma resolve_join_prefix w a D :
  resolve w a = Ok D ->
  exists A u,
    walk_from MAXSYMLINKS (root w) (start_dir w a) A 0 = Ok (D, u) /\
    forall b, isabs b = false -> is_empty b = false ->
      split (join a b) = A ++ split b /\
      start_dir w (join a b) = start_dir w a /\
      is_empty (join a b) = false.
Proof.
  intros R. assert (Na : is_empty a = false).
  { destruct a; [discriminate R | reflexivity]. }
  unfold resolve in R. rewrite Na in R.
  destruct (walk_from _ _ _ (split a) _) as [[D' u]|] eqn:W; [|discriminate].
  injection R as ->.
  assert (St : forall b, isabs b = false -> start_dir w (join a b) = start_dir w a).
  { intros b B. unfold start_dir. rewrite (isabs_join_relative _ _ B), orb_false_r.
    reflexivity. }
  destruct (endswith a "/") eqn:Es.
  - destruct (endswith_sep _ Es) as [a' ->].
    rewrite split_snoc_sep, walk_from_app in W.
    destruct (walk_from _ _ _ (split a') _) as [[D' u']|] eqn:W'; [|discriminate].
    pose proof (walk_dot _ _ _ "" _ _ _ (or_introl eq_refl) W) as ->.
    exists (split a'), u'. split; [exact W'|].
    intros b B Nb. repeat split; [|apply St; exact B|].
    + unfold join. fold (isabs b). rewrite B, Na, Es. simpl.
      rewrite append_assoc. apply (split_app_sep a' b).
    + unfold join. fold (isabs b). rewrite B, Na, Es. simpl.
      rewrite is_empty_append, Nb. apply andb_false_r.
  - exists (split a), u. split; [exact W|].
    intros b B Nb. repeat split; [|apply St; exact B|].
    + unfold join. fold (isabs b). rewrite B, Na, Es. simpl.
      apply (split_app_sep a b).
    + unfold join. fold (isabs b). rewrite B, Na, Es. simpl.
      rewrite is_empty_append, Na. reflexivity.
Qed.

(** Where no symbolic link is in the way, the path [relpath] gives from
    a directory to an entry names that entry when read from the
    directory. *)
Lemma relative_target_names_source w path start tgt :
  relpath (cwd w) path start = Some tgt ->
  plain_dir w start -> plain_entry w path ->
  locate w (join start tgt) = Ok (abs_parts (cwd w) path).
Proof.
  intros RP [RS KS] LP. unfold plain_entry in LP.
  destruct (relpath_comps _ _ _ _ RP) as [Tr [Tn Sh]].
  destruct (resolve_join_prefix _ _ _ RS) as [A [u [WA J]]].
  destruct (J tgt Tr Tn) as [Sp [St Ne]].
  set (S := abs_parts (cwd w) start) in *. set (P := abs_parts (cwd w) path) in *.
  destruct (common_prefix_firstn S P) as [Hi Hle].
  set (i := common_prefix_len S P) in *.
  pose proof (abs_parts_names (cwd w) path) as HP. fold P in HP.
  unfold locate, resolve. rewrite Ne, Sp, St.
  destruct Sh as [[T E] | [T NT]].
  - rewrite T, last_last. cbn [proper_name]. unfold curdir at 1.
    change (proper_name ".") with false. cbn iota.
    rewrite walk_from_app, WA, walk_from_cons_curdir by exact KS.
    rewrite walk_from_nil. f_equal. exact E.
  - rewrite last_app_nonempty by exact NT.
    rewrite removelast_app by exact NT.
    rewrite T in *. clear T.
    destruct (skipn i P) as [|c0 rest0] eqn:Sk.
    + rewrite app_nil_r in *.
      assert (Pi : P = firstn i S).
      { rewrite Hi. rewrite <- (firstn_skipn i P) at 1. rewrite Sk, app_nil_r.
        reflexivity. }
      destruct (List.length S - i) as [|k] eqn:Ek; [simpl in NT; congruence|].
      assert (Lp : last (repeat pardir (Datatypes.S k)) "" = pardir).
      { change (Datatypes.S k) with (1 + k). rewrite Nat.add_comm, repeat_app.
        apply last_last. }
      rewrite Lp. change (proper_name pardir) with false. cbn iota.
      rewrite walk_from_app, WA, walk_pardirs by exact KS.
      f_equal. rewrite Pi. f_equal. lia.
    + assert (NSk : c0 :: rest0 <> []) by discriminate.
      rewrite last_app_nonempty by exact NSk.
      rewrite removelast_app by exact NSk.
      assert (PE : P = firstn i S ++ c0 :: rest0).
      { rewrite Hi, <- Sk. symmetry. apply firstn_skipn. }
      assert (NP : P <> []). { rewrite PE. destruct (firstn i S); discriminate. }
      assert (LN : is_name (last (c0 :: rest0) "") = true).
      { rewrite <- (last_app_nonempty (firstn i S) _ "" NSk), <- PE.
        destruct (exists_last NP) as [l [a E]]. rewrite E in *. rewrite last_last.
        apply Forall_app in HP. destruct HP as [_ HP]. inversion HP. assumption. }
      rewrite (is_name_proper _ LN).
      pose proof (locate_parent_dir _ _ _ LP NP) as KP.
      assert (RE : removelast P = firstn i S ++ removelast (c0 :: rest0)).
      { rewrite PE. apply removelast_app. exact NSk. }
      rewrite RE in KP.
      rewrite walk_from_app, WA, walk_from_app, walk_pardirs by exact KS.
      replace (List.length S - (List.length S - i)) with i by lia.
      rewrite walk_names; [rewrite KP| |exact KP].
      * rewrite <- app_assoc, <- app_removelast_last by exact NSk.
        rewrite <- PE. reflexivity.
      * assert (F : Forall (fun c => is_name c = true) (c0 :: rest0)).
        { rewrite PE in HP. apply Forall_app in HP. tauto. }
        apply Forall_removelast. exact F.
Qed.

Lemma walk_from_cons_name d t cur c rest used :
  is_name c = true -> kind_at t cur = Some KDir ->
  walk_from d t cur (c :: rest) used =
  match kind_at t (cur ++ [c]) with
  | None => Err ENOENT
  | Some (KSymlink target) =>
      match d with
      | 0 => Err ELOOP
      | S d' =>
          if Nat.leb MAXSYMLINKS used then Err ELOOP
          else if is_empty target then Err ENOENT
          else
            match walk_from d' t (if isabs target then [] else cur)
                            (split target) (S used) with
            | Ok (p, used') => walk_from d t p rest used'
            | Err e => Err e
            end
      end
  | Some _ => walk_from d t (cur ++ [c]) rest used
  end.
Proof.
  intros N K. destruct (is_name_inv _ N) as [_ [E0 [E1 E2]]].
  rewrite walk_from_cons, K, E0, E1, E2. reflexivity.
Qed.

(** A regular file reached without following a link lies, under its
    name, in the directory the path before the name leads to. *)
Lemma direct_file_parent w path content :
  direct w path ->
  kind_at (root w) (abs_parts (cwd w) path) = Some (KFile content) ->
  exists parent,
    is_name (last (split path) "") = true /\
    walk_from MAXSYMLINKS (root w) (start_dir w path) (removelast (split path)) 0
      = Ok (parent, 0) /\
    kind_at (root w) parent = Some KDir /\
    abs_parts (cwd w) path = parent ++ [last (split path) ""].
Proof.
  unfold direct. intros W K.
  destruct (@exists_last _ (split path) (split_not_nil path)) as [xs [n E]].
  pose proof (split_components path) as C. rewrite E in *.
  rewrite last_last, removelast_last. rewrite walk_from_app in W.
  destruct (walk_from _ _ _ xs 0) as [[parent u]|] eqn:Wx; [|discriminate W].
  pose proof (walk_from_used_le _ _ _ _ _ _ _ W) as Le.
  assert (u = 0) by lia. subst u. clear Le.
  rewrite walk_from_cons in W.
  destruct (kind_at (root w) parent) as [[| |]|] eqn:Kp; try discriminate W.
  apply Forall_app in C. destruct C as [_ C]. inversion C as [|? ? Hn _]; subst.
  destruct (String.eqb n "" || String.eqb n ".") eqn:E0.
  { rewrite walk_from_nil in W. injection W as W. rewrite <- W in K. congruence. }
  destruct (String.eqb n "..") eqn:E2.
  { rewrite walk_from_nil in W. injection W as W.
    rewrite <- W, (kind_at_removelast _ _ Kp) in K. discriminate. }
  apply orb_false_iff in E0. destruct E0 as [E0 E1].
  assert (N : is_name n = true).
  { unfold is_name, is_comp. rewrite Hn, E1, E2.
    destruct n; [discriminate E0 | reflexivity]. }
  exists parent. repeat split; trivial.
  destruct (kind_at (root w) (parent ++ [n])) as [[|target|]|]; try discriminate W.
  - rewrite walk_from_nil in W. congruence.
  - exfalso. change MAXSYMLINKS with (S 39) in W at 1.
    destruct (Nat.leb MAXSYMLINKS 0); [discriminate W|].
    destruct (is_empty target); [discriminate W|].
    destruct (walk_from 39 _ _ (split target) 1) as [[q v]|] eqn:Wt; [|discriminate W].
    apply walk_from_used_le in Wt. rewrite walk_from_nil in W.
    injection W as _ W. lia.
  - rewrite walk_from_nil in W. congruence.
Qed.

(** A link put beside a regular file that is reached without following
    a link, with the target [relpath] gives from the directory of the
    link to another regular file, resolves to that file. *)
Lemma link_reaches_file w w' py c0 abs tgt c1 content :
  is_sep c0 = false ->
  direct w py ->
  kind_at (root w) (abs_parts (cwd w) py) = Some (KFile c1) ->
  relpath (cwd w) abs (dirname (py +++ String c0 "")) = Some tgt ->
  kind_at (root w) (abs_parts (cwd w) abs) = Some (KFile content) ->
  grows w w' ->
  lstat w' (py +++ String c0 "") = Ok (KSymlink tgt) ->
  stat w' (py +++ String c0 "") = Ok (KFile content).
Proof.
  intros C0 Dp Kp RP Ka G LS.
  destruct (direct_file_parent _ _ _ Dp Kp) as [parent [Np [Wx [Kd Ep]]]].
  set (link := py +++ String c0 "") in *.
  set (n := last (split py) "" +++ String c0 "").
  assert (Py : py <> "").
  { intros ->. discriminate Np. }
  destruct (last_split_snoc py c0 C0) as [Ln Rn]. fold link in Ln, Rn. fold n in Ln.
  assert (Nn : is_name n = true) by (apply is_name_snoc; assumption).
  assert (Sl : split link = removelast (split py) ++ [n]).
  { unfold link, n. apply split_snoc. exact C0. }
  assert (Il : isabs link = isabs py).
  { unfold isabs, link. apply startswith_sep_append. exact Py. }
  assert (Sp : split py = removelast (split py) ++ [last (split py) ""]).
  { apply app_removelast_last. apply split_not_nil. }
  assert (Pl : abs_parts (cwd w) link = parent ++ [n]).
  { rewrite (abs_parts_init _ _ _ _ Sl Nn), Il.
    rewrite (abs_parts_init _ _ _ _ Sp Np) in Ep.
    apply app_inj_tail in Ep. destruct Ep as [-> _]. reflexivity. }
  assert (Sd : abs_parts (cwd w) (dirname link) = parent).
  { destruct (abs_parts_dirname (cwd w) link) as [D _]; [rewrite Ln; exact Nn|].
    rewrite D, Pl, removelast_last. reflexivity. }
  pose proof (proj2 G _ _ Kd) as Kd'. pose proof (proj2 G _ _ Ka) as Ka'.
  assert (Wx' : walk_from MAXSYMLINKS (root w') (start_dir w' link)
                  (removelast (split py)) 0 = Ok (parent, 0)).
  { rewrite (start_dir_grows _ _ _ G). unfold link.
    rewrite (start_dir_snoc _ _ _ Py).
    apply (walk_from_mono _ _ (proj2 G)). exact Wx. }
  assert (Ne : is_empty link = false).
  { unfold link. rewrite is_empty_append. apply andb_false_r. }
  assert (Kl : kind_at (root w') (parent ++ [n]) = Some (KSymlink tgt)).
  { unfold lstat, locate in LS. rewrite Ne, Ln, (is_name_proper _ Nn), Rn, Wx', Kd' in LS.
    destruct (kind_at (root w') (parent ++ [n])) as [k|]; congruence. }
  destruct (relpath_comps _ _ _ _ RP) as [Tr [Tn Sh]]. rewrite Sd in Sh.
  set (P := abs_parts (cwd w) abs) in *.
  destruct (common_prefix_firstn parent P) as [Hi Hle].
  set (i := common_prefix_len parent P) in *.
  pose proof (abs_parts_names (cwd w) abs) as HP. fold P in HP.
  assert (Wt : walk_from 39 (root w') parent (split tgt) 1 = Ok (P, 1)).
  { destruct Sh as [[_ E] | [T _]]; [rewrite E in Kd; congruence|].
    rewrite T, walk_from_app, walk_pardirs by exact Kd'.
    replace (List.length parent - (List.length parent - i)) with i by lia.
    destruct (skipn i P) as [|c2 rest2] eqn:Sk.
    - exfalso.
      assert (Pi : P = firstn i parent).
      { rewrite Hi. rewrite <- (firstn_skipn i P) at 1. rewrite Sk, app_nil_r.
        reflexivity. }
      rewrite <- (firstn_skipn i parent) in Kd.
      apply kind_at_prefix_dir in Kd. rewrite <- Pi in Kd. congruence.
    - assert (NSk : c2 :: rest2 <> []) by discriminate.
      destruct (exists_last NSk) as [ns [l El]]. rewrite El.
      assert (PE : P = (firstn i parent ++ ns) ++ [l]).
      { rewrite <- app_assoc, <- El, Hi, <- Sk. symmetry. apply firstn_skipn. }
      assert (Fn : Forall (fun c => is_name c = true) (ns ++ [l])).
      { rewrite PE, <- app_assoc in HP. apply Forall_app in HP. tauto. }
      apply Forall_app in Fn. destruct Fn as [Fns Fl]. apply Forall_inv in Fl.
      assert (Kn : kind_at (root w') (firstn i parent ++ ns) = Some KDir).
      { eapply kind_at_parent. rewrite <- PE. exact Ka'. }
      rewrite walk_from_app, walk_names by assumption.
      rewrite walk_from_cons_name by assumption.
      rewrite <- PE, Ka', walk_from_nil. reflexivity. }
  unfold stat, resolve. rewrite Ne, Sl, walk_from_app, Wx'.
  rewrite walk_from_cons_name by assumption.
  rewrite Kl. change MAXSYMLINKS with (S 39) at 1.
  change (Nat.leb MAXSYMLINKS 0) with false. cbn iota.
  rewrite Tn, Tr, Wt, walk_from_nil, Ka'. reflexivity.
Qed.

End FSFacts.

(* ================================================================== *)
(** ** Facts about the loops of link.py *)

Module LinkFacts.

Import Str PosixPath FS StrFacts PathFacts FSFacts Link.

Lemma os_symlink_grows w target linkpath :
  grows w (state_of (os_symlink w target linkpath)).
Proof.
  unfold os_symlink. destruct (sys_symlink w target linkpath) as [w'|e] eqn:E; simpl.
  - destruct (sys_symlink_ok _ _ _ _ E) as [p [_ [_ [_ [_ G]]]]]. exact G.
  - apply grows_refl.
Qed.

Lemma place_grows rel_pyi pyi_abs w root :
  grows w (state_of (place rel_pyi pyi_abs w root)).
Proof.
  unfold place.
  destruct (isfile w _ && negb (exists_ w _)); [|apply grows_refl].
  destruct (relpath _ _ _); [apply os_symlink_grows | apply grows_refl].
Qed.

Lemma for_stmt_grows {A} (body : world -> A -> outcome) :
  (forall w a, grows w (state_of (body w a))) ->
  forall l w, grows w (state_of (for_stmt body l w)).
Proof.
  intros B. induction l as [|a l IH]; intros w; simpl; [apply grows_refl|].
  specialize (B w a). destruct (body w a) as [w1|x w1]; simpl in *; [|exact B].
  eapply grows_trans; [exact B | apply IH].
Qed.

Lemma synthesize_grows pyi_sources pth_roots w :
  grows w (state_of (synthesize pyi_sources pth_roots w)).
Proof.
  unfold synthesize. apply for_stmt_grows.
  intros w0 [rel_pyi pyi_abs]. apply for_stmt_grows.
  intros w1 r. apply place_grows.
Qed.

Lemma adds_links_refl w : adds_links w w.
Proof. intros p H. left. exact H. Qed.

Lemma adds_links_trans w1 w2 w3 :
  adds_links w1 w2 -> grows w2 w3 -> adds_links w2 w3 -> adds_links w1 w3.
Proof.
  intros A G B p H. destruct (A p H) as [N | [t K]]; [apply B, N|].
  right. exists t. apply (proj2 G). exact K.
Qed.

Lemma os_symlink_adds_links w target linkpath :
  adds_links w (state_of (os_symlink w target linkpath)).
Proof.
  unfold os_symlink. destruct (sys_symlink w target linkpath) as [w'|e] eqn:E; simpl.
  - destruct (sys_symlink_ok _ _ _ _ E) as [p [_ [_ [K [O _]]]]].
    intros q H. destruct (list_eq_dec string_dec q p) as [->|N]; [eauto|].
    left. rewrite O by exact N. exact H.
  - apply adds_links_refl.
Qed.

Lemma place_adds_links rel_pyi pyi_abs w root :
  adds_links w (state_of (place rel_pyi pyi_abs w root)).
Proof.
  unfold place.
  destruct (isfile w _ && negb (exists_ w _)); [|apply adds_links_refl].
  destruct (relpath _ _ _); [apply os_symlink_adds_links | apply adds_links_refl].
Qed.

Lemma placements_add_links tasks : forall w,
  adds_links w (state_of (for_stmt place_task tasks w)).
Proof.
  induction tasks as [|t tasks IH]; intros w; simpl; [apply adds_links_refl|].
  pose proof (place_adds_links (fst (fst t)) (snd (fst t)) w (snd t)) as A.
  pose proof (place_grows (fst (fst t)) (snd (fst t)) w (snd t)) as G.
  fold (place_task w t) in A, G.
  destruct (place_task w t) as [w1|x w1]; simpl in *; [|exact A].
  eapply adds_links_trans; [exact A | | apply IH].
  apply (for_stmt_grows place_task (fun w a => place_grows _ _ w _)).
Qed.

Lemma for_stmt_app {A} (body : world -> A -> outcome) l1 l2 w :
  for_stmt body (l1 ++ l2) w = and_then (for_stmt body l1 w) (for_stmt body l2).
Proof.
  revert w. induction l1 as [|a l1 IH]; intros w; simpl; [reflexivity|].
  destruct (body w a); simpl; [apply IH | reflexivity].
Qed.

Lemma for_stmt_map {A B} (f : A -> B) (body : world -> B -> outcome) l w :
  for_stmt body (map f l) w = for_stmt (fun w a => body w (f a)) l w.
Proof.
  revert w. induction l as [|a l IH]; intros w; simpl; [reflexivity|].
  destruct (body w (f a)); simpl; [apply IH | reflexivity].
Qed.

(** The nested loops of lines 65-72 run the placements in sequence. *)
Lemma synthesize_placements pyi_sources pth_roots w :
  synthesize pyi_sources pth_roots w =
  for_stmt place_task (placements pyi_sources pth_roots) w.
Proof.
  unfold synthesize, placements. revert w.
  induction pyi_sources as [|[rel_pyi pyi_abs] d IH]; intros w; simpl; [reflexivity|].
  rewrite for_stmt_app, for_stmt_map. unfold place_task at 1. simpl.
  destruct (for_stmt (place rel_pyi pyi_abs) pth_roots w); simpl; [apply IH | reflexivity].
Qed.

Lemma in_placements pyi_sources pth_roots rel_pyi pyi_abs root :
  In (rel_pyi, pyi_abs) pyi_sources -> In root pth_roots ->
  In (rel_pyi, pyi_abs, root) (placements pyi_sources pth_roots).
Proof.
  intros I R. unfold placements. apply in_flat_map.
  exists (rel_pyi, pyi_abs). split; [exact I|].
  apply in_map_iff. exists root. auto.
Qed.

Lemma placements_in pyi_sources pth_roots t :
  In t (placements pyi_sources pth_roots) ->
  In (fst t) pyi_sources /\ In (snd t) pth_roots.
Proof.
  unfold placements. intros I. apply in_flat_map in I.
  destruct I as [[rel abs] [I M]]. apply in_map_iff in M.
  destruct M as [root [<- R]]. auto.
Qed.

(** After a run that returned, every placement whose source was a
    regular file has an entry at its stub path. *)
Lemma placed_or_present tasks : forall w w',
  for_stmt place_task tasks w = Returned w' ->
  forall t, In t tasks ->
    isfile w (source_path (snd t) (fst (fst t))) = true ->
    exists k, lstat w' (stub_path (snd t) (fst (fst t))) = Ok k.
Proof.
  induction tasks as [|t0 tasks IH]; intros w w' H t I F; [destruct I|].
  simpl in H.
  pose proof (place_grows (fst (fst t0)) (snd (fst t0)) w (snd t0)) as G.
  fold (place_task w t0) in G.
  destruct (place_task w t0) as [w1|x w1] eqn:P; [|discriminate H]. simpl in *.
  pose proof (for_stmt_grows place_task
                (fun w a => place_grows _ _ w _) tasks w1) as G'.
  rewrite H in G'. simpl in G'.
  destruct I as [->|I].
  - clear IH. unfold place_task, place in P.
    unfold source_path in F. rewrite F in P. simpl in P.
    destruct (exists_ w _) eqn:X; simpl in P.
    + destruct (exists_lstat _ _ X) as [k L]. exists k.
      unfold stub_path. eapply lstat_mono; [|exact L].
      eapply grows_trans; eassumption.
    + destruct (relpath _ _ _) as [rel_link|]; [|discriminate P].
      unfold os_symlink in P.
      destruct (sys_symlink w rel_link _) as [w2|e] eqn:S; [|discriminate P].
      injection P as ->.
      destruct (sys_symlink_ok _ _ _ _ S) as [p [L [_ [K _]]]].
      exists (KSymlink rel_link). eapply lstat_mono; [exact G'|].
      unfold lstat, stub_path. rewrite (locate_mono _ _ _ _ G L), K. reflexivity.
  - eapply IH; [exact H | exact I |]. eapply isfile_mono; eassumption.
Qed.

Lemma join_snoc root s c :
  (s = "" /\ is_sep c = true) \/
  join root (s +++ String c "") = join root s +++ String c "".
Proof.
  unfold join. destruct s as [|a s].
  - cbn [append]. rewrite startswith_sep_cons.
    destruct (is_sep c); [left; auto | right].
    change (startswith "" "/") with false. cbn iota.
    destruct (is_empty root || endswith root "/");
      rewrite ?append_assoc, ?append_nil_r; reflexivity.
  - right. rewrite startswith_sep_append by discriminate.
    destruct (startswith (String a s) "/"); [reflexivity|].
    destruct (is_empty root || endswith root "/");
      rewrite ?append_assoc; reflexivity.
Qed.

(** A root that has the source as a regular file and no entry at the
    stub path offers a free location for the stub. *)
Lemma free_stub_location w root rel_pyi :
  isfile w (source_path root rel_pyi) = true ->
  lstat w (stub_path root rel_pyi) = Err ENOENT ->
  exists L, locate w (stub_path root rel_pyi) = Ok L /\ kind_at (FS.root w) L = None.
Proof.
  unfold isfile, stat, source_path, stub_path, lstat.
  destruct (resolve w (join root (drop_last rel_pyi))) as [q|] eqn:R; [|discriminate].
  destruct (kind_at (FS.root w) q) as [[content| |]|] eqn:K; try discriminate.
  intros _.
  destruct (locate w (join root rel_pyi)) as [L|e] eqn:Loc.
  - destruct (kind_at (FS.root w) L) eqn:KL; [discriminate | eauto].
  - intros [= ->]. exfalso.
    destruct (snoc_cases rel_pyi) as [-> | [s [c ->]]].
    + rewrite drop_last_empty in R.
      destruct (resolve_locate _ _ _ R) as [p [k [Lp _]]]. congruence.
    + rewrite drop_last_snoc in R.
      destruct (join_snoc root s c) as [[-> C] | J].
      * apply is_sep_true in C. subst c.
        assert (E : join root ("" +++ String sep "") = "/") by reflexivity.
        rewrite E in Loc. apply (locate_root w Loc).
      * rewrite J in Loc. destruct (is_sep c) eqn:C.
        -- apply is_sep_true in C. subst c.
           pose proof (resolve_file_slash _ _ _ _ R K) as RS.
           unfold locate in Loc. change (String sep "") with "/" in Loc.
           rewrite is_empty_append, split_snoc_sep, last_last in Loc.
           destruct (is_empty (join root s)); simpl in Loc; congruence.
        -- destruct (locate_beside_file _ _ _ _ c R K C) as [p Lp]. congruence.
Qed.

(** A root that has the source as a regular file and no entry at the
    stub path spells the stub path as the source path and one more
    character, which is not a separator. *)
Lemma stub_path_shape w root rel_pyi :
  isfile w (source_path root rel_pyi) = true ->
  lstat w (stub_path root rel_pyi) = Err ENOENT ->
  exists c0, stub_path root rel_pyi = source_path root rel_pyi +++ String c0 "" /\
             is_sep c0 = false.
Proof.
  intros S F.
  assert (X : exists_ w (source_path root rel_pyi) = true).
  { unfold isfile in S. unfold exists_.
    destruct (stat w (source_path root rel_pyi)); [reflexivity | discriminate S]. }
  unfold source_path, stub_path in *.
  destruct (snoc_cases rel_pyi) as [-> | [s [c ->]]].
  - rewrite drop_last_empty in X.
    destruct (exists_lstat _ _ X) as [k Lk]. congruence.
  - rewrite drop_last_snoc in *.
    destruct (join_snoc root s c) as [[-> C] | J].
    + exfalso. apply is_sep_true in C. subst c.
      assert (E : join root ("" +++ String sep "") = "/") by reflexivity.
      rewrite E in F. unfold lstat in F.
      destruct (locate w "/") as [L|e] eqn:Loc.
      * unfold locate, resolve, start_dir in Loc. simpl in Loc.
        destruct (kind_of (FS.root w)) eqn:KR; try discriminate Loc.
        injection Loc as <-. unfold kind_at in F. simpl in F.
        destruct (FS.root w); discriminate.
      * apply (@locate_root w). congruence.
    + rewrite J in *. destruct (is_sep c) eqn:C; [exfalso | eauto].
      apply is_sep_true in C. subst c.
      unfold isfile, stat in S.
      destruct (resolve w (join root s)) as [q|] eqn:R; [|discriminate S].
      destruct (kind_at (FS.root w) q) as [[content| |]|] eqn:K; try discriminate S.
      pose proof (resolve_file_slash _ _ _ _ R K) as RS.
      unfold lstat, locate in F. change (String sep "") with "/" in F.
      rewrite is_empty_append, split_snoc_sep, last_last in F.
      destruct (is_empty (join root s)); simpl in F; rewrite ?RS in F; congruence.
Qed.

(** The run of the placements puts, at a location that was free and
    that one placement with a present source names, the link of that
    placement, if every placement naming the location has the same stub
    path and source. *)
Lemma placed_link tasks : forall w w' L link pyi_abs,
  for_stmt place_task tasks w = Returned w' ->
  (forall t, In t tasks ->
     locate w' (stub_path (snd t) (fst (fst t))) = Ok L ->
     stub_path (snd t) (fst (fst t)) = link /\ snd (fst t) = pyi_abs) ->
  locate w link = Ok L ->
  kind_at (root w) L = None ->
  (exists t, In t tasks /\ stub_path (snd t) (fst (fst t)) = link /\
             isfile w (source_path (snd t) (fst (fst t))) = true) ->
  exists tgt,
    relpath (cwd w) pyi_abs (dirname link) = Some tgt /\
    kind_at (root w') L = Some (KSymlink tgt).
Proof.
  induction tasks as [|t0 tasks IH]; intros w w' L link pyi_abs H U Loc F [t [I [E S]]];
    [destruct I|].
  simpl in H.
  pose proof (place_grows (fst (fst t0)) (snd (fst t0)) w (snd t0)) as G.
  fold (place_task w t0) in G.
  destruct (place_task w t0) as [w1|x w1] eqn:P; [|discriminate H].
  simpl in G, H.
  pose proof (for_stmt_grows place_task
                (fun w a => place_grows _ _ w _) tasks w1) as G'.
  rewrite H in G'. simpl in G'.
  assert (U' : forall t, In t tasks ->
     locate w' (stub_path (snd t) (fst (fst t))) = Ok L ->
     stub_path (snd t) (fst (fst t)) = link /\ snd (fst t) = pyi_abs).
  { intros t' I'. apply U. right. exact I'. }
  unfold place_task, place in P.
  fold (source_path (snd t0) (fst (fst t0))) in P.
  fold (stub_path (snd t0) (fst (fst t0))) in P.
  destruct (isfile w (source_path (snd t0) (fst (fst t0)))
            && negb (exists_ w (stub_path (snd t0) (fst (fst t0))))) eqn:C.
  - destruct (relpath (cwd w) (snd (fst t0)) _) as [rl|] eqn:RP; [|discriminate P].
    unfold os_symlink in P.
    destruct (sys_symlink w rl _) as [w2|e] eqn:SY; [|discriminate P].
    injection P as ->.
    destruct (sys_symlink_ok _ _ _ _ SY) as [p0 [L0 [F0 [K0 [O0 _]]]]].
    destruct (list_eq_dec string_dec p0 L) as [->|NE].
    + assert (L' : locate w' (stub_path (snd t0) (fst (fst t0))) = Ok L).
      { eapply locate_mono; [|exact L0]. eapply grows_trans; eassumption. }
      destruct (U t0 (or_introl eq_refl) L') as [E1 E2].
      rewrite E1, E2 in RP. exists rl. split; [exact RP|].
      apply (proj2 G'). exact K0.
    + destruct (IH w1 w' L link pyi_abs H U') as [tgt [T1 T2]].
      * eapply locate_mono; eassumption.
      * rewrite O0 by congruence. exact F.
      * destruct I as [->|I].
        -- rewrite E in L0. congruence.
        -- exists t. repeat split; trivial. eapply isfile_mono; eassumption.
      * exists tgt. rewrite <- (proj1 G). auto.
  - injection P as <-.
    apply (IH w w' L link pyi_abs H U' Loc F).
    destruct I as [->|I]; [|eauto].
    rewrite S in C. simpl in C. apply negb_false_iff in C.
    destruct (exists_lstat _ _ C) as [k Lk].
    unfold lstat in Lk. rewrite E, Loc, F in Lk. discriminate.
Qed.

End LinkFacts.

(* ================================================================== *)
(** ** The roots of the [.pth] file *)

Module Roots.

Import Str PosixPath FS StrFacts PathFacts FSFacts Link LinkFacts Worlds Runs.

Lemma pth_roots_loop_acc w site_dir ls : forall acc,
  pth_roots_loop w site_dir ls acc =
  acc ++ flat_map (fun l => option_list (root_of_line w site_dir l)) ls.
Proof.
  induction ls as [|l ls IH]; intros acc; simpl; [symmetry; apply app_nil_r|].
  unfold root_of_line at 1.
  destruct (is_empty (strip l) || startswith (strip l) "#"); simpl; [apply IH|].
  destruct (isdir w (normpath (join site_dir (strip l)))); simpl; [|apply IH].
  rewrite IH, <- app_assoc. reflexivity.
Qed.

(** The loop of lines 41-47 as a filter: the stripped lines that are
    not empty and do not start with [#], joined and normalized, kept
    when they are directories. *)
Lemma pth_roots_filter w site_dir ls :
  pth_roots_loop w site_dir ls [] =
  filter (isdir w)
    (map (fun l => normpath (join site_dir l))
       (filter (fun l => negb (is_empty l || startswith l "#")) (map strip ls))).
Proof.
  rewrite pth_roots_loop_acc. simpl.
  induction ls as [|l ls IH]; simpl; [reflexivity|].
  unfold root_of_line at 1.
  destruct (is_empty (strip l) || startswith (strip l) "#"); simpl; [exact IH|].
  destruct (isdir w (normpath (join site_dir (strip l)))); simpl;
    [rewrite IH; reflexivity | exact IH].
Qed.

Example pth_roots_two_roots :
  read_lines two_roots (join site_packages "_aspect.pth")
    = Val ["# roots"; up4 +++ "A"; up4 +++ "B"] /\
  pth_roots_loop two_roots site_packages ["# roots"; up4 +++ "A"; up4 +++ "B"] []
    = ["/A"; "/B"].
Proof. split; vm_compute; reflexivity. Qed.

(** The normalization is lexical: behind the link [site-packages] the
    line [../r] is the sibling of the link, where [stat] would go to the
    sibling of the link's target. *)
Example pth_roots_lexical :
  glob_site_dirs linked_site "/venv" = [site_packages] /\
  pth_roots_loop linked_site site_packages ["../r"] [] = ["/venv/lib/python3/r"] /\
  resolve linked_site (join site_packages "../r") = Err ENOENT.
Proof. repeat split; vm_compute; reflexivity. Qed.

(** C9, as the code has it: the root list has one entry for each line
    that contributes a root, in line order; a directory that several
    lines name is in the list once for each of them. *)
Theorem pth_roots_per_line w site_dir ls :
  pth_roots_loop w site_dir ls []
    = flat_map (fun l => option_list (root_of_line w site_dir l)) ls /\
  forall r,
    count_occ string_dec (pth_roots_loop w site_dir ls []) r
    = List.length (filter (fun l => match root_of_line w site_dir l with
                                    | Some r' => String.eqb r' r
                                    | None => false
                                    end) ls).
Proof.
  rewrite pth_roots_loop_acc. simpl. split; [reflexivity|].
  intros r. induction ls as [|l ls IH]; simpl; [reflexivity|].
  rewrite count_occ_app, IH.
  destruct (root_of_line w site_dir l) as [r'|]; simpl; [|reflexivity].
  destruct (string_dec r' r) as [->|N].
  - rewrite String.eqb_refl. reflexivity.
  - apply String.eqb_neq in N. rewrite N. reflexivity.
Qed.

(** C9 fails as stated: two lines naming [/A] give the root list
    [/A, /A]. *)
Lemma pth_roots_repeated :
  read_lines repeated_line (join site_packages "_aspect.pth")
    = Val [up4 +++ "A"; up4 +++ "A"] /\
  pth_roots_loop repeated_line site_packages [up4 +++ "A"; up4 +++ "A"] []
    = ["/A"; "/A"] /\
  ~ NoDup (pth_roots_loop repeated_line site_packages [up4 +++ "A"; up4 +++ "A"] []).
Proof.
  split; [vm_compute; reflexivity|]. split; [vm_compute; reflexivity|].
  intros H. vm_compute in H. inversion H as [|x l NI _]; subst.
  apply NI. left. reflexivity.
Qed.

(** C6: when the list that [glob] returned is empty, or its first
    directory has no regular file [_aspect.pth], or no line of that file
    gives a root, the function returns with the file system as it was;
    for a home without wildcard the list is the one of
    [glob_site_dirs]. *)
Theorem colocate_nothing_to_do w site_dirs :
  site_dirs = [] \/
  (exists site_dir rest,
     site_dirs = site_dir :: rest /\
     (isfile w (join site_dir "_aspect.pth") = false \/
      exists ls, read_lines w (join site_dir "_aspect.pth") = Val ls /\
                 pth_roots_loop w site_dir ls [] = [])) ->
  colocate_from w site_dirs = Returned w /\
  forall virtualenv_home,
    has_magic virtualenv_home = false ->
    glob_site_dirs w virtualenv_home = site_dirs ->
    colocate_pyi_stubs w virtualenv_home = Returned w.
Proof.
  intros H.
  assert (C : colocate_from w site_dirs = Returned w).
  { unfold colocate_from, colocate_in.
    destruct H as [-> | [site_dir [rest [-> [F | [ls [R E]]]]]]]; [reflexivity | |].
    - rewrite F. reflexivity.
    - destruct (isfile w _); [|reflexivity]. simpl. rewrite R, E. reflexivity. }
  split; [exact C|].
  intros virtualenv_home _ G. unfold colocate_pyi_stubs. rewrite G. exact C.
Qed.

Lemma colocate_nothing_to_do_witness :
  colocate_pyi_stubs project "/old" = Returned project /\
  colocate_pyi_stubs bare_venv "/venv" = Returned bare_venv /\
  colocate_pyi_stubs dead_lines "/venv" = Returned dead_lines.
Proof.
  split; [|split].
  - apply (colocate_nothing_to_do project []); [left; reflexivity | | ];
      vm_compute; reflexivity.
  - apply (colocate_nothing_to_do bare_venv [site_packages]);
      [|vm_compute; reflexivity|vm_compute; reflexivity].
    right. exists site_packages, []. split; [reflexivity|].
    left. vm_compute. reflexivity.
  - apply (colocate_nothing_to_do dead_lines [site_packages]);
      [|vm_compute; reflexivity|vm_compute; reflexivity].
    right. exists site_packages, []. split; [reflexivity|].
    right. exists ["# nothing"; "   "; up4 +++ "missing"].
    split; vm_compute; reflexivity.
Defined.

(** The three ways to have nothing to do: the home [/old] is a
    directory without [lib], [bare_venv] has a match without
    [_aspect.pth] while [A] holds a stub, and the [_aspect.pth] of
    [dead_lines] names no directory. *)
Example nothing_to_do_cases :
  isdir project "/old" = true /\ glob_site_dirs project "/old" = [] /\
  glob_site_dirs bare_venv "/venv" = [site_packages] /\
  isfile bare_venv (join site_packages "_aspect.pth") = false /\
  glob_site_dirs dead_lines "/venv" = [site_packages] /\
  read_lines dead_lines (join site_packages "_aspect.pth")
    = Val ["# nothing"; "   "; up4 +++ "missing"].
Proof. repeat split; vm_compute; reflexivity. Qed.

Example colocate_without_pth_file :
  glob_site_dirs linked_site "/real" = [] /\
  glob_site_dirs two_roots "/venv" = [site_packages] /\
  isfile two_roots (join "/A" "_aspect.pth") = false.
Proof. repeat split; vm_compute; reflexivity. Qed.

(** In [two_pythons] the second match alone would have led to a link
    in [B]; the run on both matches changes nothing. *)
Example second_site_dir_ignored :
  colocate_pyi_stubs two_pythons "/venv" = Returned two_pythons /\
  lstat (state_of (colocate_in two_pythons "/venv/lib/python3.12/site-packages"))
        "/B/x.pyi" = Ok (KSymlink "../A/x.pyi").
Proof. split; vm_compute; reflexivity. Qed.

End Roots.

(* ================================================================== *)
(** ** The index of stubs *)

Module Index.

Import Str PosixPath FS StrFacts PathFacts FSFacts Link LinkFacts Worlds.

Lemma dict_get_app d d' k :
  dict_get (d ++ d') k = match dict_get d k with
                         | Some v => Some v
                         | None => dict_get d' k
                         end.
Proof.
  induction d as [|[k' v] d IH]; simpl; [reflexivity|].
  destruct (String.eqb k' k); [reflexivity | exact IH].
Qed.

Lemma dict_get_in d k v : dict_get d k = Some v -> In (k, v) d.
Proof.
  induction d as [|[k' v'] d IH]; simpl; [discriminate|].
  destruct (String.eqb k' k) eqn:E.
  - apply String.eqb_eq in E. intros [= ->]. left. congruence.
  - intros H. right. apply IH, H.
Qed.

Lemma dict_get_none d k : dict_get d k = None -> forall v, ~ In (k, v) d.
Proof.
  induction d as [|[k' v'] d IH]; simpl; [tauto|].
  destruct (String.eqb k' k) eqn:E; [discriminate|].
  intros H v [[= -> _]|I]; [rewrite String.eqb_refl in E; discriminate|].
  apply (IH H v I).
Qed.

(** Inserting if absent, entry after entry, keeps for each key the
    first value met. *)
Lemma dict_get_setdefaults es : forall d k,
  dict_get (fold_left setdefault_pair es d) k =
  match dict_get d k with
  | Some v => Some v
  | None => dict_get es k
  end.
Proof.
  induction es as [|[k' v'] es IH]; intros d k; simpl.
  - destruct (dict_get d k); reflexivity.
  - rewrite IH. unfold setdefault_pair, setdefault. simpl.
    destruct (dict_get d k') as [x|] eqn:E'.
    + destruct (dict_get d k) as [y|] eqn:E; [reflexivity|].
      destruct (String.eqb k' k) eqn:Ek; [|reflexivity].
      apply String.eqb_eq in Ek. congruence.
    + rewrite dict_get_app. simpl.
      destruct (dict_get d k); [reflexivity|].
      destruct (String.eqb k' k); reflexivity.
Qed.

Lemma endswith_nonempty fname : endswith fname ".pyi" = true -> is_empty fname = false.
Proof. destruct fname; [discriminate | reflexivity]. Qed.

Lemma join_nonempty a b : is_empty b = false -> is_empty (join a b) = false.
Proof.
  intros B. unfold join. destruct (startswith b "/"); [exact B|].
  destruct (is_empty a || endswith a "/"); rewrite !is_empty_append, B;
    simpl; apply andb_false_r.
Qed.

(** The loop over the file names of one directory never raises. *)
Lemma index_files w root dirpath filenames : forall d,
  for_each (index_file w root dirpath) filenames d =
  Val (fold_left setdefault_pair
         (flat_map (fun fname =>
                      if endswith fname ".pyi"
                      then [(relpath_body (cwd w) (join dirpath fname) root,
                             join dirpath fname)]
                      else []) filenames) d).
Proof.
  induction filenames as [|fname filenames IH]; intros d; simpl; [reflexivity|].
  unfold index_file at 1. destruct (endswith fname ".pyi") eqn:E; simpl.
  - unfold relpath.
    rewrite (join_nonempty dirpath fname (endswith_nonempty _ E)). simpl.
    apply IH.
  - apply IH.
Qed.

Lemma index_root_entries w root d :
  index_root w d root = Val (fold_left setdefault_pair (stub_entries w root) d).
Proof.
  unfold index_root, stub_entries. revert d.
  induction (os_walk w root) as [|[[dirpath dirnames] filenames] l IH];
    intros d; simpl; [reflexivity|].
  rewrite index_files. simpl. rewrite IH, fold_left_app. reflexivity.
Qed.

Lemma build_index_entries w pth_roots : forall d,
  for_each (index_root w) pth_roots d =
  Val (fold_left setdefault_pair (flat_map (stub_entries w) pth_roots) d).
Proof.
  induction pth_roots as [|r roots IH]; intros d; simpl; [reflexivity|].
  rewrite index_root_entries. simpl. rewrite IH, fold_left_app. reflexivity.
Qed.

Lemma stub_under_entries w root rel abs :
  stub_under w root rel abs <-> In (rel, abs) (stub_entries w root).
Proof.
  unfold stub_under, stub_entries. split.
  - intros [dirpath [dirnames [filenames [fname [I [F [E [A R]]]]]]]].
    apply in_flat_map. exists (dirpath, dirnames, filenames). split; [exact I|].
    apply in_flat_map. exists fname. split; [exact F|]. simpl. rewrite E.
    unfold relpath in R. destruct (is_empty abs); [discriminate|].
    injection R as <-. subst abs. left. reflexivity.
  - intros I. apply in_flat_map in I.
    destruct I as [[[dirpath dirnames] filenames] [I J]].
    apply in_flat_map in J. destruct J as [fname [F J]]. simpl in J.
    destruct (endswith fname ".pyi") eqn:E; [|destruct J].
    destruct J as [[= <- <-]|[]].
    exists dirpath, dirnames, filenames, fname. repeat split; trivial.
    unfold relpath. rewrite (join_nonempty dirpath fname (endswith_nonempty _ E)).
    reflexivity.
Qed.

(** The index does not depend on file contents. *)
Lemma build_index_same_shape w w' pth_roots :
  same_shape w w' -> build_index w pth_roots = build_index w' pth_roots.
Proof.
  intros H. unfold build_index. rewrite !build_index_entries. f_equal. f_equal.
  apply flat_map_ext. intros r. unfold stub_entries.
  rewrite (os_walk_same_shape _ _ r H). destruct H as [_ ->]. reflexivity.
Qed.

(** In a file system a root holds one stub at most at a relative
    path. *)
Lemma stub_under_unique w r rel abs1 abs2 :
  valid_names (root w) = true ->
  stub_under w r rel abs1 -> stub_under w r rel abs2 -> abs1 = abs2.
Proof.
  intros V.
  assert (P : forall abs, stub_under w r rel abs ->
            exists names, Forall (fun c => is_name c = true) names /\
                          abs = fold_left join names r /\
                          abs_parts (cwd w) (join r rel) = abs_parts (cwd w) abs).
  { intros abs [dirpath [dirnames [filenames [fname [I [F [_ [A R]]]]]]]].
    unfold os_walk in I.
    destruct (resolve w r) as [p|]; [|destruct I].
    destruct (lookup (root w) p) as [n|] eqn:L; [|destruct I].
    destruct (walk_node_paths w n r _ _ _ (lookup_valid _ _ _ V L) I)
      as [names [Fn [D Ff]]].
    rewrite Forall_forall in Ff. specialize (Ff fname F).
    exists (names ++ [fname]). repeat split.
    - apply Forall_app. split; [exact Fn | repeat constructor; exact Ff].
    - rewrite fold_left_app, <- D. exact A.
    - apply (relpath_roundtrip _ _ _ _ R). }
  intros S1 S2.
  destruct (P _ S1) as [n1 [F1 [E1 R1]]]. destruct (P _ S2) as [n2 [F2 [E2 R2]]].
  assert (E : abs_parts (cwd w) abs1 = abs_parts (cwd w) abs2) by congruence.
  rewrite E1, E2 in E. rewrite !abs_parts_join_names in E by assumption.
  apply app_inv_head in E. congruence.
Qed.

(** C1: the index pass returns, and for a relative stub path that some
    root holds, the index stores the absolute path of a copy under the
    first root, in root order, that holds it (the copy, where entries
    have names as in a file system); later roots, whatever their copies
    are, do not change the entry, and the index is the same whatever
    the files contain. *)
Theorem first_root_wins w pth_roots pre r post rel :
  pth_roots = pre ++ r :: post ->
  (forall r' abs', In r' pre -> ~ stub_under w r' rel abs') ->
  (exists abs0, stub_under w r rel abs0) ->
  exists pyi_sources abs,
    build_index w pth_roots = Val pyi_sources /\
    dict_get pyi_sources rel = Some abs /\
    stub_under w r rel abs /\
    (valid_names (root w) = true -> forall abs0, stub_under w r rel abs0 -> abs0 = abs) /\
    forall w', same_shape w w' -> build_index w' pth_roots = Val pyi_sources.
Proof.
  intros -> N [abs0 S].
  assert (B : build_index w (pre ++ r :: post)
              = Val (fold_left setdefault_pair
                       (flat_map (stub_entries w) (pre ++ r :: post)) [])).
  { unfold build_index. apply build_index_entries. }
  eexists. assert (G : exists abs,
    dict_get (flat_map (stub_entries w) (pre ++ r :: post)) rel = Some abs /\
    stub_under w r rel abs).
  { rewrite flat_map_app, dict_get_app. simpl. rewrite dict_get_app.
    destruct (dict_get (flat_map (stub_entries w) pre) rel) as [v|] eqn:E.
    - exfalso. apply dict_get_in, in_flat_map in E.
      destruct E as [r' [I J]]. apply (N r' v I). apply stub_under_entries, J.
    - destruct (dict_get (stub_entries w r) rel) as [abs|] eqn:E'.
      + exists abs. split; [reflexivity|]. apply stub_under_entries, dict_get_in, E'.
      + exfalso. apply (dict_get_none _ _ E' abs0). apply stub_under_entries, S. }
  destruct G as [abs [G1 G2]]. exists abs. split; [exact B|].
  split; [rewrite dict_get_setdefaults; simpl; exact G1|].
  split; [exact G2|]. split.
  - intros V abs1 S1. apply (stub_under_unique w r rel abs1 abs V S1 G2).
  - intros w' H. rewrite <- (build_index_same_shape _ _ _ H). exact B.
Qed.

Lemma first_root_wins_witness :
  exists pyi_sources abs,
    build_index shared_stub ["/C"; "/A"; "/B"] = Val pyi_sources /\
    dict_get pyi_sources "pkg/x.pyi" = Some abs /\
    stub_under shared_stub "/A" "pkg/x.pyi" abs /\
    (valid_names (root shared_stub) = true ->
     forall abs0, stub_under shared_stub "/A" "pkg/x.pyi" abs0 -> abs0 = abs) /\
    forall w', same_shape shared_stub w' ->
               build_index w' ["/C"; "/A"; "/B"] = Val pyi_sources.
Proof.
  apply (first_root_wins shared_stub ["/C"; "/A"; "/B"] ["/C"] "/A" ["/B"] "pkg/x.pyi").
  - reflexivity.
  - intros r' abs' [<-|[]] S. apply stub_under_entries in S. vm_compute in S. exact S.
  - exists "/A/pkg/x.pyi". apply stub_under_entries. vm_compute. left. reflexivity.
Defined.

Example shared_stub_index :
  valid_names (root shared_stub) = true /\
  build_index shared_stub ["/C"; "/A"; "/B"] = Val [("pkg/x.pyi", "/A/pkg/x.pyi")] /\
  build_index shared_stub ["/C"; "/B"; "/A"] = Val [("pkg/x.pyi", "/B/pkg/x.pyi")].
Proof. repeat split; vm_compute; reflexivity. Qed.

End Index.

(* ================================================================== *)
(** ** The synthesis pass *)

Module Synthesis.

Import Str PosixPath FS StrFacts PathFacts FSFacts Link LinkFacts Worlds.

(** C2, as the code has it: after a pass that returned, a root that had
    the sibling source as a regular file and no entry at the stub path
    has a link there; when no other pair of an indexed stub and a root
    names that same entry (no root lies inside or aliases another), the
    link is the one of this pair: its target is the path [relpath] gives
    from the directory of the link to the indexed source, it is
    relative, and joined to the directory of the link it has the
    components of the indexed source; where no symbolic link leads the
    directory of the link or the indexed source elsewhere, that joined
    path names the entry of the indexed source; and where the sibling
    source is reached without following a link and the indexed source
    spells the location of a regular file, the stub path resolves to
    that file, with its contents. *)
Theorem stub_link_created pyi_sources pth_roots w w' rel_pyi pyi_abs root :
  synthesize pyi_sources pth_roots w = Returned w' ->
  In (rel_pyi, pyi_abs) pyi_sources -> In root pth_roots ->
  isfile w (source_path root rel_pyi) = true ->
  lstat w (stub_path root rel_pyi) = Err ENOENT ->
  (exists target, lstat w' (stub_path root rel_pyi) = Ok (KSymlink target)) /\
  ((forall rel' abs' root',
      In (rel', abs') pyi_sources -> In root' pth_roots ->
      locate w' (stub_path root' rel') = locate w' (stub_path root rel_pyi) ->
      stub_path root' rel' = stub_path root rel_pyi /\ abs' = pyi_abs) ->
   exists tgt,
     lstat w' (stub_path root rel_pyi) = Ok (KSymlink tgt) /\
     relpath (cwd w) pyi_abs (dirname (stub_path root rel_pyi)) = Some tgt /\
     isabs tgt = false /\
     abs_parts (cwd w) (join (dirname (stub_path root rel_pyi)) tgt)
       = abs_parts (cwd w) pyi_abs /\
     (plain_dir w (dirname (stub_path root rel_pyi)) -> plain_entry w pyi_abs ->
      locate w' (join (dirname (stub_path root rel_pyi)) tgt) = locate w' pyi_abs) /\
     (forall content,
        direct w (source_path root rel_pyi) ->
        kind_at (FS.root w) (abs_parts (cwd w) pyi_abs) = Some (KFile content) ->
        stat w' (stub_path root rel_pyi) = Ok (KFile content))).
Proof.
  intros R I1 I2 S F.
  destruct (free_stub_location _ _ _ S F) as [L [Loc Free]].
  pose proof (synthesize_grows pyi_sources pth_roots w) as G.
  rewrite R in G. simpl in G.
  pose proof (locate_mono _ _ _ _ G Loc) as Loc'.
  rewrite synthesize_placements in R. split.
  - destruct (placed_or_present _ _ _ R (rel_pyi, pyi_abs, root)) as [k Lk].
    + apply in_placements; assumption.
    + exact S.
    + simpl in Lk. unfold lstat in *. rewrite Loc' in *.
      pose proof (placements_add_links (placements pyi_sources pth_roots) w L Free) as A.
      rewrite R in A. simpl in A.
      destruct A as [N | [t K]]; [rewrite N in Lk; discriminate|].
      exists t. rewrite K. reflexivity.
  - intros U.
    destruct (placed_link _ w w' L (stub_path root rel_pyi) pyi_abs R) as [tgt [T K]].
    + intros [[rel' abs'] root'] I E. simpl in *.
      apply placements_in in I. destruct I as [J1 J2]. simpl in *.
      apply (U rel' abs' root' J1 J2). congruence.
    + exact Loc.
    + exact Free.
    + exists (rel_pyi, pyi_abs, root). simpl.
      split; [apply in_placements; assumption | auto].
    + exists tgt. unfold lstat. rewrite Loc', K.
      destruct (relpath_roundtrip _ _ _ _ T) as [A B].
      repeat split; trivial.
      * intros PD PE.
        rewrite (locate_mono _ _ _ _ G (relative_target_names_source _ _ _ _ T PD PE)).
        symmetry. apply (locate_mono _ _ _ _ G PE).
      * intros content D Ka.
        destruct (stub_path_shape _ _ _ S F) as [c0 [E C0]].
        assert (Kp : exists c1, kind_at (FS.root w)
                       (abs_parts (cwd w) (source_path root rel_pyi)) = Some (KFile c1)).
        { unfold isfile, stat, resolve in S. unfold direct in D.
          destruct (is_empty (source_path root rel_pyi)); [discriminate S|].
          rewrite D in S.
          destruct (kind_at (FS.root w) (abs_parts (cwd w) (source_path root rel_pyi)))
            as [[c1| |]|]; try discriminate S.
          exists c1. reflexivity. }
        destruct Kp as [c1 Kp].
        rewrite E in *.
        apply (link_reaches_file w w' _ c0 pyi_abs tgt c1 content C0 D Kp T Ka G).
        unfold lstat. rewrite Loc', K. reflexivity.
Qed.

Lemma stub_link_created_witness :
  (exists target,
     lstat two_roots_done (stub_path "/B" "pkg/x.pyi") = Ok (KSymlink target)) /\
  (exists tgt,
    lstat two_roots_done (stub_path "/B" "pkg/x.pyi") = Ok (KSymlink tgt) /\
    relpath (cwd two_roots) "/A/pkg/x.pyi" (dirname (stub_path "/B" "pkg/x.pyi"))
      = Some tgt /\
    isabs tgt = false /\
    abs_parts (cwd two_roots) (join (dirname (stub_path "/B" "pkg/x.pyi")) tgt)
      = abs_parts (cwd two_roots) "/A/pkg/x.pyi" /\
    locate two_roots_done (join (dirname (stub_path "/B" "pkg/x.pyi")) tgt)
      = locate two_roots_done "/A/pkg/x.pyi") /\
  stat two_roots_done (stub_path "/B" "pkg/x.pyi") = Ok (KFile "stub").
Proof.
  destruct (stub_link_created [("pkg/x.pyi", "/A/pkg/x.pyi")] ["/A"; "/B"]
              two_roots two_roots_done "pkg/x.pyi" "/A/pkg/x.pyi" "/B") as [H1 H2].
  - vm_compute. reflexivity.
  - left. reflexivity.
  - right. left. reflexivity.
  - vm_compute. reflexivity.
  - vm_compute. reflexivity.
  - destruct H2 as [tgt [T1 [T2 [T3 [T4 [T5 T6]]]]]].
    + intros rel' abs' root' [E|[]] [<-|[<-|[]]]; injection E as <- <-.
      * vm_compute. discriminate.
      * intros _. split; reflexivity.
    + split; [exact H1|]. split.
      * exists tgt. repeat split; trivial.
        apply T5; [split|]; vm_compute; reflexivity.
      * apply T6; vm_compute; reflexivity.
Defined.

(** C2 fails as stated when a root lies inside another: in
    [nested_roots] the root [/A/sub] has the source [x.py] and no stub
    [x.pyi], the index maps [x.pyi] to [/D/x.pyi], and after the pass
    the link at [/A/sub/x.pyi] leads to [/C/sub/x.pyi], put there for
    the root [/A] and the indexed stub [sub/x.pyi].  It fails as well
    when the pass raises before it reaches a root (the root [/C] of
    [broken_stub]), and, for what the link resolves to, when the root is
    itself a link (the root [/B] of [linked_root]). *)
Lemma nested_root_gets_other_stub :
  (build_index nested_roots ["/A"; "/A/sub"; "/C"; "/D"]
     = Val [("sub/x.pyi", "/C/sub/x.pyi"); ("x.pyi", "/D/x.pyi")] /\
   synthesize [("sub/x.pyi", "/C/sub/x.pyi"); ("x.pyi", "/D/x.pyi")]
              ["/A"; "/A/sub"; "/C"; "/D"] nested_roots
     = Returned nested_roots_done /\
   isfile nested_roots (source_path "/A/sub" "x.pyi") = true /\
   lstat nested_roots (stub_path "/A/sub" "x.pyi") = Err ENOENT /\
   lstat nested_roots_done (stub_path "/A/sub" "x.pyi")
     = Ok (KSymlink "../../C/sub/x.pyi") /\
   abs_parts [] (join (dirname (stub_path "/A/sub" "x.pyi")) "../../C/sub/x.pyi")
     = ["C"; "sub"; "x.pyi"] /\
   abs_parts [] "/D/x.pyi" = ["D"; "x.pyi"] /\
   stat nested_roots_done (stub_path "/A/sub" "x.pyi") = Ok (KFile "c") /\
   stat nested_roots_done "/D/x.pyi" = Ok (KFile "d")) /\
  (build_index broken_stub ["/A"; "/B"; "/C"] = Val [("x.pyi", "/A/x.pyi")] /\
   synthesize [("x.pyi", "/A/x.pyi")] ["/A"; "/B"; "/C"] broken_stub
     = Raised (OSError EEXIST) broken_stub /\
   isfile broken_stub (source_path "/C" "x.pyi") = true /\
   lstat broken_stub (stub_path "/C" "x.pyi") = Err ENOENT) /\
  (build_index linked_root ["/A"; "/B"] = Val [("x.pyi", "/A/x.pyi")] /\
   synthesize [("x.pyi", "/A/x.pyi")] ["/A"; "/B"] linked_root
     = Returned linked_root_done /\
   isfile linked_root (source_path "/B" "x.pyi") = true /\
   lstat linked_root (stub_path "/B" "x.pyi") = Err ENOENT /\
   lstat linked_root_done (stub_path "/B" "x.pyi") = Ok (KSymlink "../A/x.pyi") /\
   stat linked_root_done (stub_path "/B" "x.pyi") = Err ENOENT).
Proof.
  repeat split; vm_compute; reflexivity.
Qed.

(** C4: an entry of any kind (regular file, directory, link, broken or
    not) that a root has at a relative stub path before the synthesis
    pass is still there, unchanged, when the pass ends, whether it
    returns or raises: no link is created over it. *)
Theorem existing_stub_entry_kept pyi_sources pth_roots w root rel_pyi k :
  lstat w (stub_path root rel_pyi) = Ok k ->
  lstat (state_of (synthesize pyi_sources pth_roots w)) (stub_path root rel_pyi) = Ok k.
Proof.
  intros L. eapply lstat_mono; [apply synthesize_grows | exact L].
Qed.

Lemma existing_stub_entry_kept_witness :
  lstat (state_of (synthesize [("x.pyi", "/A/x.pyi")] ["/A"; "/B"; "/C"] broken_stub))
        (stub_path "/B" "x.pyi") = Ok (KSymlink "nowhere").
Proof.
  apply (existing_stub_entry_kept [("x.pyi", "/A/x.pyi")] ["/A"; "/B"; "/C"]
           broken_stub "/B" "x.pyi" (KSymlink "nowhere")).
  vm_compute. reflexivity.
Defined.

Lemma place_task_raises w t x w' : place_task w t = Raised x w' -> w' = w.
Proof.
  unfold place_task, place.
  destruct (isfile w _ && negb (exists_ w _)); [|discriminate].
  destruct (relpath _ _ _); [|congruence].
  unfold os_symlink. destruct (sys_symlink _ _ _); congruence.
Qed.

(** C8: when a placement raises, the pass ends there with that
    exception, in the state the placements before it produced and the
    failed placement left as it was: the placements after it are not
    run. *)
Theorem first_error_aborts pyi_sources pth_roots w before t after x w1 w2 :
  placements pyi_sources pth_roots = before ++ t :: after ->
  for_stmt place_task before w = Returned w1 ->
  place_task w1 t = Raised x w2 ->
  synthesize pyi_sources pth_roots w = Raised x w1 /\ w2 = w1.
Proof.
  intros E B P. pose proof (place_task_raises _ _ _ _ P) as ->.
  rewrite synthesize_placements, E, for_stmt_app, B. simpl.
  rewrite P. auto.
Qed.

Lemma first_error_aborts_witness :
  synthesize [("x.pyi", "/A/x.pyi")] ["/A"; "/B"; "/C"] broken_stub
    = Raised (OSError EEXIST) broken_stub /\ broken_stub = broken_stub.
Proof.
  apply (first_error_aborts [("x.pyi", "/A/x.pyi")] ["/A"; "/B"; "/C"] broken_stub
           [("x.pyi", "/A/x.pyi", "/A")] ("x.pyi", "/A/x.pyi", "/B")
           [("x.pyi", "/A/x.pyi", "/C")] (OSError EEXIST) broken_stub broken_stub);
    vm_compute; reflexivity.
Defined.

(** A second run on the result of a first one changes nothing at a
    placement whose source the first run already saw as a file. *)
Lemma rerun_keeps_state tasks w' :
  (forall t, In t tasks ->
     isfile w' (source_path (snd t) (fst (fst t))) = true ->
     exists k, lstat w' (stub_path (snd t) (fst (fst t))) = Ok k) ->
  state_of (for_stmt place_task tasks w') = w'.
Proof.
  induction tasks as [|t tasks IH]; intros H; simpl; [reflexivity|].
  assert (P : place_task w' t = Returned w' \/ exists x, place_task w' t = Raised x w').
  { unfold place_task, place.
    destruct (isfile w' _) eqn:F; simpl; [|auto].
    destruct (exists_ w' _); simpl; [auto|].
    destruct (relpath _ _ _) as [rel_link|]; [|eauto].
    destruct (H t (or_introl eq_refl) F) as [k L].
    unfold os_symlink, stub_path in *.
    destruct (sys_symlink_exists w' rel_link _ k L) as [-> | ->]; eauto. }
  destruct P as [-> | [x ->]]; simpl; [|reflexivity].
  apply IH. intros t' I. apply H. right. exact I.
Qed.

(** C3, as the code has it: after a first run that returned, a second
    run of the pass with the same index and roots changes nothing in
    the file system, provided the first run made no sibling source path
    a regular file that was not one before. *)
Theorem second_run_changes_nothing pyi_sources pth_roots w w' :
  synthesize pyi_sources pth_roots w = Returned w' ->
  (forall rel_pyi pyi_abs root,
     In (rel_pyi, pyi_abs) pyi_sources -> In root pth_roots ->
     isfile w' (source_path root rel_pyi) = true ->
     isfile w (source_path root rel_pyi) = true) ->
  state_of (synthesize pyi_sources pth_roots w') = w'.
Proof.
  intros R S. rewrite synthesize_placements in *.
  apply rerun_keeps_state. intros [[rel_pyi pyi_abs] root] I F. simpl in *.
  apply placements_in in I. destruct I as [I1 I2]. simpl in *.
  apply (placed_or_present _ _ _ R (rel_pyi, pyi_abs, root)).
  - apply in_placements; assumption.
  - simpl. eapply S; eassumption.
Qed.

Lemma second_run_changes_nothing_witness :
  state_of (synthesize [("pkg/x.pyi", "/A/pkg/x.pyi")] ["/A"; "/B"] two_roots_done)
  = two_roots_done.
Proof.
  apply (second_run_changes_nothing [("pkg/x.pyi", "/A/pkg/x.pyi")] ["/A"; "/B"]
           two_roots two_roots_done).
  - vm_compute. reflexivity.
  - intros rel_pyi pyi_abs root [E|[]] [<-|[<-|[]]]; injection E as <- <-;
      vm_compute; trivial.
Defined.

(** C3 fails as stated: in [dangling_source] the first run puts the
    stub of [S] where the dangling source of [R] points, so the second
    run, with the same index or with the index built anew, finds a
    source in [R] and creates a link there. *)
Lemma second_run_creates_link :
  build_index dangling_source ["/R"; "/S"; "/T"] = Val [("x.pyi", "/T/x.pyi")] /\
  synthesize [("x.pyi", "/T/x.pyi")] ["/R"; "/S"; "/T"] dangling_source
    = Returned dangling_source_once /\
  synthesize [("x.pyi", "/T/x.pyi")] ["/R"; "/S"; "/T"] dangling_source_once
    = Returned dangling_source_twice /\
  dangling_source_twice <> dangling_source_once /\
  colocate_pyi_stubs dangling_source "/venv" = Returned dangling_source_once /\
  state_of (colocate_pyi_stubs dangling_source_once "/venv") <> dangling_source_once.
Proof.
  repeat split; try (vm_compute; reflexivity); vm_compute; discriminate.
Qed.

(** Behind a root that is a link the stub link dangles, so the second
    run finds no stub by [exists] and [symlink] raises: nothing is
    changed, but the run does not return. *)
Example second_run_raises :
  synthesize [("x.pyi", "/A/x.pyi")] ["/A"; "/B"] linked_root_done
  = Raised (OSError EEXIST) linked_root_done.
Proof. vm_compute. reflexivity. Qed.

End Synthesis.

(* ================================================================== *)
(** ** The link of the virtualenv *)

Module LinkStep.

Import Str PosixPath FS StrFacts PathFacts FSFacts Link LinkFacts Worlds.

Lemma up_to_date_iff w dest virtualenv_home :
  up_to_date w dest virtualenv_home = true <->
  exists_ w dest = true /\
  exists t, lstat w dest = Ok (KSymlink t) /\ Path_eqb t virtualenv_home = true.
Proof.
  unfold up_to_date, islink, sys_readlink. split.
  - intros H. apply andb_prop in H. destruct H as [H H3].
    apply andb_prop in H. destruct H as [H1 H2].
    destruct (lstat w dest) as [[|t|]|]; try discriminate. eauto.
  - intros [H1 [t [H2 H3]]]. rewrite H1, H2, H3. reflexivity.
Qed.

Lemma os_symlink_creates w target linkpath p :
  is_empty target = false ->
  locate w linkpath = Ok p -> kind_at (root w) p = None ->
  exists w', os_symlink w target linkpath = Returned w' /\
             lstat w' linkpath = Ok (KSymlink target) /\
             forall q, q <> p -> kind_at (root w') q = kind_at (root w) q.
Proof.
  intros T L K. unfold os_symlink.
  destruct (sys_symlink w target linkpath) as [w'|e] eqn:S.
  - destruct (sys_symlink_ok _ _ _ _ S) as [p' [L' [_ [K' [O G]]]]].
    assert (p' = p) by congruence. subst p'.
    exists w'. repeat split; trivial.
    unfold lstat. rewrite (locate_mono _ _ _ _ G L), K'. reflexivity.
  - unfold sys_symlink in S. rewrite T, L, K in S. discriminate.
Qed.

(** C5, as the code has it: when the destination resolves and is a link
    whose target is the environment home as a [Path], nothing is
    changed; otherwise, a regular file or a link (broken or not) at the
    destination is unlinked and the link to the home is created there,
    a free destination gets the link, and a directory at the
    destination is left as it is: [unlink] raises, and no link is
    created. *)
Theorem link_step_protocol w dest virtualenv_home :
  (up_to_date w dest virtualenv_home = true ->
   link_step w dest virtualenv_home = Returned w) /\
  (lstat w dest = Ok KDir ->
   link_step w dest virtualenv_home = Raised (OSError EISDIR) w) /\
  (lstat w dest = Err ENOENT ->
   link_step w dest virtualenv_home = os_symlink w virtualenv_home dest) /\
  (forall k, lstat w dest = Ok k -> k <> KDir ->
   up_to_date w dest virtualenv_home = false ->
   exists p w1,
     locate w dest = Ok p /\
     sys_unlink w dest = Ok w1 /\
     kind_at (root w1) p = None /\
     (forall q, q <> p -> kind_at (root w1) q = kind_at (root w) q) /\
     link_step w dest virtualenv_home = os_symlink w1 virtualenv_home dest /\
     (locate w1 dest = Ok p -> is_empty virtualenv_home = false ->
      exists w2,
        link_step w dest virtualenv_home = Returned w2 /\
        lstat w2 dest = Ok (KSymlink virtualenv_home) /\
        forall q, q <> p -> kind_at (root w2) q = kind_at (root w) q)).
Proof.
  repeat split.
  - unfold link_step. intros ->. reflexivity.
  - intros L. unfold link_step.
    assert (U : up_to_date w dest virtualenv_home = false).
    { unfold up_to_date, islink. rewrite L, andb_false_r. reflexivity. }
    rewrite U, L. unfold os_unlink, sys_unlink.
    unfold lstat in L. destruct (locate w dest) as [p|]; [|discriminate].
    destruct (kind_at (root w) p) as [[| |]|]; try discriminate. reflexivity.
  - intros L. unfold link_step.
    assert (U : up_to_date w dest virtualenv_home = false).
    { unfold up_to_date, islink. rewrite L, andb_false_r. reflexivity. }
    rewrite U, L. reflexivity.
  - intros k L N U. unfold link_step. rewrite U, L.
    assert (S : exists w1, sys_unlink w dest = Ok w1).
    { unfold sys_unlink. unfold lstat in L.
      destruct (locate w dest) as [p|]; [|discriminate].
      destruct (kind_at (root w) p) as [[| |]|]; try discriminate; eauto.
      congruence. }
    destruct S as [w1 S].
    destruct (sys_unlink_ok _ _ _ S) as [p [k' [Lp [K [_ [F [O C]]]]]]].
    exists p, w1. unfold os_unlink. rewrite S. simpl.
    repeat split; trivial.
    intros L1 H.
    destruct (os_symlink_creates w1 virtualenv_home dest p H L1 F) as [w2 [E [L2 O2]]].
    exists w2. repeat split; trivial.
    intros q Q. rewrite O2, O by exact Q. reflexivity.
Qed.

Lemma link_step_protocol_witness :
  exists w2,
    link_step project (dest_path "/src" ".venv") "/venv" = Returned w2 /\
    lstat w2 (dest_path "/src" ".venv") = Ok (KSymlink "/venv") /\
    forall q, q <> ["src"; ".venv"] -> kind_at (root w2) q = kind_at (root project) q.
Proof.
  destruct (link_step_protocol project (dest_path "/src" ".venv") "/venv")
    as [_ [_ [_ H]]].
  destruct (H (KSymlink "/old")) as [p [w1 [L [S [_ [_ [_ C]]]]]]].
  - vm_compute. reflexivity.
  - discriminate.
  - vm_compute. reflexivity.
  - vm_compute in L. injection L as <-.
    vm_compute in S. injection S as <-.
    apply C; vm_compute; reflexivity.
Defined.

(** C5 fails as stated for a directory at the destination: it is not
    removed and no link is made; the step raises [IsADirectoryError]. *)
Lemma link_step_keeps_directory :
  lstat project (dest_path "/src" "build") = Ok KDir /\
  up_to_date project (dest_path "/src" "build") "/venv" = false /\
  link_step project (dest_path "/src" "build") "/venv"
    = Raised (OSError EISDIR) project.
Proof. repeat split; vm_compute; reflexivity. Qed.

Example link_step_fresh :
  lstat (state_of (link_step project "/src/env" "/venv")) "/src/env"
    = Ok (KSymlink "/venv").
Proof. vm_compute. reflexivity. Qed.

Example link_step_replaces_file :
  lstat (state_of (link_step project "notes" "/venv")) "/src/notes"
    = Ok (KSymlink "/venv").
Proof. vm_compute. reflexivity. Qed.

Example link_step_up_to_date :
  link_step (state_of (link_step project "/src/.venv" "/venv")) "/src/.venv" "/venv"
  = Returned (state_of (link_step project "/src/.venv" "/venv")) /\
  Path_eqb "/venv/./" "/venv" = true.
Proof. split; vm_compute; reflexivity. Qed.

End LinkStep.
(* ================================================================== *)
(** ** Facts about the string operations of the script *)

Module ScriptFacts.

Import Str PosixPath FS StrFacts PathFacts Link Script.

Lemma has_char_sep s : has_char sep s = has_sep s.
Proof.
  induction s as [|a s IH]; simpl; [reflexivity|].
  rewrite IH. reflexivity.
Qed.

Lemma has_char_append c s t : has_char c (s +++ t) = has_char c s || has_char c t.
Proof.
  induction s as [|a s IH]; simpl; [reflexivity|].
  rewrite IH, orb_assoc. reflexivity.
Qed.

Lemma replace_char_append o n s t :
  replace_char o n (s +++ t) = replace_char o n s +++ replace_char o n t.
Proof.
  induction s as [|a s IH]; simpl; [reflexivity | rewrite IH; reflexivity].
Qed.

Lemma replace_char_length o n s :
  String.length (replace_char o n s) = String.length s.
Proof.
  induction s as [|a s IH]; simpl; [reflexivity | rewrite IH; reflexivity].
Qed.

(** Replacing a character leaves none of it, unless it is replaced by
    itself. *)
Lemma replace_char_gone o n s : o <> n -> has_char o (replace_char o n s) = false.
Proof.
  intros D. induction s as [|a s IH]; simpl; [reflexivity|].
  rewrite IH, orb_false_r.
  destruct (Ascii.eqb a o) eqn:E.
  - apply Ascii.eqb_neq. congruence.
  - exact E.
Qed.

(** A text without the character is left as it is. *)
Lemma replace_char_absent o n s : has_char o s = false -> replace_char o n s = s.
Proof.
  induction s as [|a s IH]; simpl; [reflexivity|].
  intros H. apply orb_false_iff in H. destruct H as [E H].
  rewrite E, IH by exact H. reflexivity.
Qed.

(** On texts without the new character the replacement can be undone. *)
Lemma replace_char_inj o n s : forall t,
  has_char n s = false -> has_char n t = false ->
  replace_char o n s = replace_char o n t -> s = t.
Proof.
  induction s as [|a s IH]; intros [|b t] Hs Ht E; simpl in *;
    try discriminate; [reflexivity|].
  apply orb_false_iff in Hs. destruct Hs as [Ha Hs].
  apply orb_false_iff in Ht. destruct Ht as [Hb Ht].
  injection E as E1 E2. f_equal; [|apply IH; assumption].
  apply Ascii.eqb_neq in Ha. apply Ascii.eqb_neq in Hb.
  destruct (Ascii.eqb a o) eqn:Ea; destruct (Ascii.eqb b o) eqn:Eb.
  - apply Ascii.eqb_eq in Ea. apply Ascii.eqb_eq in Eb. congruence.
  - congruence.
  - congruence.
  - exact E1.
Qed.

Lemma replace_char_empty o n s : is_empty (replace_char o n s) = is_empty s.
Proof. destruct s; reflexivity. Qed.

(** What [lstrip] leaves does not start with a stripped character. *)
Lemma lstrip_chars_head chars s a r :
  lstrip_chars chars s = String a r -> has_char a chars = false.
Proof.
  induction s as [|b s IH]; simpl; [discriminate|].
  destruct (has_char b chars) eqn:E; [exact IH|].
  intros [= <- _]. exact E.
Qed.

Lemma lstrip_chars_fixed chars s :
  match s with
  | EmptyString => True
  | String a _ => has_char a chars = false
  end -> lstrip_chars chars s = s.
Proof.
  destruct s as [|a s]; simpl; [reflexivity|]. intros ->. reflexivity.
Qed.

Lemma lstrip_chars_idem chars s :
  lstrip_chars chars (lstrip_chars chars s) = lstrip_chars chars s.
Proof.
  apply lstrip_chars_fixed.
  destruct (lstrip_chars chars s) as [|a r] eqn:E; [exact I|].
  apply (lstrip_chars_head _ _ _ _ E).
Qed.

(** What [lstrip] leaves is the end of the text. *)
Lemma lstrip_chars_suffix chars s :
  exists pre, s = pre +++ lstrip_chars chars s.
Proof.
  induction s as [|a s [pre IH]]; simpl; [exists ""; reflexivity|].
  destruct (has_char a chars).
  - exists (String a pre). simpl. rewrite <- IH. reflexivity.
  - exists "". reflexivity.
Qed.

Lemma lstrip_chars_no_char c chars s :
  has_char c s = false -> has_char c (lstrip_chars chars s) = false.
Proof.
  intros H. destruct (lstrip_chars_suffix chars s) as [pre E].
  rewrite E, has_char_append in H. apply orb_false_iff in H. tauto.
Qed.

Lemma lstrip_dots_empty s : lstrip_chars "." s = "" <-> all_char "." s = true.
Proof.
  induction s as [|a s IH]; [simpl; tauto|].
  cbn [lstrip_chars all_char has_char]. rewrite orb_false_r, (Ascii.eqb_sym "." a).
  destruct (Ascii.eqb a "."); cbn [andb]; [exact IH|].
  split; discriminate.
Qed.

Lemma append_empty s t : s +++ t = "" -> s = "" /\ t = "".
Proof. destruct s; [auto | discriminate]. Qed.

Lemma append_inv_head s t u : s +++ t = s +++ u -> t = u.
Proof.
  induction s as [|a s IH]; simpl; [auto|]. intros [= E]. exact (IH E).
Qed.

(** Two texts cut at a character that their second parts do not hold
    are cut at the same place. *)
Lemma append_char_inj c s : forall s' t t',
  has_char c t = false -> has_char c t' = false ->
  s +++ String c t = s' +++ String c t' -> s = s' /\ t = t'.
Proof.
  induction s as [|a s IH]; intros [|b s'] t t' Ht Ht' E; simpl in *.
  - injection E as E. auto.
  - injection E as <- E. rewrite E, has_char_append in Ht.
    simpl in Ht. rewrite Ascii.eqb_refl, orb_true_r in Ht. discriminate.
  - injection E as -> E. rewrite <- E, has_char_append in Ht'.
    simpl in Ht'. rewrite Ascii.eqb_refl, orb_true_r in Ht'. discriminate.
  - injection E as -> E. destruct (IH s' t t' Ht Ht' E) as [-> ->]. auto.
Qed.

Lemma startswith_cons c s : startswith (String c s) (String c "") = true.
Proof.
  unfold startswith. cbn [prefix].
  destruct (ascii_dec c c) as [_|N]; [destruct s; reflexivity | congruence].
Qed.

(** [basename] holds no separator. *)
Lemma basename_no_sep p : has_sep (basename p) = false.
Proof.
  unfold basename.
  destruct (last_sep_cases p) as [H | [a [n [-> H]]]].
  - rewrite (rfind_no_sep _ H), Nat.sub_0_r, substring_all. exact H.
  - rewrite (rfind_app _ _ H).
    change (a +++ String sep n) with (a +++ (String sep "" +++ n)).
    rewrite <- append_assoc.
    replace (S (String.length a)) with (String.length (a +++ String sep ""))
      by (rewrite length_append; simpl; lia).
    replace (String.length ((a +++ String sep "") +++ n)
             - String.length (a +++ String sep ""))
      with (String.length n) by (rewrite (length_append (a +++ String sep "")); lia).
    rewrite substring_suffix. exact H.
Qed.

Lemma munge_venv_name_eq tp n :
  munge_venv_name tp n =
  String "." ((if is_empty (or_empty tp) then ""
               else replace_char "/" "+" (or_empty tp) +++ "+")
              +++ lstrip_chars "." n).
Proof.
  unfold munge_venv_name. rewrite replace_char_empty.
  destruct (or_empty tp); reflexivity.
Qed.

Lemma munge_venv_name_no_sep tp n :
  has_sep n = false -> has_sep (munge_venv_name tp n) = false.
Proof.
  intros H. rewrite munge_venv_name_eq.
  rewrite <- !has_char_sep in *.
  cbn [has_char]. rewrite has_char_append.
  rewrite (lstrip_chars_no_char _ _ _ H), orb_false_r.
  change (Ascii.eqb "." sep) with false. cbn [orb].
  destruct (is_empty (or_empty tp)); [reflexivity|].
  rewrite has_char_append, replace_char_gone by discriminate. reflexivity.
Qed.

Lemma munge_venv_name_not_pardir tp n : munge_venv_name tp n <> "..".
Proof.
  rewrite munge_venv_name_eq. intros [= E].
  destruct (is_empty (or_empty tp)).
  - simpl in E. apply lstrip_chars_head in E. discriminate E.
  - destruct (or_empty tp) as [|a [|b r]]; simpl in E; discriminate E.
Qed.

Lemma munge_venv_name_is_dot tp n :
  munge_venv_name tp n = "." <-> or_empty tp = "" /\ all_char "." n = true.
Proof.
  rewrite munge_venv_name_eq, <- lstrip_dots_empty. split.
  - intros [= E]. apply append_empty in E. destruct E as [E ->].
    split; [|reflexivity].
    destruct (or_empty tp); [reflexivity | discriminate E].
  - intros [-> ->]. reflexivity.
Qed.

End ScriptFacts.

(* ================================================================== *)
(** ** The link name: [munge_venv_name] *)

Module Naming.

Import Str PosixPath FS StrFacts PathFacts Link Script ScriptFacts.

(** X1, lines 75-80: for a name without separator, as [basename] gives, the
    link name is one path component that starts with a dot, whatever
    the package: the separators of the package are replaced. *)
Theorem munge_venv_name_component tp n :
  has_sep n = false ->
  startswith (munge_venv_name tp n) "." = true /\
  has_sep (munge_venv_name tp n) = false.
Proof.
  intros H. split; [|apply munge_venv_name_no_sep, H].
  rewrite munge_venv_name_eq. apply startswith_cons.
Qed.

Lemma munge_venv_name_component_witness :
  startswith (munge_venv_name (Some "app/svc") ".venv") "." = true /\
  has_sep (munge_venv_name (Some "app/svc") ".venv") = false.
Proof.
  apply (munge_venv_name_component (Some "app/svc") ".venv"). reflexivity.
Defined.

(** X2, lines 75-80: the link name is never [..], and it is [.], the
    directory itself, exactly when there is no package and the name of
    the virtualenv is empty or made of dots. *)
Theorem munge_venv_name_dot tp n :
  munge_venv_name tp n <> ".." /\
  (munge_venv_name tp n = "." <-> or_empty tp = "" /\ all_char "." n = true).
Proof.
  split; [apply munge_venv_name_not_pardir | apply munge_venv_name_is_dot].
Qed.

(** X3, lines 75-80: without a package, a link name is kept as it is: the
    leading dots of the name are dropped before the one dot is put. *)
Theorem munge_venv_name_idempotent n :
  munge_venv_name None (munge_venv_name None n) = munge_venv_name None n /\
  munge_venv_name (Some "") (munge_venv_name (Some "") n) = munge_venv_name (Some "") n.
Proof.
  assert (E : forall m, lstrip_chars "." (String "." m) = lstrip_chars "." m)
    by reflexivity.
  split; rewrite !munge_venv_name_eq; simpl is_empty; cbn iota;
    change ("" +++ lstrip_chars "." n) with (lstrip_chars "." n);
    rewrite E; cbn [append]; rewrite lstrip_chars_idem; reflexivity.
Qed.

(** X4, lines 75-80: for packages and names without [+], the names not
    starting with a dot, different targets get different link names. *)
Theorem munge_venv_name_injective p1 n1 p2 n2 :
  has_char "+" p1 = false -> has_char "+" p2 = false ->
  has_char "+" n1 = false -> has_char "+" n2 = false ->
  startswith n1 "." = false -> startswith n2 "." = false ->
  munge_venv_name (Some p1) n1 = munge_venv_name (Some p2) n2 ->
  p1 = p2 /\ n1 = n2.
Proof.
  intros P1 P2 N1 N2 D1 D2.
  assert (L : forall n, startswith n "." = false -> lstrip_chars "." n = n).
  { intros n D. apply lstrip_chars_fixed. destruct n as [|a n]; [exact I|].
    cbn [has_char]. rewrite orb_false_r.
    unfold startswith in D. cbn [prefix] in D.
    destruct (ascii_dec "." a) as [<-|NE]; [destruct n; discriminate D|].
    apply Ascii.eqb_neq. exact NE. }
  rewrite !munge_venv_name_eq, (L _ D1), (L _ D2). cbn [or_empty].
  intros [= E].
  destruct (is_empty p1) eqn:E1; destruct (is_empty p2) eqn:E2.
  - apply is_empty_true in E1. apply is_empty_true in E2. subst. auto.
  - exfalso. simpl in E. rewrite E, append_assoc, has_char_append in N1.
    simpl in N1. rewrite orb_true_r in N1. discriminate.
  - exfalso. simpl in E. rewrite <- E, append_assoc, has_char_append in N2.
    simpl in N2. rewrite orb_true_r in N2. discriminate.
  - rewrite !append_assoc in E. simpl in E.
    apply append_char_inj in E; trivial. destruct E as [E ->].
    split; [|reflexivity].
    apply (replace_char_inj "/" "+"); assumption.
Qed.

Lemma munge_venv_name_injective_witness :
  "app/svc" = "app/svc" /\ "venv" = "venv".
Proof.
  apply (munge_venv_name_injective "app/svc" "venv" "app/svc" "venv"); reflexivity.
Defined.

End Naming.
(* ================================================================== *)
(** ** The environment of the script *)

Module Environment.

Import Str PosixPath FS StrFacts PathFacts Link Script ScriptFacts Worlds Runs.

Lemma prefix_nil s : prefix "" s = true.
Proof. destruct s; reflexivity. Qed.

Lemma prefix_append sp b : prefix sp (sp +++ b) = true.
Proof.
  induction sp as [|a sp IH]; [apply prefix_nil|].
  cbn [append prefix]. destruct (ascii_dec a a) as [_|N]; [exact IH | congruence].
Qed.

Lemma prefix_skip sp : forall s,
  prefix sp s = true -> s = sp +++ skip (String.length sp) s.
Proof.
  induction sp as [|a sp IH]; intros s H; [reflexivity|].
  destruct s as [|b s]; [discriminate H|].
  cbn [prefix] in H. destruct (ascii_dec a b) as [<-|]; [|discriminate H].
  cbn [String.length skip append]. rewrite <- (IH s H). reflexivity.
Qed.

Lemma skip_append sp b : skip (String.length sp) (sp +++ b) = b.
Proof. induction sp as [|a sp IH]; [reflexivity | exact IH]. Qed.

(** [find_first] cuts the text at an occurrence. *)
Lemma find_first_some sp : forall s before after,
  find_first sp s = Some (before, after) -> s = before +++ sp +++ after.
Proof.
  induction s as [|a s IH]; intros before after H.
  - cbn [find_first] in H. destruct sp as [|x sp]; cbn [prefix] in H; [|discriminate H].
    injection H as <- <-. reflexivity.
  - cbn [find_first] in H.
    destruct (prefix sp (String a s)) eqn:P.
    + injection H as <- <-. apply (prefix_skip _ _ P).
    + destruct (find_first sp s) as [[b c]|]; [|discriminate H].
      injection H as <- <-. cbn [append]. rewrite <- (IH b c eq_refl). reflexivity.
Qed.

(** It finds none only in a text that holds none. *)
Lemma find_first_none sp : forall s,
  find_first sp s = None -> forall a b, s <> a +++ sp +++ b.
Proof.
  induction s as [|c s IH]; intros H a b E.
  - destruct a; [|discriminate E].
    destruct sp; [discriminate H | discriminate E].
  - cbn [find_first] in H.
    destruct (prefix sp (String c s)) eqn:P; [discriminate H|].
    destruct (find_first sp s) as [[x y]|] eqn:F; [discriminate H|].
    destruct a as [|c' a].
    + cbn [append] in E. rewrite E, prefix_append in P. discriminate P.
    + cbn [append] in E. injection E as _ E. exact (IH eq_refl a b E).
Qed.

Lemma find_first_eq sp s :
  find_first sp s =
  if prefix sp s then Some ("", skip (String.length sp) s)
  else match s with
       | EmptyString => None
       | String a s' =>
           match find_first sp s' with
           | Some (before, after) => Some (String a before, after)
           | None => None
           end
       end.
Proof. destruct s; reflexivity. Qed.

(** The first [//] after a text without separator. *)
Lemma find_first_after_repo repo rest :
  has_sep repo = false ->
  find_first "//" (repo +++ "//" +++ rest) = Some (repo, rest).
Proof.
  induction repo as [|a repo IH]; intros H.
  - change ("" +++ "//" +++ rest) with ("//" +++ rest).
    rewrite find_first_eq, prefix_append, skip_append. reflexivity.
  - cbn [has_sep] in H. apply orb_false_iff in H. destruct H as [A H].
    change (String a repo +++ "//" +++ rest) with (String a (repo +++ "//" +++ rest)).
    rewrite find_first_eq, (IH H). cbn [prefix].
    destruct (ascii_dec "/" a) as [<-|_]; [discriminate A | reflexivity].
Qed.

Lemma split_on_not_nil c s : split_on c s <> [].
Proof.
  destruct s as [|a s]; cbn [split_on]; [discriminate|].
  destruct (Ascii.eqb a c); [discriminate|].
  destruct (split_on c s); discriminate.
Qed.

Lemma split_on_absent c s : has_char c s = false -> split_on c s = [s].
Proof.
  induction s as [|a s IH]; [reflexivity|].
  cbn [has_char split_on]. intros H. apply orb_false_iff in H.
  destruct H as [-> H]. rewrite (IH H). reflexivity.
Qed.

Lemma split_on_app c a b :
  split_on c (a +++ String c b) = split_on c a ++ split_on c b.
Proof.
  induction a as [|x a IH]; cbn [append split_on].
  - rewrite Ascii.eqb_refl. reflexivity.
  - rewrite IH. destruct (Ascii.eqb x c); [reflexivity|].
    destruct (split_on c a) eqn:E; [|reflexivity].
    destruct (split_on_not_nil _ _ E).
Qed.

(** [split] gives one part more than the text holds separators. *)
Lemma split_on_length c s : List.length (split_on c s) = S (count_char c s).
Proof.
  induction s as [|a s IH]; [reflexivity|].
  cbn [split_on count_char]. destruct (Ascii.eqb a c).
  - cbn [List.length]. rewrite IH. reflexivity.
  - destruct (split_on c s) as [|h t] eqn:E; [destruct (split_on_not_nil _ _ E)|].
    cbn [List.length] in *. rewrite IH. reflexivity.
Qed.

Lemma split_on_sep s : split_on sep s = split s.
Proof.
  induction s as [|a s IH]; [reflexivity|].
  cbn [split_on split]. unfold is_sep. rewrite IH. reflexivity.
Qed.

(** X5, line 88: a label [repo//package:name], the repository part without
    separator and no colon in the package and the name, is taken apart
    into the package and the name. *)
Theorem parse_target_label repo package name :
  has_sep repo = false ->
  has_char ":" package = false -> has_char ":" name = false ->
  parse_target (repo +++ "//" +++ package +++ ":" +++ name) = Value (package, name).
Proof.
  intros R P N. unfold parse_target, split_once.
  rewrite (find_first_after_repo repo _ R). cbn [nth_error].
  change (package +++ ":" +++ name) with (package +++ String ":" name).
  rewrite split_on_app, (split_on_absent _ _ P), (split_on_absent _ _ N).
  reflexivity.
Qed.

Lemma parse_target_label_witness :
  parse_target ("@@" +++ "//" +++ "app/svc" +++ ":" +++ "venv") = Value ("app/svc", "venv").
Proof.
  apply (parse_target_label "@@" "app/svc" "venv"); reflexivity.
Defined.

(** X6, line 88: a label without [//] ends the script with [IndexError],
    and only such a label does; a label whose text after the first
    [//] does not hold exactly one colon ends it with [ValueError]:
    the short form [//package] of a label is not accepted. *)
Theorem parse_target_rejects label :
  (parse_target label = Throw IndexError <->
   forall a b, label <> a +++ "//" +++ b) /\
  (forall repo rest,
     has_sep repo = false -> label = repo +++ "//" +++ rest ->
     count_char ":" rest <> 1 ->
     parse_target label = Throw (Other ValueError)).
Proof.
  split.
  - unfold parse_target, split_once. split.
    + destruct (find_first "//" label) as [[b c]|] eqn:F.
      * cbn [nth_error].
        destruct (split_on ":" c) as [|x [|y [|z l]]]; discriminate.
      * intros _. apply (find_first_none _ _ F).
    + intros H. destruct (find_first "//" label) as [[b c]|] eqn:F; [|reflexivity].
      destruct (H b c). apply (find_first_some _ _ _ _ F).
  - intros repo rest R -> C. unfold parse_target, split_once.
    rewrite (find_first_after_repo repo _ R). cbn [nth_error].
    pose proof (split_on_length ":" rest) as L.
    destruct (split_on ":" rest) as [|x [|y [|z l]]]; try reflexivity.
    cbn [List.length] in L. lia.
Qed.

Lemma parse_target_rejects_witness :
  parse_target "//app/svc" = Throw (Other ValueError).
Proof.
  destruct (parse_target_rejects "//app/svc") as [_ H].
  apply (H "" "app/svc"); [reflexivity | reflexivity | discriminate].
Defined.

Lemma read_environ_value environ s :
  read_environ environ = Value s ->
  exists home runfiles build label,
    dict_get environ "VIRTUAL_ENV" = Some home /\
    dict_get environ "RUNFILES_DIR" = Some runfiles /\
    dict_get environ "BUILD_WORKING_DIRECTORY" = Some build /\
    dict_get environ "BAZEL_TARGET" = Some label /\
    parse_target label = Value (target_package s, target_name s) /\
    virtualenv_home s = normpath home /\
    virtualenv_name s = basename (normpath home) /\
    runfiles_dir s = normpath runfiles /\
    builddir s = normpath build.
Proof.
  unfold read_environ, environ_get.
  destruct (dict_get environ "VIRTUAL_ENV") as [home|]; [|discriminate].
  destruct (dict_get environ "RUNFILES_DIR") as [runfiles|]; [|discriminate].
  destruct (dict_get environ "BUILD_WORKING_DIRECTORY") as [build|]; [|discriminate].
  destruct (dict_get environ "BAZEL_TARGET") as [label|]; [|discriminate].
  cbn [pure_bind].
  destruct (parse_target label) as [[p n]|e] eqn:PT; [|discriminate].
  cbn [pure_bind fst snd]. intros [= <-]. cbn.
  exists home, runfiles, build, label. repeat split; trivial.
Qed.

(** X7, lines 84-88: the four variables are read before anything else is
    done; when one of them is not set the script ends with the
    [KeyError] of a variable that is not set and the file system is as
    it was, also when [--dest] and [--name] are given and no default is
    needed. *)
Theorem main_needs_environ environ given w key :
  In key ["VIRTUAL_ENV"; "RUNFILES_DIR"; "BUILD_WORKING_DIRECTORY"; "BAZEL_TARGET"] ->
  dict_get environ key = None ->
  exists missing,
    dict_get environ missing = None /\
    main environ given w = Die (KeyError missing) w.
Proof.
  intros I N. unfold main, read_environ, environ_get.
  destruct (dict_get environ "VIRTUAL_ENV") as [home|] eqn:E1;
    [|exists "VIRTUAL_ENV"; auto].
  destruct (dict_get environ "RUNFILES_DIR") as [runfiles|] eqn:E2;
    [|exists "RUNFILES_DIR"; auto].
  destruct (dict_get environ "BUILD_WORKING_DIRECTORY") as [build|] eqn:E3;
    [|exists "BUILD_WORKING_DIRECTORY"; auto].
  destruct (dict_get environ "BAZEL_TARGET") as [label|] eqn:E4;
    [|exists "BAZEL_TARGET"; auto].
  exfalso. destruct I as [<-|[<-|[<-|[<-|[]]]]]; congruence.
Qed.

Lemma main_needs_environ_witness :
  exists missing,
    dict_get environ_short missing = None /\
    main environ_short (Options (Some "/src") (Some ".venv")) project
    = Die (KeyError missing) project.
Proof.
  apply (main_needs_environ environ_short (Options (Some "/src") (Some ".venv"))
           project "BUILD_WORKING_DIRECTORY").
  - right. right. left. reflexivity.
  - reflexivity.
Defined.

(** X8, lines 84-85 and 106: the default of [--name] is one path
    component, without separator, that starts with a dot and is not
    [..]: the name of the virtualenv is the [basename] of the
    normalized [VIRTUAL_ENV].  It is a name, unless the package is
    empty and the name of the virtualenv is empty or made of dots: the
    default is then [.], the directory [--dest] itself. *)
Theorem default_name_component environ s dest :
  read_environ environ = Value s ->
  startswith (opts_name s (Options dest None)) "." = true /\
  has_sep (opts_name s (Options dest None)) = false /\
  opts_name s (Options dest None) <> ".." /\
  (is_name (opts_name s (Options dest None)) = false <->
   target_package s = "" /\ all_char "." (virtualenv_name s) = true).
Proof.
  intros R.
  destruct (read_environ_value _ _ R)
    as [home [runfiles [build [label [_ [_ [_ [_ [_ [_ [N _]]]]]]]]]]].
  unfold opts_name. cbn [given_name].
  set (name := munge_venv_name (Some (target_package s)) (virtualenv_name s)).
  assert (S : has_sep name = false).
  { unfold name. rewrite N. apply munge_venv_name_no_sep, basename_no_sep. }
  assert (P : name <> "..") by apply munge_venv_name_not_pardir.
  assert (E : is_empty name = false).
  { unfold name. rewrite munge_venv_name_eq. reflexivity. }
  split; [unfold name; rewrite munge_venv_name_eq; apply startswith_cons|].
  split; [exact S|]. split; [exact P|]. split.
  - intros I. apply (munge_venv_name_is_dot (Some (target_package s))).
    fold name. unfold is_name, is_comp in I. rewrite E, S in I. cbn [negb andb] in I.
    destruct (String.eqb name ".") eqn:D; [apply String.eqb_eq, D|].
    destruct (String.eqb name "..") eqn:D'; [|discriminate I].
    apply String.eqb_eq in D'. contradiction.
  - intros H. apply (munge_venv_name_is_dot (Some (target_package s))) in H.
    fold name in H. rewrite H. reflexivity.
Qed.

Lemma default_name_component_witness :
  startswith ".app+svc+venv" "." = true /\
  has_sep ".app+svc+venv" = false /\
  ".app+svc+venv" <> ".." /\
  (is_name ".app+svc+venv" = false <-> "app/svc" = "" /\ all_char "." "venv" = true).
Proof.
  apply (default_name_component environ_svc settings_svc None).
  reflexivity.
Defined.

End Environment.
(* ================================================================== *)
(** ** Facts about the colocation as a whole *)

Module ColocateFacts.

Import Str PosixPath FS StrFacts PathFacts FSFacts Link LinkFacts Index.

Lemma colocate_in_cases w site_dir :
  colocate_in w site_dir = Returned w \/
  (exists x, colocate_in w site_dir = Raised x w) \/
  exists ls pyi_sources,
    read_lines w (join site_dir "_aspect.pth") = Val ls /\
    pth_roots_loop w site_dir ls [] <> [] /\
    build_index w (pth_roots_loop w site_dir ls []) = Val pyi_sources /\
    colocate_in w site_dir
    = synthesize pyi_sources (pth_roots_loop w site_dir ls []) w.
Proof.
  unfold colocate_in.
  destruct (negb (isfile w (join site_dir "_aspect.pth"))); [auto|].
  destruct (read_lines w (join site_dir "_aspect.pth")) as [ls|x]; [|eauto].
  destruct (pth_roots_loop w site_dir ls []) as [|r roots] eqn:E; [auto|].
  cbn [is_nil].
  destruct (build_index w (r :: roots)) as [pyi_sources|x] eqn:B; [|eauto].
  right. right. exists ls, pyi_sources. rewrite E. repeat split; trivial.
  discriminate.
Qed.

Lemma colocate_cases w virtualenv_home :
  colocate_pyi_stubs w virtualenv_home = Returned w \/
  exists site_dir, colocate_pyi_stubs w virtualenv_home = colocate_in w site_dir.
Proof.
  unfold colocate_pyi_stubs.
  destruct (glob_site_dirs w virtualenv_home) as [|site_dir rest]; eauto.
Qed.

Lemma colocate_in_grows w site_dir : grows w (state_of (colocate_in w site_dir)).
Proof.
  destruct (colocate_in_cases w site_dir) as [-> | [[x ->] | [ls [idx [_ [_ [_ ->]]]]]]];
    try apply grows_refl.
  apply synthesize_grows.
Qed.

Lemma colocate_grows w virtualenv_home :
  grows w (state_of (colocate_pyi_stubs w virtualenv_home)).
Proof.
  destruct (colocate_cases w virtualenv_home) as [-> | [site_dir ->]];
    [apply grows_refl | apply colocate_in_grows].
Qed.

Lemma colocate_adds_links w virtualenv_home :
  adds_links w (state_of (colocate_pyi_stubs w virtualenv_home)).
Proof.
  destruct (colocate_cases w virtualenv_home) as [-> | [site_dir ->]];
    [apply adds_links_refl|].
  destruct (colocate_in_cases w site_dir) as [-> | [[x ->] | [ls [idx [_ [_ [_ ->]]]]]]];
    try apply adds_links_refl.
  rewrite synthesize_placements. apply placements_add_links.
Qed.

Lemma place_raises w t x w' : place_task w t = Raised x w' -> w' = w.
Proof.
  unfold place_task, place.
  destruct (isfile w _ && negb (exists_ w _)); [|discriminate].
  destruct (relpath _ _ _); [|congruence].
  unfold os_symlink. destruct (sys_symlink _ _ _); congruence.
Qed.

(** Every entry that a run of placements creates is the link of one of
    them, made when its source was a regular file and its stub path
    did not exist. *)
Lemma placements_provenance tasks : forall w p,
  kind_at (root w) p = None ->
  kind_at (root (state_of (for_stmt place_task tasks w))) p <> None ->
  exists t w1 tgt,
    In t tasks /\ grows w w1 /\
    isfile w1 (source_path (snd t) (fst (fst t))) = true /\
    exists_ w1 (stub_path (snd t) (fst (fst t))) = false /\
    locate w1 (stub_path (snd t) (fst (fst t))) = Ok p /\
    relpath (cwd w) (snd (fst t)) (dirname (stub_path (snd t) (fst (fst t)))) = Some tgt /\
    kind_at (root (state_of (for_stmt place_task tasks w))) p = Some (KSymlink tgt).
Proof.
  induction tasks as [|t0 tasks IH]; intros w p F N; cbn [for_stmt] in *.
  { cbn [state_of] in N. congruence. }
  assert (Later : forall w2,
    grows w w2 -> kind_at (root w2) p = None ->
    kind_at (root (state_of (for_stmt place_task tasks w2))) p <> None ->
    exists t w1 tgt,
      In t (t0 :: tasks) /\ grows w w1 /\
      isfile w1 (source_path (snd t) (fst (fst t))) = true /\
      exists_ w1 (stub_path (snd t) (fst (fst t))) = false /\
      locate w1 (stub_path (snd t) (fst (fst t))) = Ok p /\
      relpath (cwd w) (snd (fst t)) (dirname (stub_path (snd t) (fst (fst t)))) = Some tgt /\
      kind_at (root (state_of (for_stmt place_task tasks w2))) p = Some (KSymlink tgt)).
  { intros w2 G F2 N2.
    destruct (IH w2 p F2 N2) as [t [w1 [tgt [I [G1 [S [X [L [R K]]]]]]]]].
    exists t, w1, tgt. rewrite (proj1 G) in R.
    repeat split; trivial; [right; exact I | |]; apply (grows_trans _ _ _ G G1). }
  destruct (place_task w t0) as [w2|x w2] eqn:P; cbn [and_then state_of] in *.
  - unfold place_task, place in P.
    fold (source_path (snd t0) (fst (fst t0))) in P.
    fold (stub_path (snd t0) (fst (fst t0))) in P.
    destruct (isfile w (source_path (snd t0) (fst (fst t0)))
              && negb (exists_ w (stub_path (snd t0) (fst (fst t0))))) eqn:C.
    + apply andb_prop in C. destruct C as [S X]. apply negb_true_iff in X.
      destruct (relpath (cwd w) (snd (fst t0)) _) as [rl|] eqn:RP; [|discriminate P].
      unfold os_symlink in P.
      destruct (sys_symlink w rl _) as [w3|e] eqn:SY; [|discriminate P].
      injection P as ->.
      destruct (sys_symlink_ok _ _ _ _ SY) as [p0 [L0 [F0 [K0 [O0 G]]]]].
      destruct (list_eq_dec string_dec p p0) as [->|NE].
      * exists t0, w, rl.
        repeat split; trivial; [left; reflexivity | apply grows_refl |].
        pose proof (for_stmt_grows place_task
                      (fun w a => place_grows _ _ w _) tasks w2) as G'.
        apply (proj2 G'). exact K0.
      * apply (Later w2 G); [rewrite O0 by exact NE; exact F | exact N].
    + injection P as <-. apply (Later w (grows_refl w) F N).
  - apply place_raises in P. subst w2. congruence.
Qed.

(** *** The index *)

Lemma fold_setdefault_in es : forall d k v,
  In (k, v) (fold_left setdefault_pair es d) -> In (k, v) d \/ In (k, v) es.
Proof.
  induction es as [|[k' v'] es IH]; intros d k v H; cbn [fold_left] in H; [auto|].
  destruct (IH _ _ _ H) as [I|I]; [|right; right; exact I].
  unfold setdefault_pair, setdefault in I. cbn [fst snd] in I.
  destruct (dict_get d k'); [auto|].
  apply in_app_or in I. destruct I as [I|[I|[]]]; [auto|].
  right. left. exact I.
Qed.

Lemma dict_get_none_keys d k : dict_get d k = None -> ~ In k (map fst d).
Proof.
  intros N I. apply in_map_iff in I. destruct I as [[k' v] [E I]].
  cbn [fst] in E. subst k'. apply (dict_get_none _ _ N v I).
Qed.

(** Inserting if absent keeps the keys distinct. *)
Lemma fold_setdefault_nodup es : forall d,
  NoDup (map fst d) -> NoDup (map fst (fold_left setdefault_pair es d)).
Proof.
  induction es as [|[k v] es IH]; intros d N; cbn [fold_left]; [exact N|].
  apply IH. unfold setdefault_pair, setdefault. cbn [fst snd].
  destruct (dict_get d k) eqn:E; [exact N|].
  rewrite map_app. apply NoDup_app; [exact N | repeat constructor; intros [] |].
  intros a I [<-|[]]. apply (dict_get_none_keys _ _ E I).
Qed.

Lemma nodup_dict_get d k v :
  NoDup (map fst d) -> In (k, v) d -> dict_get d k = Some v.
Proof.
  induction d as [|[k' v'] d IH]; intros N I; [destruct I|].
  cbn [map fst] in N. inversion N as [|? ? NI N']; subst.
  cbn [dict_get]. destruct I as [[= -> ->]|I].
  - rewrite String.eqb_refl. reflexivity.
  - destruct (String.eqb k' k) eqn:E; [|apply IH; assumption].
    apply String.eqb_eq in E. subst k'. destruct NI.
    apply in_map_iff. exists (k, v). auto.
Qed.

Lemma in_dict_get d k v : In (k, v) d -> exists v', dict_get d k = Some v'.
Proof.
  intros I. destruct (dict_get d k) as [v'|] eqn:E; [eauto|].
  destruct (dict_get_none _ _ E v I).
Qed.

Lemma build_index_value w pth_roots :
  build_index w pth_roots
  = Val (fold_left setdefault_pair (flat_map (stub_entries w) pth_roots) []).
Proof. unfold build_index. apply build_index_entries. Qed.

(** An entry of the index is a stub that the walk of a root lists. *)
Lemma index_entry_stub w pth_roots pyi_sources rel abs :
  build_index w pth_roots = Val pyi_sources -> In (rel, abs) pyi_sources ->
  exists r, In r pth_roots /\ stub_under w r rel abs.
Proof.
  rewrite build_index_value. intros [= <-] I.
  apply fold_setdefault_in in I. destruct I as [[]|I].
  apply in_flat_map in I. destruct I as [r [I J]].
  exists r. split; [exact I|]. apply stub_under_entries, J.
Qed.

(** *** The shape of the paths [relpath] gives *)





(** *** The only error of a placement *)




Lemma read_lines_value w path ls :
  read_lines w path = Val ls ->
  exists content,
    stat w path = Ok (KFile content) /\ is_ascii content = true /\ ls = lines content.
Proof.
  unfold read_lines.
  destruct (stat w path) as [[content| |]|]; try discriminate.
  destruct (is_ascii content) eqn:A; [|discriminate].
  intros [= <-]. eauto.
Qed.



(** *** The keys of the index in a file system with proper names *)

Lemma common_prefix_len_app l m : common_prefix_len l (l ++ m) = List.length l.
Proof.
  induction l as [|x l IH]; [destruct m; reflexivity|].
  cbn [common_prefix_len app List.length]. rewrite String.eqb_refl, IH. reflexivity.
Qed.

Lemma sep_join_split s : sep_join (split s) = s.
Proof.
  induction s as [|c s IH]; [reflexivity|].
  cbn [split]. destruct (is_sep c) eqn:C.
  - apply is_sep_true in C. subst c.
    destruct (split s) as [|h t] eqn:E; [destruct (split_not_nil _ E)|].
    change (sep_join ("" :: h :: t)) with (String sep (sep_join (h :: t))).
    rewrite IH. reflexivity.
  - destruct (split s) as [|h [|h' t]] eqn:E; [destruct (split_not_nil _ E) | |].
    + cbn [sep_join] in *. rewrite IH. reflexivity.
    + change (sep_join (String c h :: h' :: t))
        with (String c (h +++ String sep (sep_join (h' :: t)))).
      change (sep_join (h :: h' :: t))
        with (h +++ String sep (sep_join (h' :: t))) in IH.
      rewrite IH. reflexivity.
Qed.

Lemma substring_append_skip s : forall k m t,
  substring (String.length s + k) m (s +++ t) = substring k m t.
Proof.
  induction s as [|c s IH]; intros k m t; [reflexivity|].
  cbn [String.length append plus substring]. apply IH.
Qed.

Lemma endswith_append s t p : endswith t p = true -> endswith (s +++ t) p = true.
Proof.
  unfold endswith. intros H. apply andb_prop in H. destruct H as [L E].
  apply Nat.leb_le in L. rewrite length_append.
  replace (String.length s + String.length t - String.length p)
    with (String.length s + (String.length t - String.length p)) by lia.
  rewrite substring_append_skip, E, andb_true_r.
  apply Nat.leb_le. lia.
Qed.

Lemma last_split_join a b :
  isabs b = false -> last (split (join a b)) "" = last (split b) "".
Proof.
  intros B. unfold join. unfold isabs in B. rewrite B.
  destruct (is_empty a) eqn:EA.
  - apply is_empty_true in EA. subst a. reflexivity.
  - cbn [orb]. destruct (endswith a "/") eqn:ES.
    + destruct (endswith_sep _ ES) as [a' ->].
      rewrite append_assoc. change ("/" +++ b) with (String sep b).
      rewrite split_app_sep. apply last_app_nonempty, split_not_nil.
    + change ("/" +++ b) with (String sep b).
      rewrite split_app_sep. apply last_app_nonempty, split_not_nil.
Qed.

(** Where a path with a proper last name leads, without following a
    link there. *)
Lemma locate_name w path p :
  locate w path = Ok p -> proper_name (last (split path) "") = true ->
  exists parent, p = parent ++ [last (split path) ""].
Proof.
  intros L P. unfold locate in L. cbv zeta in L.
  destruct (is_empty path); [discriminate L|]. rewrite P in L.
  revert L.
  destruct (walk_from MAXSYMLINKS (root w) (start_dir w path)
              (removelast (split path)) 0) as [[parent u]|]; [|discriminate].
  destruct (kind_at (root w) parent) as [[| |]|]; try discriminate.
  intros [= <-]. eauto.
Qed.

(** In a file system whose entries have proper names, a stub of a root
    is indexed under the names that lead to it from the root. *)
Lemma stub_under_names w r rel abs :
  valid_names (root w) = true -> stub_under w r rel abs ->
  exists names fname,
    Forall (fun c => is_name c = true) names /\ is_name fname = true /\
    endswith fname ".pyi" = true /\
    split rel = names ++ [fname] /\
    abs = join_all r (names ++ [fname]) /\
    isabs rel = false.
Proof.
  intros V [dirpath [dirnames [filenames [fname [I [F [E [A R]]]]]]]].
  unfold os_walk in I.
  destruct (resolve w r) as [p|]; [|destruct I].
  destruct (lookup (root w) p) as [n|] eqn:L; [|destruct I].
  destruct (walk_node_paths w n r _ _ _ (lookup_valid _ _ _ V L) I)
    as [names [Fn [D Ff]]].
  rewrite Forall_forall in Ff. specialize (Ff fname F).
  assert (Fa : Forall (fun c => is_name c = true) (names ++ [fname])).
  { apply Forall_app. split; [exact Fn | repeat constructor; exact Ff]. }
  assert (A' : abs = join_all r (names ++ [fname])).
  { unfold join_all. rewrite fold_left_app, <- D. exact A. }
  exists names, fname. repeat split; trivial.
  - destruct (relpath_comps _ _ _ _ R) as [_ [_ [[_ C] | [C _]]]].
    + exfalso. rewrite A' in C. unfold join_all in C.
      rewrite abs_parts_join_names in C by exact Fa.
      apply (f_equal (@List.length _)) in C. rewrite !length_app in C.
      cbn [List.length] in C. lia.
    + rewrite C, A'. unfold join_all.
      rewrite abs_parts_join_names by exact Fa.
      rewrite common_prefix_len_app, Nat.sub_diag, skipn_app, Nat.sub_diag, skipn_all.
      reflexivity.
  - apply (relpath_comps _ _ _ _ R).
Qed.

Lemma names_key_suffix rel names fname :
  split rel = names ++ [fname] -> endswith fname ".pyi" = true ->
  endswith rel ".pyi" = true.
Proof.
  intros S E. rewrite <- (sep_join_split rel), S.
  destruct names as [|x names]; [exact E|].
  rewrite sep_join_snoc by discriminate.
  apply endswith_append with (s := sep_join (x :: names) +++ "/") in E.
  rewrite append_assoc in E. exact E.
Qed.

Lemma substring_cut s : forall n,
  n <= String.length s ->
  s = substring 0 n s +++ substring n (String.length s - n) s.
Proof.
  induction s as [|c s IH]; intros n H.
  - destruct n; [reflexivity | cbn [String.length] in H; lia].
  - destruct n as [|n].
    + rewrite Nat.sub_0_r, substring_all. reflexivity.
    + cbn [String.length] in *. cbn [substring append Nat.sub].
      rewrite <- (IH n) by lia. reflexivity.
Qed.

Lemma endswith_inv s p : endswith s p = true -> exists m, s = m +++ p.
Proof.
  unfold endswith. intros H. apply andb_prop in H. destruct H as [L E].
  apply Nat.leb_le in L. apply String.eqb_eq in E.
  exists (substring 0 (String.length s - String.length p) s).
  rewrite (substring_cut s (String.length s - String.length p)) at 1 by lia.
  replace (String.length s - (String.length s - String.length p))
    with (String.length p) by lia.
  rewrite E. reflexivity.
Qed.

(** [rel_pyi[:-1]] on a key that ends in [.pyi]: the key without its
    last letter, ending in [.py]. *)
Lemma drop_last_pyi rel :
  endswith rel ".pyi" = true ->
  rel = drop_last rel +++ "i" /\ endswith (drop_last rel) ".py" = true.
Proof.
  intros E. destruct (endswith_inv _ _ E) as [m ->].
  change (m +++ ".pyi") with (m +++ (".py" +++ "i")).
  rewrite <- append_assoc. rewrite (drop_last_snoc (m +++ ".py") "i").
  split; [reflexivity|].
  apply endswith_append. reflexivity.
Qed.

End ColocateFacts.
(* ================================================================== *)
(** ** The colocation as a whole *)

Module Colocation.

Import Str PosixPath FS StrFacts PathFacts FSFacts Link LinkFacts Index Worlds Runs.
Import ColocateFacts.

(** X9, lines 16-72: whether it returns or raises, [colocate_pyi_stubs]
    leaves every entry of the file system as it is, its kind, contents
    and link target, keeps the working directory, removes nothing, and
    what it adds are symbolic links. *)
Theorem colocate_only_adds_links w virtualenv_home :
  grows w (state_of (colocate_pyi_stubs w virtualenv_home)) /\
  adds_links w (state_of (colocate_pyi_stubs w virtualenv_home)).
Proof.
  split; [apply colocate_grows | apply colocate_adds_links].
Qed.

(** X10, lines 64-72: every entry the synthesis pass creates is the link of
    one indexed stub and one root: it lies where the stub path of the
    pair led when the pair was visited, the sibling source was a
    regular file then and the stub path did not exist, and its target
    is the relative path from the directory of the stub path to the
    indexed source. *)
Theorem created_entry_provenance pyi_sources pth_roots w p :
  kind_at (root w) p = None ->
  kind_at (root (state_of (synthesize pyi_sources pth_roots w))) p <> None ->
  exists rel_pyi pyi_abs r w1 tgt,
    In (rel_pyi, pyi_abs) pyi_sources /\ In r pth_roots /\
    grows w w1 /\
    isfile w1 (source_path r rel_pyi) = true /\
    exists_ w1 (stub_path r rel_pyi) = false /\
    locate w1 (stub_path r rel_pyi) = Ok p /\
    relpath (cwd w) pyi_abs (dirname (stub_path r rel_pyi)) = Some tgt /\
    isabs tgt = false /\
    kind_at (root (state_of (synthesize pyi_sources pth_roots w))) p
      = Some (KSymlink tgt).
Proof.
  rewrite synthesize_placements. intros F N.
  destruct (placements_provenance _ _ _ F N)
    as [[[rel_pyi pyi_abs] r] [w1 [tgt [I [G [S [X [L [R K]]]]]]]]].
  cbn [fst snd] in *. apply placements_in in I. destruct I as [I1 I2].
  cbn [fst snd] in *.
  exists rel_pyi, pyi_abs, r, w1, tgt.
  split; [exact I1|]. split; [exact I2|]. split; [exact G|].
  repeat split; trivial.
  apply (proj1 (relpath_comps _ _ _ _ R)).
Qed.

Lemma created_entry_provenance_witness :
  exists rel_pyi pyi_abs r w1 tgt,
    In (rel_pyi, pyi_abs) [("pkg/x.pyi", "/A/pkg/x.pyi")] /\ In r ["/A"; "/B"] /\
    grows two_roots w1 /\
    isfile w1 (source_path r rel_pyi) = true /\
    exists_ w1 (stub_path r rel_pyi) = false /\
    locate w1 (stub_path r rel_pyi) = Ok ["B"; "pkg"; "x.pyi"] /\
    relpath (cwd two_roots) pyi_abs (dirname (stub_path r rel_pyi)) = Some tgt /\
    isabs tgt = false /\
    kind_at (root (state_of (synthesize [("pkg/x.pyi", "/A/pkg/x.pyi")] ["/A"; "/B"]
                               two_roots))) ["B"; "pkg"; "x.pyi"]
      = Some (KSymlink tgt).
Proof.
  apply (created_entry_provenance [("pkg/x.pyi", "/A/pkg/x.pyi")] ["/A"; "/B"]
           two_roots ["B"; "pkg"; "x.pyi"]).
  - reflexivity.
  - vm_compute. discriminate.
Defined.



(** The two failures on concrete trees: the stub path of [broken_stub]
    is a dangling link, and the [_aspect.pth] of [undecodable] holds
    the byte 255 after a line that names a root with a stub to place. *)
Example two_ways_to_raise :
  colocate_pyi_stubs broken_stub "/venv" = Raised (OSError EEXIST) broken_stub /\
  colocate_pyi_stubs undecodable "/venv" = Raised ValueError undecodable.
Proof. split; vm_compute; reflexivity. Qed.

(** X12, lines 55-62: the index pass never raises; the keys of the index are
    distinct, every entry is a stub that the walk of some root lists,
    and every relative path at which some root holds a stub is a
    key. *)
Theorem index_holds_the_stubs w pth_roots :
  exists pyi_sources,
    build_index w pth_roots = Val pyi_sources /\
    NoDup (map fst pyi_sources) /\
    (forall rel abs, In (rel, abs) pyi_sources <-> dict_get pyi_sources rel = Some abs) /\
    (forall rel abs, In (rel, abs) pyi_sources ->
       exists r, In r pth_roots /\ stub_under w r rel abs) /\
    (forall r rel abs, In r pth_roots -> stub_under w r rel abs ->
       exists abs', In (rel, abs') pyi_sources).
Proof.
  eexists. split; [apply build_index_value|].
  assert (N : NoDup (map fst (fold_left setdefault_pair
                                (flat_map (stub_entries w) pth_roots) []))).
  { apply fold_setdefault_nodup. constructor. }
  split; [exact N|]. split; [|split].
  - intros rel abs. split; [apply nodup_dict_get, N | apply dict_get_in].
  - intros rel abs I. apply (index_entry_stub w pth_roots _ _ _ (build_index_value _ _) I).
  - intros r rel abs I S.
    assert (J : In (rel, abs) (flat_map (stub_entries w) pth_roots)).
    { apply in_flat_map. exists r. split; [exact I|]. apply stub_under_entries, S. }
    destruct (in_dict_get _ _ _ J) as [abs' D].
    exists abs'. apply dict_get_in. rewrite dict_get_setdefaults. exact D.
Qed.

(** X13, lines 49-72: when no root holds a stub, the function returns with
    the file system as it was. *)
Theorem colocate_without_stubs w site_dir ls :
  read_lines w (join site_dir "_aspect.pth") = Val ls ->
  (forall r rel abs, In r (pth_roots_loop w site_dir ls []) -> ~ stub_under w r rel abs) ->
  colocate_in w site_dir = Returned w.
Proof.
  intros RD H. unfold colocate_in.
  destruct (negb (isfile w (join site_dir "_aspect.pth"))); [reflexivity|].
  rewrite RD.
  destruct (is_nil (pth_roots_loop w site_dir ls [])); [reflexivity|].
  rewrite build_index_value.
  destruct (fold_left setdefault_pair
              (flat_map (stub_entries w) (pth_roots_loop w site_dir ls [])) [])
    as [|[rel abs] d] eqn:D; [reflexivity|].
  exfalso.
  destruct (index_entry_stub w (pth_roots_loop w site_dir ls []) _ rel abs
              (build_index_value w _)) as [r [I S]].
  - rewrite D. left. reflexivity.
  - apply (H r rel abs I S).
Qed.

Lemma colocate_without_stubs_witness :
  colocate_in repeated_line site_packages = Returned repeated_line.
Proof.
  apply (colocate_without_stubs repeated_line site_packages [up4 +++ "A"; up4 +++ "A"]).
  - vm_compute. reflexivity.
  - intros r rel abs I S. apply stub_under_entries in S.
    vm_compute in I. destruct I as [<-|[<-|[]]]; vm_compute in S; exact S.
Defined.

(** X14, lines 55-62: in a file system whose entries have proper names, a
    key of the index is the relative path of the stub below its root,
    name by name, without [..], ending in [.pyi], and the value is the
    root joined with these names; the key without its last letter,
    which line 66 takes for the source, ends in [.py]. *)
Theorem index_keys_below_root w pth_roots pyi_sources rel abs :
  valid_names (root w) = true ->
  build_index w pth_roots = Val pyi_sources ->
  In (rel, abs) pyi_sources ->
  exists r names fname,
    In r pth_roots /\
    Forall (fun c => is_name c = true) names /\ is_name fname = true /\
    endswith fname ".pyi" = true /\
    split rel = names ++ [fname] /\
    abs = join_all r (names ++ [fname]) /\
    isabs rel = false /\
    endswith rel ".pyi" = true /\
    rel = drop_last rel +++ "i" /\
    endswith (drop_last rel) ".py" = true.
Proof.
  intros V B I.
  destruct (index_entry_stub _ _ _ _ _ B I) as [r [J S]].
  destruct (stub_under_names _ _ _ _ V S) as [names [fname [Fn [Ff [E [Sp [A R]]]]]]].
  pose proof (names_key_suffix _ _ _ Sp E) as K.
  destruct (drop_last_pyi _ K) as [D1 D2].
  exists r, names, fname. repeat split; trivial.
Qed.

Lemma index_keys_below_root_witness :
  exists r names fname,
    In r ["/C"; "/A"; "/B"] /\
    Forall (fun c => is_name c = true) names /\ is_name fname = true /\
    endswith fname ".pyi" = true /\
    split "pkg/x.pyi" = names ++ [fname] /\
    "/A/pkg/x.pyi" = join_all r (names ++ [fname]) /\
    isabs "pkg/x.pyi" = false /\
    endswith "pkg/x.pyi" ".pyi" = true /\
    "pkg/x.pyi" = drop_last "pkg/x.pyi" +++ "i" /\
    endswith (drop_last "pkg/x.pyi") ".py" = true.
Proof.
  apply (index_keys_below_root shared_stub ["/C"; "/A"; "/B"]
           [("pkg/x.pyi", "/A/pkg/x.pyi")] "pkg/x.pyi" "/A/pkg/x.pyi").
  - reflexivity.
  - vm_compute. reflexivity.
  - left. reflexivity.
Defined.

(** X15, lines 16-72: in a file system whose entries have proper names,
    every entry that [colocate_pyi_stubs] creates has a name that ends
    in [.pyi], and is a symbolic link with a relative target. *)
Theorem colocate_creates_stub_names w virtualenv_home p :
  valid_names (root w) = true ->
  kind_at (root w) p = None ->
  kind_at (root (state_of (colocate_pyi_stubs w virtualenv_home))) p <> None ->
  exists parent name tgt,
    p = parent ++ [name] /\ endswith name ".pyi" = true /\
    kind_at (root (state_of (colocate_pyi_stubs w virtualenv_home))) p
      = Some (KSymlink tgt) /\
    isabs tgt = false.
Proof.
  intros V F N.
  destruct (colocate_cases w virtualenv_home) as [E | [site_dir E]];
    rewrite E in *; [cbn [state_of] in N; congruence|].
  destruct (colocate_in_cases w site_dir)
    as [E' | [[x E'] | [ls [idx [_ [_ [B E']]]]]]];
    rewrite E' in *; try (cbn [state_of] in N; congruence).
  rewrite synthesize_placements in *.
  destruct (placements_provenance _ _ _ F N)
    as [[[rel_pyi pyi_abs] r] [w1 [tgt [I [G [S [X [L [R K]]]]]]]]].
  cbn [fst snd] in *. apply placements_in in I. destruct I as [I1 _].
  cbn [fst] in I1.
  destruct (index_entry_stub _ _ _ _ _ B I1) as [r' [_ S']].
  destruct (stub_under_names _ _ _ _ V S') as [names [fname [_ [Ff [En [Sp [_ Ra]]]]]]].
  assert (Ln : last (split (stub_path r rel_pyi)) "" = fname).
  { unfold stub_path. rewrite (last_split_join _ _ Ra), Sp. apply last_last. }
  destruct (locate_name _ _ _ L) as [parent P].
  { rewrite Ln. apply is_name_proper, Ff. }
  rewrite Ln in P.
  exists parent, fname, tgt. repeat split; trivial.
  apply (proj1 (relpath_comps _ _ _ _ R)).
Qed.

Lemma colocate_creates_stub_names_witness :
  exists parent name tgt,
    ["B"; "pkg"; "x.pyi"] = parent ++ [name] /\ endswith name ".pyi" = true /\
    kind_at (root (state_of (colocate_pyi_stubs two_roots "/venv"))) ["B"; "pkg"; "x.pyi"]
      = Some (KSymlink tgt) /\
    isabs tgt = false.
Proof.
  apply (colocate_creates_stub_names two_roots "/venv" ["B"; "pkg"; "x.pyi"]).
  - reflexivity.
  - reflexivity.
  - vm_compute. discriminate.
Defined.

End Colocation.
(* ================================================================== *)
(** ** The script as a whole *)

Module Run.

Import Str PosixPath FS StrFacts PathFacts FSFacts Link LinkFacts LinkStep Worlds.
Import Script ScriptFacts Environment ColocateFacts Runs.

(** The ways the link step ends. *)
Lemma link_step_cases w dest virtualenv_home :
  link_step w dest virtualenv_home = Returned w /\
    up_to_date w dest virtualenv_home = true \/
  (exists e, link_step w dest virtualenv_home = Raised (OSError e) w) \/
  link_step w dest virtualenv_home = os_symlink w virtualenv_home dest \/
  exists w1, sys_unlink w dest = Ok w1 /\
             link_step w dest virtualenv_home = os_symlink w1 virtualenv_home dest.
Proof.
  unfold link_step.
  destruct (up_to_date w dest virtualenv_home); [auto|].
  destruct (lstat w dest) as [k|e].
  - unfold os_unlink. destruct (sys_unlink w dest) as [w1|e] eqn:U.
    + right. right. right. exists w1. auto.
    + destruct e; cbn [and_then]; eauto.
  - destruct e; cbn [and_then]; eauto.
Qed.

Lemma os_symlink_cases w target linkpath :
  (exists e, os_symlink w target linkpath = Raised (OSError e) w) \/
  exists w', os_symlink w target linkpath = Returned w' /\
             sys_symlink w target linkpath = Ok w'.
Proof.
  unfold os_symlink. destruct (sys_symlink w target linkpath); eauto.
Qed.

Lemma link_step_error w dest virtualenv_home x w' :
  link_step w dest virtualenv_home = Raised x w' -> exists e, x = OSError e.
Proof.
  intros R.
  destruct (link_step_cases w dest virtualenv_home)
    as [[E _] | [[e E] | [E | [w1 [_ E]]]]]; rewrite E in R.
  - discriminate R.
  - injection R as <- _. eauto.
  - destruct (os_symlink_cases w virtualenv_home dest) as [[e S] | [w2 [S _]]];
      rewrite S in R; [injection R as <- _; eauto | discriminate R].
  - destruct (os_symlink_cases w1 virtualenv_home dest) as [[e S] | [w2 [S _]]];
      rewrite S in R; [injection R as <- _; eauto | discriminate R].
Qed.

(** The link step leaves every entry but the one at the destination as
    it is. *)
Lemma link_step_frame w dest virtualenv_home p k :
  kind_at (root w) p = Some k -> locate w dest <> Ok p ->
  kind_at (root (state_of (link_step w dest virtualenv_home))) p = Some k.
Proof.
  intros K N.
  destruct (link_step_cases w dest virtualenv_home)
    as [[-> _] | [[e ->] | [-> | [w1 [U ->]]]]]; trivial.
  - apply (proj2 (os_symlink_grows w virtualenv_home dest)). exact K.
  - destruct (sys_unlink_ok _ _ _ U) as [p0 [k0 [L [_ [_ [_ [O _]]]]]]].
    apply (proj2 (os_symlink_grows w1 virtualenv_home dest)).
    rewrite O; [exact K|]. intros ->. apply N. exact L.
Qed.

Lemma link_step_cwd w dest virtualenv_home :
  cwd (state_of (link_step w dest virtualenv_home)) = cwd w.
Proof.
  destruct (link_step_cases w dest virtualenv_home)
    as [[-> _] | [[e ->] | [-> | [w1 [U ->]]]]]; trivial.
  - apply (proj1 (os_symlink_grows w virtualenv_home dest)).
  - destruct (sys_unlink_ok _ _ _ U) as [p0 [k0 [_ [_ [_ [_ [_ C]]]]]]].
    rewrite (proj1 (os_symlink_grows w1 virtualenv_home dest)). exact C.
Qed.

(** A link step that returns leaves the link at the destination. *)
Lemma link_step_returned w dest virtualenv_home w1 :
  link_step w dest virtualenv_home = Returned w1 ->
  exists t, lstat w1 dest = Ok (KSymlink t) /\ Path_eqb t virtualenv_home = true.
Proof.
  intros R.
  assert (S : forall w0, os_symlink w0 virtualenv_home dest = Returned w1 ->
              lstat w1 dest = Ok (KSymlink virtualenv_home)).
  { intros w0 H. unfold os_symlink in H.
    destruct (sys_symlink w0 virtualenv_home dest) as [w2|] eqn:SY; [|discriminate H].
    injection H as ->.
    destruct (sys_symlink_ok _ _ _ _ SY) as [p0 [L [_ [K [_ G]]]]].
    unfold lstat. rewrite (locate_mono _ _ _ _ G L), K. reflexivity. }
  assert (P : Path_eqb virtualenv_home virtualenv_home = true)
    by apply String.eqb_refl.
  destruct (link_step_cases w dest virtualenv_home)
    as [[E U] | [[e E] | [E | [w0 [_ E]]]]]; rewrite E in R.
  - injection R as <-. apply up_to_date_iff in U. destruct U as [_ U]. exact U.
  - discriminate R.
  - exists virtualenv_home. split; [apply (S w R) | exact P].
  - exists virtualenv_home. split; [apply (S w0 R) | exact P].
Qed.

(** X16, lines 83-136: the script, however it ends, leaves every entry of
    the file system other than the one the destination path names as
    it is, its kind, contents and link target, and keeps the working
    directory. *)
Theorem main_keeps_other_entries environ given w p k :
  kind_at (root w) p = Some k ->
  (forall s, read_environ environ = Value s ->
     locate w (dest_path (opts_dest s given) (opts_name s given)) <> Ok p) ->
  kind_at (root (final (main environ given w))) p = Some k /\
  cwd (final (main environ given w)) = cwd w.
Proof.
  intros K N. unfold main.
  destruct (read_environ environ) as [s|e]; [|auto].
  specialize (N s eq_refl).
  set (dest := dest_path (opts_dest s given) (opts_name s given)) in *.
  assert (Q : kind_at (root (state_of (link_and_colocate w dest (virtualenv_home s)))) p
              = Some k /\
              cwd (state_of (link_and_colocate w dest (virtualenv_home s))) = cwd w).
  { unfold link_and_colocate.
    pose proof (link_step_frame w dest (virtualenv_home s) p k K N) as F.
    pose proof (link_step_cwd w dest (virtualenv_home s)) as C.
    destruct (link_step w dest (virtualenv_home s)) as [w1|x w1]; cbn [and_then state_of] in *;
      [|auto].
    pose proof (colocate_grows w1 (virtualenv_home s)) as [C' G].
    split; [apply G, F | congruence]. }
  destruct (link_and_colocate w dest (virtualenv_home s)); exact Q.
Qed.

Lemma main_keeps_other_entries_witness :
  kind_at (root (final (main environ_svc (Options (Some "/src") (Some ".venv")) project)))
          ["src"; "notes"] = Some (KFile "n") /\
  cwd (final (main environ_svc (Options (Some "/src") (Some ".venv")) project))
  = cwd project.
Proof.
  apply (main_keeps_other_entries environ_svc (Options (Some "/src") (Some ".venv"))
           project ["src"; "notes"] (KFile "n")).
  - reflexivity.
  - intros s R. vm_compute in R. injection R as <-. vm_compute. discriminate.
Defined.

(** X17, lines 111-136: when the script ends without an exception, the
    destination is a symbolic link whose target is the virtualenv home
    as a [Path]: the colocation leaves the link of the link step in
    place. *)
Theorem main_leaves_link environ given w w' :
  main environ given w = Exit w' ->
  exists s t,
    read_environ environ = Value s /\
    lstat w' (dest_path (opts_dest s given) (opts_name s given)) = Ok (KSymlink t) /\
    Path_eqb t (virtualenv_home s) = true.
Proof.
  unfold main. destruct (read_environ environ) as [s|e]; [|discriminate].
  set (dest := dest_path (opts_dest s given) (opts_name s given)).
  unfold link_and_colocate.
  destruct (link_step w dest (virtualenv_home s)) as [w1|x w1] eqn:L;
    cbn [and_then]; [|discriminate].
  pose proof (colocate_grows w1 (virtualenv_home s)) as G.
  destruct (colocate_pyi_stubs w1 (virtualenv_home s)) as [w2|x w2]; [|discriminate].
  intros [= <-]. cbn [state_of] in G.
  destruct (link_step_returned _ _ _ _ L) as [t [K P]].
  exists s, t. repeat split; trivial. apply (lstat_mono _ _ _ _ G K).
Qed.

Lemma main_leaves_link_witness :
  exists s t,
    read_environ environ_svc = Value s /\
    lstat (final (main environ_svc (Options None None) project))
          (dest_path (opts_dest s (Options None None)) (opts_name s (Options None None)))
      = Ok (KSymlink t) /\
    Path_eqb t (virtualenv_home s) = true.
Proof.
  apply (main_leaves_link environ_svc (Options None None) project).
  vm_compute. reflexivity.
Defined.

(** X18, lines 120-132: after a link step that returned, and whatever
    entries were added since, a further link step finds the link up to
    date and changes nothing, provided the destination resolves. *)
Theorem link_step_again w dest virtualenv_home w1 w2 :
  link_step w dest virtualenv_home = Returned w1 ->
  grows w1 w2 ->
  exists_ w2 dest = true ->
  link_step w2 dest virtualenv_home = Returned w2.
Proof.
  intros R G X.
  destruct (link_step_returned _ _ _ _ R) as [t [K P]].
  assert (U : up_to_date w2 dest virtualenv_home = true).
  { apply up_to_date_iff. split; [exact X|].
    exists t. split; [apply (lstat_mono _ _ _ _ G K) | exact P]. }
  unfold link_step. rewrite U. reflexivity.
Qed.

Lemma link_step_again_witness :
  link_step (state_of (colocate_pyi_stubs (state_of (link_step project "/src/env" "/venv"))
                                          "/venv"))
            "/src/env" "/venv"
  = Returned (state_of (colocate_pyi_stubs (state_of (link_step project "/src/env" "/venv"))
                                           "/venv")).
Proof.
  apply (link_step_again project "/src/env" "/venv"
           (state_of (link_step project "/src/env" "/venv"))).
  - vm_compute. reflexivity.
  - apply colocate_grows.
  - vm_compute. reflexivity.
Defined.

(** X19, lines 120-132: the link step raises [OSError] only, and when it
    does the file system is as it was, or the entry at the destination,
    not a directory, has been unlinked and nothing else is changed: the
    step does not put the old entry back when [symlink_to] fails. *)
Theorem link_step_raised w dest virtualenv_home x w' :
  link_step w dest virtualenv_home = Raised x w' ->
  (exists e, x = OSError e) /\
  (w' = w \/
   exists p k,
     locate w dest = Ok p /\ kind_at (root w) p = Some k /\ k <> KDir /\
     kind_at (root w') p = None /\
     (forall q, q <> p -> kind_at (root w') q = kind_at (root w) q)).
Proof.
  intros R. split; [apply (link_step_error _ _ _ _ _ R)|].
  destruct (link_step_cases w dest virtualenv_home)
    as [[E _] | [[e E] | [E | [w1 [U E]]]]]; rewrite E in R.
  - discriminate R.
  - injection R as _ <-. auto.
  - destruct (os_symlink_cases w virtualenv_home dest) as [[e S] | [w2 [S _]]];
      rewrite S in R; [|discriminate R].
    injection R as _ <-. auto.
  - destruct (os_symlink_cases w1 virtualenv_home dest) as [[e S] | [w2 [S _]]];
      rewrite S in R; [|discriminate R].
    injection R as _ <-. right.
    destruct (sys_unlink_ok _ _ _ U) as [p [k [L [K [D [F [O _]]]]]]].
    exists p, k. auto.
Qed.

Lemma link_step_raised_witness :
  (exists e, OSError ENOENT = OSError e) /\
  (state_of (link_step project through_itself "/venv") = project \/
   exists p k,
     locate project through_itself = Ok p /\
     kind_at (root project) p = Some k /\ k <> KDir /\
     kind_at (root (state_of (link_step project through_itself "/venv"))) p = None /\
     (forall q, q <> p ->
        kind_at (root (state_of (link_step project through_itself "/venv"))) q
        = kind_at (root project) q)).
Proof.
  apply (link_step_raised project through_itself "/venv").
  vm_compute. reflexivity.
Defined.

(** The link step can lose the old link: the destination is reached
    through the stale link it names, which is unlinked before
    [symlink_to] walks the path again. *)
Example link_step_loses_link :
  lstat project through_itself = Ok (KSymlink "/old") /\
  (exists w', link_step project through_itself "/venv" = Raised (OSError ENOENT) w' /\
              lstat w' "/src/.venv" = Err ENOENT).
Proof.
  split; [vm_compute; reflexivity|].
  eexists. split; vm_compute; reflexivity.
Qed.



(** A run that dies in the colocation: the link [/src/.venv] is made,
    then the [_aspect.pth] of [undecodable] cannot be decoded. *)
Example main_dies_after_link :
  exists w',
    main environ_svc (Options (Some "/src") (Some ".venv")) undecodable
      = Die (Other ValueError) w' /\
    lstat undecodable "/src/.venv" = Err ENOENT /\
    lstat w' "/src/.venv" = Ok (KSymlink "/venv").
Proof.
  eexists. split; [|split]; vm_compute; reflexivity.
Qed.

End Run.
(* ================================================================== *)
(** ** Where the destination path leads *)

Module Destination.

Import Str PosixPath FS StrFacts PathFacts FSFacts Link LinkFacts LinkStep Worlds.
Import Script ScriptFacts Runs.

(** The components [Path] drops, empty or [.], do not change where a
    walk leads. *)
Lemma walk_filter_dots t : forall comps d cur used r,
  walk_from d t cur comps used = Ok r ->
  walk_from d t cur
    (filter (fun x => negb (String.eqb x "" || String.eqb x ".")) comps) used = Ok r.
Proof.
  induction comps as [|c comps IH]; intros d cur used r H; [exact H|].
  cbn [filter]. rewrite walk_from_cons in H.
  destruct (String.eqb c "" || String.eqb c ".") eqn:E; cbn [negb].
  - destruct (kind_at t cur) as [[| |]|]; try discriminate H. apply IH, H.
  - rewrite walk_from_cons, E.
    destruct (kind_at t cur) as [[| |]|]; try discriminate H.
    destruct (String.eqb c ".."); [apply IH, H|].
    destruct (kind_at t (cur ++ [c])) as [[|target|]|]; try discriminate H;
      try (apply IH, H).
    destruct d as [|d']; [discriminate H|].
    destruct (Nat.leb MAXSYMLINKS used); [discriminate H|].
    destruct (is_empty target); [discriminate H|].
    destruct (walk_from d' t _ (split target) (S used)) as [[p u]|]; [|discriminate H].
    apply IH, H.
Qed.

Lemma walk_empties d t cur rest used : forall k,
  kind_at t cur = Some KDir ->
  walk_from d t cur (repeat "" k ++ rest) used = walk_from d t cur rest used.
Proof.
  induction k as [|k IH]; intros K; [reflexivity|].
  cbn [repeat app]. rewrite walk_from_cons, K. cbn [String.eqb orb]. apply IH, K.
Qed.

Lemma initial_slashes_isabs s : isabs s = false -> initial_slashes s = 0.
Proof. unfold isabs, initial_slashes. intros ->. reflexivity. Qed.

Lemma filter_dots_comps l :
  Forall (fun c => has_sep c = false) l ->
  Forall (fun c => is_comp c = true)
    (filter (fun x => negb (String.eqb x "" || String.eqb x ".")) l).
Proof.
  induction 1 as [|c l H F IH]; cbn [filter]; [constructor|].
  destruct (String.eqb c "" || String.eqb c ".") eqn:E; cbn [negb]; [exact IH|].
  constructor; [|exact IH].
  unfold is_comp. rewrite H. destruct c; [discriminate E | reflexivity].
Qed.

(** X21, line 111: when [--dest] resolves to a directory, through whatever
    links, and the link name is a name, the destination
    [Path(join(dest, name))] is the entry of that name in that
    directory: what [Path] drops of the joined path does not change
    where it leads. *)
Theorem dest_names_entry w dest name D :
  resolve w dest = Ok D -> kind_at (root w) D = Some KDir ->
  is_name name = true ->
  locate w (dest_path dest name) = Ok (D ++ [name]).
Proof.
  intros R K N.
  pose proof (is_name_comp _ N) as C.
  destruct (is_comp_inv _ C) as [Ne Ns].
  pose proof (comp_relative _ C) as Rel.
  destruct (resolve_join_prefix _ _ _ R) as [A [u [W J]]].
  destruct (J name Rel Ne) as [Sp [St _]]. clear J.
  rewrite (split_no_sep _ Ns) in Sp.
  unfold dest_path, Path_str.
  set (j := join dest name) in *.
  rewrite Sp, filter_app. cbn [filter].
  assert (Nd : String.eqb name "" || String.eqb name "." = false).
  { destruct (is_name_inv _ N) as [_ [-> [-> _]]]. reflexivity. }
  rewrite Nd. cbn [negb].
  set (A' := filter (fun x => negb (String.eqb x "" || String.eqb x ".")) A).
  assert (FA : Forall (fun c => has_sep c = false) A).
  { pose proof (split_components j) as F. rewrite Sp in F.
    apply Forall_app in F. tauto. }
  assert (FC : Forall (fun c => is_comp c = true) (A' ++ [name])).
  { apply Forall_app. split; [apply filter_dots_comps, FA | repeat constructor; exact C]. }
  assert (FS : Forall (fun c => has_sep c = false) (A' ++ [name])).
  { eapply Forall_impl; [|exact FC]. intros a Ha. apply (is_comp_inv _ Ha). }
  assert (NN : A' ++ [name] <> []) by (destruct A'; discriminate).
  destruct (sep_join_ends _ NN FC) as [pre [z [E Cz]]].
  assert (Nr : is_empty (slashes (initial_slashes j) +++ sep_join (A' ++ [name]))
               = false).
  { rewrite is_empty_append, E, is_empty_append.
    destruct (is_comp_inv _ Cz) as [-> _]. rewrite !andb_false_r. reflexivity. }
  rewrite Nr.
  set (r := slashes (initial_slashes j) +++ sep_join (A' ++ [name])) in *.
  assert (Sr : split r = repeat "" (initial_slashes j) ++ A' ++ [name]).
  { unfold r. rewrite split_slashes, (split_sep_join _ NN FS). reflexivity. }
  assert (Ir : start_dir w r = start_dir w j /\
               (initial_slashes j <> 0 -> A <> [])).
  { unfold start_dir. destruct (isabs j) eqn:Ij.
    - assert (exists k, initial_slashes j = S k) as [k Ek].
      { unfold initial_slashes. unfold isabs in Ij. rewrite Ij.
        destruct (startswith j "//" && negb (startswith j "///")); eauto. }
      unfold r. rewrite Ek. cbn [slashes append]. rewrite isabs_cons.
      split; [reflexivity|]. intros _ ->.
      cbn [app] in Sp. destruct j as [|a j']; [discriminate Ij|].
      rewrite isabs_cons in Ij. cbn [split] in Sp. rewrite Ij in Sp.
      injection Sp as Sp _. subst name. discriminate Ne.
    - unfold r. rewrite (initial_slashes_isabs _ Ij). cbn [slashes append].
      split; [|congruence].
      destruct (A' ++ [name]) as [|x rest] eqn:EA; [congruence|].
      inversion FC; subst.
      destruct (sep_join_first x rest) as [_ ->]; [assumption | reflexivity]. }
  destruct Ir as [Ir NA].
  unfold locate. fold r. rewrite Nr. cbv zeta.
  replace (last (split r) "") with name
    by (rewrite Sr, app_assoc; symmetry; apply last_last).
  replace (removelast (split r)) with (repeat "" (initial_slashes j) ++ A')
    by (rewrite Sr, app_assoc; symmetry; apply removelast_last).
  rewrite (is_name_proper _ N), Ir, St.
  assert (Wr : walk_from MAXSYMLINKS (root w) (start_dir w dest)
                 (repeat "" (initial_slashes j) ++ A') 0 = Ok (D, u)).
  { destruct (initial_slashes j) as [|k] eqn:Ek.
    - apply walk_filter_dots, W.
    - rewrite walk_empties; [apply walk_filter_dots, W|].
      destruct A as [|a A0]; [destruct (NA (Nat.neq_succ_0 k) eq_refl)|].
      assert (Sd : start_dir w dest = []).
      { rewrite <- St. unfold start_dir.
        destruct (isabs j) eqn:Ij; [reflexivity|].
        rewrite (initial_slashes_isabs _ Ij) in Ek. discriminate Ek. }
      rewrite Sd in *. apply (walk_from_root_dir _ _ _ _ _ _ _ W). }
  rewrite Wr, K. reflexivity.
Qed.

Lemma dest_names_entry_witness :
  locate linked_site (dest_path "/venv/lib/./python3//site-packages/" ".venv")
  = Ok (["real"; "deep"; "sp"] ++ [".venv"]).
Proof.
  apply (dest_names_entry linked_site "/venv/lib/./python3//site-packages/" ".venv"
           ["real"; "deep"; "sp"]); vm_compute; reflexivity.
Defined.

End Destination.
(* ================================================================== *)
(** ** The colocation does not read file contents *)

Module Contents.

Import Str PosixPath FS StrFacts PathFacts FSFacts Link LinkFacts Index Worlds.
Import Script ColocateFacts Runs.

Lemma same_shape_refl w : same_shape w w.
Proof. split; reflexivity. Qed.

Lemma map_entry_erase c (f g : node -> node) es :
  (forall x, erase (f x) = g (erase x)) ->
  map (fun e => (fst e, erase (snd e))) (map_entry c f es)
  = map_entry c g (map (fun e => (fst e, erase (snd e))) es).
Proof.
  intros H. induction es as [|[n x] es IH]; [reflexivity|].
  cbn [map_entry map fst snd]. destruct (String.eqb n c); cbn [map fst snd].
  - rewrite H. reflexivity.
  - rewrite IH. reflexivity.
Qed.

Lemma erase_insert_at g p : forall t,
  erase (insert_at t p (Symlink g)) = insert_at (erase t) p (Symlink g).
Proof.
  induction p as [|c p IH]; intros t; [reflexivity|].
  destruct p as [|c' p'].
  - destruct t as [| |es]; try reflexivity.
    cbn [insert_at erase]. rewrite map_app. reflexivity.
  - destruct t as [| |es]; try reflexivity.
    change (insert_at (Dir es) (c :: c' :: p') (Symlink g))
      with (Dir (map_entry c (fun m => insert_at m (c' :: p') (Symlink g)) es)).
    change (insert_at (erase (Dir es)) (c :: c' :: p') (Symlink g))
      with (Dir (map_entry c (fun m => insert_at m (c' :: p') (Symlink g))
                   (map (fun e => (fst e, erase (snd e))) es))).
    cbn [erase]. f_equal. apply map_entry_erase. exact IH.
Qed.

Lemma kind_none_same_shape w w' p :
  same_shape w w' -> kind_at (root w) p = None -> kind_at (root w') p = None.
Proof.
  intros H K. pose proof (kind_at_same_shape _ _ p H) as E. rewrite K in E.
  destruct (kind_at (root w') p); [discriminate E | reflexivity].
Qed.

Lemma kind_dir_same_shape w w' p :
  same_shape w w' ->
  kind_at (root w) p = Some KDir -> kind_at (root w') p = Some KDir.
Proof.
  intros H K. pose proof (kind_at_same_shape _ _ p H) as E. rewrite K in E.
  destruct (kind_at (root w') p) as [[| |]|]; try discriminate E. reflexivity.
Qed.

Lemma same_shape_sym w w' : same_shape w w' -> same_shape w' w.
Proof. intros [E C]. split; congruence. Qed.

Lemma locate_same_shape w w' path :
  same_shape w w' -> locate w path = locate w' path.
Proof.
  intros H. unfold locate. rewrite (resolve_same_shape _ _ _ H).
  destruct (is_empty path); [reflexivity|]. cbv zeta.
  destruct (proper_name (last (split path) "")); [|reflexivity].
  unfold start_dir. destruct H as [E C]. rewrite C.
  rewrite <- (walk_from_erase (root w)), <- (walk_from_erase (root w')), E.
  destruct (walk_from MAXSYMLINKS (erase (root w')) _ _ 0) as [[parent u]|e];
    [|reflexivity].
  pose proof (kind_at_same_shape w w' parent (conj E C)) as K.
  destruct (kind_at (root w) parent) as [[| |]|],
           (kind_at (root w') parent) as [[| |]|];
    cbn [option_map erase_kind] in K; try discriminate K; reflexivity.
Qed.

Lemma isfile_same_shape w w' path :
  same_shape w w' -> isfile w path = isfile w' path.
Proof.
  intros H. unfold isfile, stat. rewrite (resolve_same_shape _ _ _ H).
  destruct (resolve w' path) as [p|]; [|reflexivity].
  pose proof (kind_at_same_shape _ _ p H) as K.
  destruct (kind_at (root w) p) as [[| |]|], (kind_at (root w') p) as [[| |]|];
    cbn [option_map erase_kind] in K; try discriminate K; reflexivity.
Qed.

Lemma exists_same_shape w w' path :
  same_shape w w' -> exists_ w path = exists_ w' path.
Proof.
  intros H. unfold exists_, stat. rewrite (resolve_same_shape _ _ _ H).
  destruct (resolve w' path) as [p|]; [|reflexivity].
  pose proof (kind_at_same_shape _ _ p H) as K.
  destruct (kind_at (root w) p) as [[| |]|], (kind_at (root w') p) as [[| |]|];
    cbn [option_map erase_kind] in K; try discriminate K; reflexivity.
Qed.

Lemma lexists_same_shape w w' path :
  same_shape w w' -> lexists w path = lexists w' path.
Proof.
  intros H. unfold lexists, lstat. rewrite (locate_same_shape _ _ _ H).
  destruct (locate w' path) as [p|]; [|reflexivity].
  pose proof (kind_at_same_shape _ _ p H) as K.
  destruct (kind_at (root w) p) as [[| |]|], (kind_at (root w') p) as [[| |]|];
    cbn [option_map erase_kind] in K; try discriminate K; reflexivity.
Qed.

Lemma os_symlink_same_shape w w' target linkpath :
  same_shape w w' ->
  same_outcome (os_symlink w target linkpath) (os_symlink w' target linkpath).
Proof.
  intros H. unfold os_symlink, sys_symlink.
  destruct (is_empty target); [cbn; auto|].
  rewrite (locate_same_shape _ _ _ H).
  destruct (locate w' linkpath) as [p|e]; [|cbn; auto].
  pose proof (kind_at_same_shape _ _ p H) as K.
  destruct (kind_at (root w) p) as [k|], (kind_at (root w') p) as [k'|];
    cbn [option_map] in K; try discriminate K; cbn; [auto|].
  destruct H as [E C]. split; [|exact C]. cbn [root with_root].
  rewrite !erase_insert_at, E. reflexivity.
Qed.

Lemma place_same_shape t w w' :
  same_shape w w' -> same_outcome (place_task w t) (place_task w' t).
Proof.
  intros H. unfold place_task, place.
  rewrite (isfile_same_shape _ _ _ H), (exists_same_shape _ _ _ H).
  destruct (isfile w' _ && negb (exists_ w' _)); [|exact H].
  destruct H as [E C]. rewrite C.
  destruct (relpath (cwd w') _ _) as [rl|]; [|cbn; repeat split; trivial].
  apply os_symlink_same_shape. split; assumption.
Qed.

Lemma placements_same_shape tasks : forall w w',
  same_shape w w' ->
  same_outcome (for_stmt place_task tasks w) (for_stmt place_task tasks w').
Proof.
  induction tasks as [|t tasks IH]; intros w w' H; [exact H|].
  cbn [for_stmt]. pose proof (place_same_shape t w w' H) as P.
  destruct (place_task w t) as [a|x a], (place_task w' t) as [b|y b];
    cbn [same_outcome and_then] in *; try contradiction.
  - apply IH, P.
  - exact P.
Qed.

Lemma pth_roots_same_shape w w' site_dir ls : forall acc,
  same_shape w w' ->
  pth_roots_loop w site_dir ls acc = pth_roots_loop w' site_dir ls acc.
Proof.
  induction ls as [|l ls IH]; intros acc H; [reflexivity|].
  cbn [pth_roots_loop]. rewrite (isdir_same_shape _ _ _ H), !(IH _ H). reflexivity.
Qed.

Lemma colocate_in_same_shape w w' site_dir :
  same_shape w w' ->
  (isfile w (join site_dir "_aspect.pth") = true ->
   read_lines w (join site_dir "_aspect.pth")
   = read_lines w' (join site_dir "_aspect.pth")) ->
  same_outcome (colocate_in w site_dir) (colocate_in w' site_dir).
Proof.
  intros H R. unfold colocate_in.
  rewrite (isfile_same_shape _ _ _ H) in R |- *.
  destruct (isfile w' (join site_dir "_aspect.pth")); cbn [negb]; [|exact H].
  rewrite (R eq_refl).
  destruct (read_lines w' (join site_dir "_aspect.pth")) as [ls|x];
    [|cbn; auto].
  rewrite (pth_roots_same_shape _ _ _ _ _ H).
  destruct (is_nil (pth_roots_loop w' site_dir ls [])); [exact H|].
  rewrite (build_index_same_shape _ _ _ H).
  destruct (build_index w' (pth_roots_loop w' site_dir ls [])) as [idx|x];
    [|cbn; auto].
  rewrite !synthesize_placements. apply placements_same_shape, H.
Qed.

Lemma scandir_same_shape w w' path :
  same_shape w w' ->
  match scandir w path, scandir w' path with
  | Ok es, Ok es' =>
      map (fun e => (fst e, erase (snd e))) es
      = map (fun e => (fst e, erase (snd e))) es'
  | Err e, Err e' => e = e'
  | _, _ => False
  end.
Proof.
  intros H. unfold scandir. rewrite (resolve_same_shape _ _ _ H).
  destruct (resolve w' path) as [p|e]; [|reflexivity].
  destruct H as [E C].
  assert (L : option_map erase (lookup (root w) p) = option_map erase (lookup (root w') p)).
  { rewrite <- !lookup_erase, E. reflexivity. }
  destruct (lookup (root w) p) as [[| |es]|], (lookup (root w') p) as [[| |es']|];
    cbn [option_map erase] in L; try discriminate L; try reflexivity.
  injection L as L. exact L.
Qed.

Lemma glob_same_shape w w' virtualenv_home :
  same_shape w w' ->
  glob_site_dirs w virtualenv_home = glob_site_dirs w' virtualenv_home.
Proof.
  intros H. unfold glob_site_dirs.
  pose proof (scandir_same_shape w w' (join virtualenv_home "lib") H) as S.
  destruct (scandir w (join virtualenv_home "lib")) as [es|e],
           (scandir w' (join virtualenv_home "lib")) as [es'|e'];
    try contradiction; [|reflexivity].
  set (libdir := join virtualenv_home "lib") in *.
  assert (N : map fst (filter (fun e => entry_is_dir w libdir (fst e) (snd e)
                                        && startswith (fst e) "python") es)
            = map fst (filter (fun e => entry_is_dir w' libdir (fst e) (snd e)
                                        && startswith (fst e) "python") es')).
  { assert (G : forall (v : world) l,
      (forall n x, entry_is_dir v libdir n x = entry_is_dir w' libdir n (erase x)) ->
      map fst (filter (fun e => entry_is_dir v libdir (fst e) (snd e)
                                && startswith (fst e) "python") l)
      = map fst (filter (fun e => entry_is_dir w' libdir (fst e) (snd e)
                                  && startswith (fst e) "python")
                   (map (fun e => (fst e, erase (snd e))) l))).
    { intros v l Hv. induction l as [|[n x] l IH]; [reflexivity|].
      cbn [filter map fst snd]. rewrite Hv.
      destruct (entry_is_dir w' libdir n (erase x) && startswith n "python");
        cbn [map fst]; rewrite IH; reflexivity. }
    rewrite (G w es), (G w' es'), S; [reflexivity | |].
    - intros n x. apply entry_is_dir_same_shape, same_shape_refl.
    - intros n x. apply entry_is_dir_same_shape, H. }
  rewrite N. apply flat_map_ext. intros name.
  rewrite (lexists_same_shape _ _ _ H). reflexivity.
Qed.

(** X22, lines 16-72: besides the text of the [_aspect.pth] of the first
    match, the colocation reads no file contents.  Take a home without
    wildcard and two file systems that differ in the contents of
    regular files at most; where the first match has a regular file
    [_aspect.pth], let it have the same contents in both, or be ASCII
    text of the same lines in both.  Then the colocation ends the same
    way in both, with the same exception if any, and creates the same
    links.  Nothing is asked of the other matches. *)
Theorem colocate_ignores_contents w w' virtualenv_home :
  has_magic virtualenv_home = false ->
  same_shape w w' ->
  (forall site_dir rest content,
     glob_site_dirs w virtualenv_home = site_dir :: rest ->
     stat w (join site_dir "_aspect.pth") = Ok (KFile content) ->
     stat w' (join site_dir "_aspect.pth") = Ok (KFile content) \/
     (is_ascii content = true /\
      exists content',
        stat w' (join site_dir "_aspect.pth") = Ok (KFile content') /\
        is_ascii content' = true /\ lines content' = lines content)) ->
  same_outcome (colocate_pyi_stubs w virtualenv_home)
               (colocate_pyi_stubs w' virtualenv_home).
Proof.
  intros _ H R. unfold colocate_pyi_stubs.
  rewrite <- (glob_same_shape _ _ _ H).
  destruct (glob_site_dirs w virtualenv_home) as [|site_dir rest] eqn:G; [exact H|].
  apply colocate_in_same_shape; [exact H|].
  unfold isfile, read_lines.
  destruct (stat w (join site_dir "_aspect.pth")) as [[content| |]|e] eqn:S;
    try discriminate.
  intros _.
  destruct (R site_dir rest content eq_refl S) as [-> | [A [content' [-> [A' L]]]]];
    [reflexivity|].
  rewrite A, A', L. reflexivity.
Qed.

Lemma colocate_ignores_contents_witness :
  same_outcome (colocate_pyi_stubs first_of_two "/venv")
               (colocate_pyi_stubs first_of_two_edited "/venv") /\
  same_outcome (colocate_pyi_stubs two_roots "/venv")
               (colocate_pyi_stubs two_roots_crlf "/venv").
Proof.
  split.
  - apply (colocate_ignores_contents first_of_two first_of_two_edited "/venv").
    + reflexivity.
    + split; reflexivity.
    + intros site_dir rest content G S. vm_compute in G. injection G as <- _.
      left. vm_compute in S. injection S as <-. vm_compute. reflexivity.
  - apply (colocate_ignores_contents two_roots two_roots_crlf "/venv").
    + reflexivity.
    + split; reflexivity.
    + intros site_dir rest content G S. vm_compute in G. injection G as <- _.
      right. vm_compute in S. injection S as <-.
      split; [reflexivity|]. eexists.
      split; [vm_compute; reflexivity|]. split; vm_compute; reflexivity.
Defined.

(** The matches of [first_of_two] differ in their second [_aspect.pth],
    and the [_aspect.pth] of [two_roots_crlf] is another text with the
    lines of [two_roots]. *)
Example contents_that_differ :
  stat first_of_two "/venv/lib/python3.12/site-packages/_aspect.pth"
    <> stat first_of_two_edited "/venv/lib/python3.12/site-packages/_aspect.pth" /\
  stat two_roots (join site_packages "_aspect.pth")
    <> stat two_roots_crlf (join site_packages "_aspect.pth") /\
  read_lines two_roots (join site_packages "_aspect.pth")
    = read_lines two_roots_crlf (join site_packages "_aspect.pth").
Proof.
  split; [vm_compute; discriminate|]. split; [vm_compute; discriminate|].
  vm_compute. reflexivity.
Qed.

End Contents.

(* ================================================================== *)
(** ** Lexical normalization *)

Module Lexical.

Import Str PosixPath FS StrFacts PathFacts Link AsSpecified.

(** The loop of [normpath], which appends to and pops from
    [new_comps], and the collapse of the components are the same
    function. *)
Lemma norm_loop_collapse initial comps : forall kept,
  norm_loop initial comps (rev kept)
  = collapse (negb (Nat.eqb initial 0)) kept comps.
Proof.
  induction comps as [|c comps IH]; intros kept; [reflexivity|].
  cbn [norm_loop collapse].
  destruct (String.eqb c "" || String.eqb c "."); [apply IH|].
  destruct (String.eqb c "..") eqn:P; cbn [negb orb].
  - apply String.eqb_eq in P. subst c. destruct kept as [|k kept'].
    + cbn [rev is_nil negb andb]. rewrite andb_true_r, orb_false_r.
      destruct (Nat.eqb initial 0); cbn [negb app];
        [apply (IH [".."]) | apply (IH [])].
    + assert (N : is_nil (rev (k :: kept')) = false).
      { cbn [rev]. destruct (rev kept'); reflexivity. }
      rewrite N. cbn [negb andb orb]. rewrite andb_false_r. cbn [orb].
      cbn [rev]. rewrite last_last, removelast_last.
      destruct (String.eqb k "..").
      * apply (IH (".." :: k :: kept')).
      * apply IH.
  - apply (IH (c :: kept)).
Qed.

Lemma absolute_initial_slashes path :
  negb (Nat.eqb (initial_slashes path) 0) = isabs path.
Proof.
  unfold initial_slashes, isabs.
  destruct (startswith path "/"); [|reflexivity].
  destruct (startswith path "//" && negb (startswith path "///")); reflexivity.
Qed.

(** [normpath] gives the path normalized lexically. *)
Lemma normpath_lexical path : normpath path = normalized_lexically path.
Proof.
  unfold normpath, normalized_lexically.
  destruct (is_empty path) eqn:E.
  - destruct path; [reflexivity | discriminate E].
  - cbv zeta.
    change (norm_loop (initial_slashes path) (split path) [])
      with (norm_loop (initial_slashes path) (split path) (rev [])).
    rewrite norm_loop_collapse, absolute_initial_slashes. reflexivity.
Qed.

End Lexical.

(* ================================================================== *)
(** ** The white space [strip] removes *)

Module Trim.

Import Str AsSpecified.

Lemma lstrip_spec s :
  (exists a, s = a +++ lstrip s /\ all_space a = true) /\
  (forall c r, lstrip s = String c r -> is_space c = false).
Proof.
  induction s as [|c s [[a [E A]] F]].
  - split; [exists ""; split; reflexivity | discriminate].
  - cbn [lstrip]. destruct (is_space c) eqn:W.
    + split; [|exact F]. exists (String c a). cbn [append all_space].
      rewrite <- E, W, A. split; reflexivity.
    + split; [exists ""; split; reflexivity|].
      intros c0 r [= <- _]. exact W.
Qed.

Lemma snoc_inv r c d : r +++ String c "" = String d "" -> r = "" /\ c = d.
Proof.
  destruct r as [|x r]; cbn [append].
  - intros [= ->]. split; reflexivity.
  - intros [= _ H]. destruct r; discriminate H.
Qed.

Lemma rstrip_spec s :
  (exists b, s = rstrip s +++ b /\ all_space b = true) /\
  (forall r c, rstrip s = r +++ String c "" -> is_space c = false).
Proof.
  induction s as [|c s [[b [E A]] F]].
  - split; [exists ""; split; reflexivity|].
    intros [|x r] c H; discriminate H.
  - cbn [rstrip]. destruct (rstrip s) as [|d r'] eqn:R.
    + cbn [append] in E. destruct (is_space c) eqn:W.
      * split.
        -- exists (String c b). cbn [append all_space]. rewrite W, A.
           split; [f_equal; exact E | reflexivity].
        -- intros [|x r] c0 H; discriminate H.
      * split.
        -- exists b. cbn [append]. split; [f_equal; exact E | exact A].
        -- intros r c0 H. symmetry in H. apply snoc_inv in H.
           destruct H as [_ ->]. exact W.
    + split.
      * exists b. cbn [append] in *. split; [f_equal; exact E | exact A].
      * intros [|x r] c0 H; [discriminate H|].
        cbn [append] in H. injection H as _ H. apply (F r c0 H).
Qed.

(** [strip] takes the white space off the two ends of a line. *)
Lemma strip_trimmed line : trimmed line (strip line).
Proof.
  unfold trimmed, strip.
  destruct (lstrip_spec line) as [[a [Ea Aa]] Fa].
  destruct (rstrip_spec (lstrip line)) as [[b [Eb Ab]] Fb].
  split; [|split].
  - exists a, b. rewrite <- Eb. auto.
  - intros c r H. rewrite H in Eb. cbn [append] in Eb. apply (Fa _ _ Eb).
  - exact Fb.
Qed.

End Trim.

(* ================================================================== *)
(** ** The colocation when the site-configuration file is read *)

Module ReadFacts.

Import Str PosixPath FS StrFacts PathFacts FSFacts Link LinkFacts Index.
Import ColocateFacts.

Lemma isfile_stat w path :
  isfile w path = true <-> exists content, stat w path = Ok (KFile content).
Proof.
  unfold isfile. destruct (stat w path) as [[c| |]|e]; split;
    try discriminate; try (intros [c' H]; discriminate H); eauto.
Qed.

(** The function from line 32 on when [_aspect.pth] is a regular file
    of ASCII text: the roots of its lines, the index of their stubs,
    and the synthesis unless there is no root. *)
Lemma colocate_in_read w site_dir content :
  stat w (join site_dir "_aspect.pth") = Ok (KFile content) ->
  is_ascii content = true ->
  read_lines w (join site_dir "_aspect.pth") = Val (lines content) /\
  exists pyi_sources,
    build_index w (pth_roots_loop w site_dir (lines content) []) = Val pyi_sources /\
    colocate_in w site_dir
    = if is_nil (pth_roots_loop w site_dir (lines content) []) then Returned w
      else synthesize pyi_sources (pth_roots_loop w site_dir (lines content) []) w.
Proof.
  intros S A.
  assert (R : read_lines w (join site_dir "_aspect.pth") = Val (lines content)).
  { unfold read_lines. rewrite S, A. reflexivity. }
  split; [exact R|].
  eexists. split; [apply build_index_value|].
  unfold colocate_in, isfile. rewrite S. cbn [negb]. rewrite R.
  rewrite build_index_value. reflexivity.
Qed.

(** An entry that [colocate_in] creates lies at the stub path of a root
    that a line of [_aspect.pth] names. *)
Lemma colocate_in_created w site_dir p :
  kind_at (root w) p = None ->
  kind_at (root (state_of (colocate_in w site_dir))) p <> None ->
  exists content r rel_pyi w1,
    stat w (join site_dir "_aspect.pth") = Ok (KFile content) /\
    is_ascii content = true /\
    In r (pth_roots_loop w site_dir (lines content) []) /\
    grows w w1 /\
    isfile w1 (source_path r rel_pyi) = true /\
    locate w1 (stub_path r rel_pyi) = Ok p.
Proof.
  intros F N.
  destruct (colocate_in_cases w site_dir) as [E | [[x E] | [ls [idx [R [_ [_ E]]]]]]];
    rewrite E in N; cbn [state_of] in N; try (contradiction (N F)).
  destruct (read_lines_value _ _ _ R) as [content [S [A ->]]].
  rewrite synthesize_placements in N.
  destruct (placements_provenance _ _ _ F N)
    as [[[rel_pyi pyi_abs] r] [w1 [tgt [I [G [Sf [_ [L _]]]]]]]].
  cbn [fst snd] in *. apply placements_in in I. destruct I as [_ I]. cbn [snd] in I.
  exists content, r, rel_pyi, w1. auto 7.
Qed.

End ReadFacts.

(* ================================================================== *)
(** ** The roots of a site-configuration file *)

Module PthRoots.

Import Str PosixPath FS StrFacts PathFacts FSFacts Link LinkFacts Index Worlds Runs.
Import ColocateFacts Roots AsSpecified Lexical Trim ReadFacts.

(** C7: the lines of a site-configuration file that is read are first
    stripped of the white space at their two ends; a stripped line that
    is empty or starts with [#] is skipped; every other one is joined
    to the directory of the file and normalized lexically, the empty
    and [.] components dropped and each [..] cancelling the component
    before it, without a look at the file system; the result is a root
    when it is a directory, and the roots come in line order.  These
    are the roots the index and the synthesis work on. *)
Theorem pth_roots_spec w site_dir content :
  stat w (join site_dir "_aspect.pth") = Ok (KFile content) ->
  is_ascii content = true ->
  let kept := filter (fun l => negb (is_empty l || startswith l "#"))
                (map strip (lines content)) in
  let roots := filter (isdir w)
                 (map (fun l => normalized_lexically (join site_dir l)) kept) in
  (forall line, In line (lines content) -> trimmed line (strip line)) /\
  pth_roots_loop w site_dir (lines content) [] = roots /\
  exists pyi_sources,
    build_index w roots = Val pyi_sources /\
    colocate_in w site_dir
    = if is_nil roots then Returned w else synthesize pyi_sources roots w.
Proof.
  intros S A kept roots.
  assert (E : pth_roots_loop w site_dir (lines content) [] = roots).
  { rewrite pth_roots_filter. unfold roots, kept. f_equal.
    apply map_ext. intros l. apply normpath_lexical. }
  split; [intros line _; apply strip_trimmed|].
  split; [exact E|].
  destruct (colocate_in_read _ _ _ S A) as [_ C]. rewrite E in C. exact C.
Qed.

Lemma pth_roots_spec_witness :
  let kept := filter (fun l => negb (is_empty l || startswith l "#"))
                (map strip (lines mixed_text)) in
  let roots := filter (isdir mixed_lines)
                 (map (fun l => normalized_lexically (join site_packages l)) kept) in
  (forall line, In line (lines mixed_text) -> trimmed line (strip line)) /\
  pth_roots_loop mixed_lines site_packages (lines mixed_text) [] = roots /\
  exists pyi_sources,
    build_index mixed_lines roots = Val pyi_sources /\
    colocate_in mixed_lines site_packages
    = if is_nil roots then Returned mixed_lines
      else synthesize pyi_sources roots mixed_lines.
Proof.
  apply (pth_roots_spec mixed_lines site_packages mixed_text);
    vm_compute; reflexivity.
Defined.

(** The lines of [mixed_lines], what is kept of them, and the roots:
    the path around which there is white space names a root, the
    indented comment is skipped, and [B] is reached through [.] and
    [..]. *)
Example mixed_lines_roots :
  lines mixed_text
    = [" " +++ up4 +++ "A  "; "   "; "  # " +++ up4 +++ "C";
       up4 +++ "missing"; up4 +++ "./B/../B/"] /\
  filter (fun l => negb (is_empty l || startswith l "#")) (map strip (lines mixed_text))
    = [up4 +++ "A"; up4 +++ "missing"; up4 +++ "./B/../B/"] /\
  pth_roots_loop mixed_lines site_packages (lines mixed_text) [] = ["/A"; "/B"] /\
  lstat (state_of (colocate_in mixed_lines site_packages)) "/B/x.pyi"
    = Ok (KSymlink "../A/x.pyi").
Proof. repeat split; vm_compute; reflexivity. Qed.

(** C7 fails where the lines are taken as the file has them: the line
    of [spaced_line] that begins with a blank names the root [/A] for
    the code, and no directory when it is joined as it is; a line of
    blanks is skipped, not joined; and in [mixed_lines] the root [/A]
    comes from a line with white space at both ends. *)
Lemma lines_are_stripped :
  (read_lines spaced_line (join site_packages "_aspect.pth")
     = Val [" " +++ up4 +++ "A"; "   "] /\
   pth_roots_loop spaced_line site_packages [" " +++ up4 +++ "A"; "   "] [] = ["/A"] /\
   roots_as_claimed spaced_line site_packages [" " +++ up4 +++ "A"; "   "] = []) /\
  (read_lines mixed_lines (join site_packages "_aspect.pth") = Val (lines mixed_text) /\
   pth_roots_loop mixed_lines site_packages (lines mixed_text) [] = ["/A"; "/B"] /\
   roots_as_claimed mixed_lines site_packages (lines mixed_text) = ["/B"]).
Proof. repeat split; vm_compute; reflexivity. Qed.

End PthRoots.

(* ================================================================== *)
(** ** The first match of the pattern *)

Module FirstMatch.

Import Str PosixPath FS StrFacts PathFacts FSFacts Link LinkFacts Index Worlds.
Import Script ColocateFacts Runs Contents ReadFacts.

(** C10: of the directories that match [lib/python*/site-packages]
    under a home without wildcard, the first alone decides what the
    function does.  Without a regular file [_aspect.pth] there, the
    function returns at once, whatever the other matches hold.  With
    one that is read, the roots are those of its lines, and the index
    and the synthesis work on these roots alone; every entry that is
    created lies at the stub path of one of them.  And the outcome is
    the same on a file system that has the same entries and the same
    [_aspect.pth] in the first match, whatever the files of the other
    matches and of the roots contain. *)
Theorem first_site_dir_only w virtualenv_home site_dir rest :
  has_magic virtualenv_home = false ->
  glob_site_dirs w virtualenv_home = site_dir :: rest ->
  (isfile w (join site_dir "_aspect.pth") = false ->
   colocate_pyi_stubs w virtualenv_home = Returned w) /\
  (forall content,
     stat w (join site_dir "_aspect.pth") = Ok (KFile content) ->
     is_ascii content = true ->
     exists pyi_sources,
       build_index w (pth_roots_loop w site_dir (lines content) []) = Val pyi_sources /\
       colocate_pyi_stubs w virtualenv_home
       = if is_nil (pth_roots_loop w site_dir (lines content) []) then Returned w
         else synthesize pyi_sources (pth_roots_loop w site_dir (lines content) []) w) /\
  (forall p,
     kind_at (root w) p = None ->
     kind_at (root (state_of (colocate_pyi_stubs w virtualenv_home))) p <> None ->
     exists content r rel_pyi w1,
       stat w (join site_dir "_aspect.pth") = Ok (KFile content) /\
       is_ascii content = true /\
       In r (pth_roots_loop w site_dir (lines content) []) /\
       grows w w1 /\
       isfile w1 (source_path r rel_pyi) = true /\
       locate w1 (stub_path r rel_pyi) = Ok p) /\
  (forall w',
     same_shape w w' ->
     stat w' (join site_dir "_aspect.pth") = stat w (join site_dir "_aspect.pth") ->
     same_outcome (colocate_pyi_stubs w virtualenv_home)
                  (colocate_pyi_stubs w' virtualenv_home)).
Proof.
  intros _ G.
  assert (E : colocate_pyi_stubs w virtualenv_home = colocate_in w site_dir).
  { unfold colocate_pyi_stubs. rewrite G. reflexivity. }
  split; [|split; [|split]].
  - intros F. rewrite E. unfold colocate_in. rewrite F. reflexivity.
  - intros content S A. rewrite E. apply (colocate_in_read _ _ _ S A).
  - intros p F N. rewrite E in N. apply (colocate_in_created _ _ _ F N).
  - intros w' H S. rewrite E. unfold colocate_pyi_stubs.
    rewrite <- (glob_same_shape _ _ _ H), G.
    apply colocate_in_same_shape; [exact H|].
    intros _. unfold read_lines. rewrite S. reflexivity.
Qed.

Lemma first_site_dir_only_witness :
  colocate_pyi_stubs first_bare "/venv" = Returned first_bare /\
  (exists pyi_sources,
     build_index first_of_two
       (pth_roots_loop first_of_two "/venv/lib/python3.11/site-packages"
          (lines (up4 +++ "A" +++ nl +++ up4 +++ "B" +++ nl)) []) = Val pyi_sources /\
     colocate_pyi_stubs first_of_two "/venv"
     = if is_nil (pth_roots_loop first_of_two "/venv/lib/python3.11/site-packages"
                    (lines (up4 +++ "A" +++ nl +++ up4 +++ "B" +++ nl)) [])
       then Returned first_of_two
       else synthesize pyi_sources
              (pth_roots_loop first_of_two "/venv/lib/python3.11/site-packages"
                 (lines (up4 +++ "A" +++ nl +++ up4 +++ "B" +++ nl)) [])
              first_of_two) /\
  same_outcome (colocate_pyi_stubs first_of_two "/venv")
               (colocate_pyi_stubs first_of_two_edited "/venv").
Proof.
  assert (M : has_magic "/venv" = false) by reflexivity.
  assert (G1 : glob_site_dirs first_bare "/venv"
               = ["/venv/lib/python3.11/site-packages";
                  "/venv/lib/python3.12/site-packages"])
    by (vm_compute; reflexivity).
  assert (F1 : isfile first_bare (join "/venv/lib/python3.11/site-packages" "_aspect.pth")
               = false)
    by (vm_compute; reflexivity).
  assert (G2 : glob_site_dirs first_of_two "/venv"
               = ["/venv/lib/python3.11/site-packages";
                  "/venv/lib/python3.12/site-packages"])
    by (vm_compute; reflexivity).
  assert (S2 : stat first_of_two (join "/venv/lib/python3.11/site-packages" "_aspect.pth")
               = Ok (KFile (up4 +++ "A" +++ nl +++ up4 +++ "B" +++ nl)))
    by (vm_compute; reflexivity).
  assert (A2 : is_ascii (up4 +++ "A" +++ nl +++ up4 +++ "B" +++ nl) = true)
    by (vm_compute; reflexivity).
  assert (H3 : same_shape first_of_two first_of_two_edited)
    by (split; vm_compute; reflexivity).
  assert (S3 : stat first_of_two_edited
                 (join "/venv/lib/python3.11/site-packages" "_aspect.pth")
               = stat first_of_two
                   (join "/venv/lib/python3.11/site-packages" "_aspect.pth"))
    by (vm_compute; reflexivity).
  split; [|split].
  - exact (proj1 (first_site_dir_only _ _ _ _ M G1) F1).
  - exact (proj1 (proj2 (first_site_dir_only _ _ _ _ M G2)) _ S2 A2).
  - exact (proj2 (proj2 (proj2 (first_site_dir_only _ _ _ _ M G2))) _ H3 S3).
Defined.

(** In [first_of_two] both matches hold an [_aspect.pth].  The first
    names the roots [A] and [B], and the stub of [A] is linked into
    [B]; the second names [C] as well, which has the source [x.py] and
    gets no link.  With another [_aspect.pth] in the second match and
    other file contents the same link is made. *)
Example first_of_two_run :
  glob_site_dirs first_of_two "/venv"
    = ["/venv/lib/python3.11/site-packages"; "/venv/lib/python3.12/site-packages"] /\
  pth_roots_loop first_of_two "/venv/lib/python3.12/site-packages"
    [up4 +++ "C"; up4 +++ "A"] [] = ["/C"; "/A"] /\
  isfile first_of_two (source_path "/C" "x.pyi") = true /\
  (exists w', colocate_pyi_stubs first_of_two "/venv" = Returned w' /\
              lstat w' "/B/x.pyi" = Ok (KSymlink "../A/x.pyi") /\
              lstat w' "/C/x.pyi" = Err ENOENT) /\
  (exists w', colocate_pyi_stubs first_of_two_edited "/venv" = Returned w' /\
              lstat w' "/B/x.pyi" = Ok (KSymlink "../A/x.pyi") /\
              lstat w' "/C/x.pyi" = Err ENOENT) /\
  (exists w', colocate_in first_of_two "/venv/lib/python3.12/site-packages" = Returned w' /\
              lstat w' "/C/x.pyi" = Ok (KSymlink "../A/x.pyi")).
Proof.
  split; [vm_compute; reflexivity|]. split; [vm_compute; reflexivity|].
  split; [vm_compute; reflexivity|].
  split; [|split]; eexists; (split; [|try split]); vm_compute; reflexivity.
Qed.

End FirstMatch.
